(** * Raydium CLMM swap helper: a shallow embedding of [app/lib/raydium.ts]
      and of the snapshot effect of [useClmmSwap].

    The development follows the TypeScript sources:
    - JavaScript strings are sequences of UTF-16 code units ([list N]);
    - a [BN] instance holds an unbounded integer ([Z]), or no words at all
      when it was constructed from a text without digits; what the sources
      use of [bn.js] (the string constructor, [toString], [isZero],
      [isNeg]) is in module [BN];
    - [async] functions that talk to the RPC node, the wallet or the Raydium
      SDK are written in a state-and-exception monad [M] over a [World]: the
      state of everything outside the program, of any type, and the log of
      every external call; the node, the wallet and the SDK are records of
      operations on that outside state;
    - the React effect of [useClmmSwap] is a transition system over the
      runs of the effect, each with its own [cancelled] variable. *)

From Stdlib Require Import ZArith NArith QArith Lia String Ascii Bool.
From stdpp Require Import base list gmap.

Local Open Scope N_scope.

(** ** JavaScript strings *)

Module JsString.

(** A string is the list of its UTF-16 code units. *)
Abbreviation t := (list N).

(** String literals of the sources, read one code unit per character. *)
Definition js (s : string) : t :=
  List.map N_of_ascii (list_ascii_of_string s).

Definition char0 : N := 48.   (* "0" *)
Definition dot : N := 46.     (* "." *)
Definition minus : N := 45.   (* "-" *)

(** [WhiteSpace] and [LineTerminator] of ECMAScript: what [trim] removes
    and what the regular expression class [\s] matches. *)
Definition isWhiteSpace (c : N) : bool :=
  (9 <=? c) && (c <=? 13)
  || (c =? 32) || (c =? 160) || (c =? 5760)
  || (8192 <=? c) && (c <=? 8202)
  || (c =? 8232) || (c =? 8233) || (c =? 8239) || (c =? 8287)
  || (c =? 12288) || (c =? 65279).

(** The regular expression class [\d]. *)
Definition isDigit (c : N) : bool := (48 <=? c) && (c <=? 57).

Definition isZeroChar (c : N) : bool := c =? char0.

Fixpoint dropWhile (p : N -> bool) (s : t) : t :=
  match s with
  | [] => []
  | c :: s' => if p c then dropWhile p s' else s
  end.

(** [s.trim()] *)
Definition trim (s : t) : t :=
  reverse (dropWhile isWhiteSpace (reverse (dropWhile isWhiteSpace s))).

(** [s.startsWith(c)] for a one-character [c]. *)
Definition startsWith (c : N) (s : t) : bool :=
  match s with
  | c' :: _ => c' =? c
  | [] => false
  end.

(** [s.split(sep)] for a one-character separator: never the empty array. *)
Fixpoint split (sep : N) (s : t) : list t :=
  match s with
  | [] => [[]]
  | c :: s' =>
      if c =? sep then [] :: split sep s'
      else match split sep s' with
           | seg :: segs => (c :: seg) :: segs
           | [] => [[c]]
           end
  end.

(** [s.padStart(n, "0")] and [s.padEnd(n, "0")] *)
Definition padStart (n : nat) (c : N) (s : t) : t :=
  replicate (n - length s) c ++ s.
Definition padEnd (n : nat) (c : N) (s : t) : t :=
  s ++ replicate (n - length s) c.

(** [s.substring(0, n)] for a natural number [n]. *)
Definition substring0 (n : nat) (s : t) : t := take n s.

(** [s.slice(0, -n)] and [s.slice(-n)] for a positive natural number [n]:
    the end (resp. start) index is [max (length s - n) 0]. *)
Definition sliceButLast (n : nat) (s : t) : t := take (length s - n) s.
Definition sliceLast (n : nat) (s : t) : t := drop (length s - n) s.

(** [s.replace(/^0+/, "")] *)
Definition stripLeadingZeros (s : t) : t := dropWhile isZeroChar s.

(** [s.replace(/0+$/, "")] *)
Definition stripTrailingZeros (s : t) : t :=
  reverse (dropWhile isZeroChar (reverse s)).

(** [s.replace(/^0+(?=\d)/, "")]: the greedy run of leading zeros is
    removed when a digit follows it; when none does, the match backtracks
    by one zero, which then plays the digit of the lookahead, so that all
    leading zeros but the last are removed. *)
Definition stripZerosBeforeDigit (s : t) : t :=
  match s with
  | c :: _ =>
      if isZeroChar c then
        match dropWhile isZeroChar s with
        | c' :: rest => if isDigit c' then c' :: rest else char0 :: c' :: rest
        | [] => [char0]
        end
      else s
  | [] => []
  end.

(** [s || d]: the empty string is falsy. *)
Definition orElse (s d : t) : t :=
  match s with
  | [] => d
  | _ => s
  end.

End JsString.

Import JsString.

(** ** Errors *)

(** What the sources throw.  Every [Error] of [raydium.ts] is one
    constructor; [errorMessage] gives its text. *)
Inductive Error : Type :=
  | WalletNotConnected        (* performClmmSwap, no publicKey *)
  | WalletCannotSend          (* performClmmSwap, no sendTransaction *)
  | InvalidAddress            (* new PublicKey(...) *)
  | PoolNotFound
  | WrongProgramOwner
  | MalformedAccount
  | SessionWalletNotConnected (* createRaydiumContext *)
  | WalletCannotSign
  | AtaWalletCannotSend       (* ensureAtaExists *)
  | TokenInNotInPool
  | TokenOutNotInPool
  | NonPositiveAmount
  | PoolDataUnavailable
  | InsufficientLiquidity
  | InvalidCharacter          (* the assertion of bn.js *)
  | ExternalError (code : N). (* a rejection of the RPC node, wallet or SDK *)

Inductive result (A : Type) : Type :=
  | Ok (a : A)
  | Throw (e : Error).
Arguments Ok {A} & a.
Arguments Throw {A} e.

(** The text of each [Error] the module constructs; the errors of the
    libraries carry their own. *)
Definition errorMessage (e : Error) : option string :=
  match e with
  | WalletNotConnected => Some "Connect a Solana wallet to submit a swap."%string
  | WalletCannotSend => Some "Wallet does not expose sendTransaction."%string
  | PoolNotFound => Some "Pool not found on the selected cluster."%string
  | WrongProgramOwner =>
      Some "This pool belongs to the Raydium AMM program. Provide a CLMM pool address instead."%string
  | MalformedAccount =>
      Some "Pool account size is too small for CLMM. Provide a valid CLMM poolId."%string
  | SessionWalletNotConnected => Some "Wallet is not connected."%string
  | WalletCannotSign =>
      Some "Wallet cannot sign transactions via signAllTransactions."%string
  | AtaWalletCannotSend =>
      Some "Wallet cannot create an ATA without sendTransaction."%string
  | TokenInNotInPool => Some "Input token is not part of the selected pool."%string
  | TokenOutNotInPool => Some "Output token is not part of the selected pool."%string
  | NonPositiveAmount => Some "Enter a positive amount to swap."%string
  | PoolDataUnavailable => Some "Unable to load CLMM pool data."%string
  | InsufficientLiquidity => Some "Insufficient liquidity in the pool."%string
  | InvalidAddress | InvalidCharacter | ExternalError _ => None
  end.

(** ** bn.js

    The library is a dependency, not part of the sources: the module states
    the behaviour of bn.js 5 that [uiAmountToBN], [formatTokenAmount] and
    [performClmmSwap] rely on. *)

Module BN.

(** A [BN] instance.  It normally holds an integer of any size, its sign
    apart from its words.  [new BN(text)] parses the text only when a
    character is left after the white space and the sign: on a text
    without any, the instance keeps [words = null] and [length = 0], with
    the sign flag the text gave it; it holds no integer then. *)
Inductive t : Type :=
  | Number (value : Z)
  | NoWords (negative : bool).

(** Value of a string of decimal digits, most significant first, as
    [parseBase] accumulates it: [r = r * 10 + (c - 48)]. *)
Definition digitsValue (s : JsString.t) : N :=
  fold_left (fun r c => r * 10 + (c - 48)) s 0.

(** [new BN(s)], base 10.  The constructor initialises from [s || 0], so
    the empty string gives the number zero.  Otherwise white space is
    removed and a leading ["-"] sets the sign; when characters are left
    after it, every one must be a decimal digit (bn.js asserts so and
    throws ["Invalid character"]) and they are the magnitude, zero having
    no sign; when none is left, nothing is parsed and the instance stays
    without words. *)
Definition ofString (s : JsString.t) : result t :=
  match s with
  | [] => Ok (Number 0)
  | _ =>
      let number := List.filter (fun c => negb (isWhiteSpace c)) s in
      let negative := startsWith minus number in
      let body := if negative then drop 1 number else number in
      match body with
      | [] => Ok (NoWords negative)
      | _ =>
          if forallb isDigit body then
            let magnitude := Z.of_N (digitsValue body) in
            Ok (Number (if negative then (- magnitude)%Z else magnitude))
          else Throw InvalidCharacter
      end
  end.

Fixpoint digitsAux (fuel : nat) (n : N) (acc : JsString.t) : JsString.t :=
  match fuel with
  | O => acc
  | S fuel' =>
      let acc' := (48 + n mod 10) :: acc in
      if n <? 10 then acc' else digitsAux fuel' (n / 10) acc'
  end.

(** Decimal digits of a natural number, no leading zero, ["0"] for zero. *)
Definition digits (n : N) : JsString.t :=
  digitsAux (S (N.to_nat (N.size n))) n [].

(** [amount.toString()], base 10, of an instance that holds the integer
    [z]. *)
Definition toString (z : Z) : JsString.t :=
  match z with
  | Zneg p => minus :: digits (Npos p)
  | _ => digits (Z.to_N z)
  end.

(** [isZero]: [this.length === 1 && this.words[0] === 0]. *)
Definition isZero (a : t) : bool :=
  match a with
  | Number z => (z =? 0)%Z
  | NoWords _ => false
  end.

(** [isNeg]: [this.negative !== 0]. *)
Definition isNeg (a : t) : bool :=
  match a with
  | Number z => (z <? 0)%Z
  | NoWords negative => negative
  end.

End BN.

Coercion BN.Number : Z >-> BN.t.

(** ** AmountConverter: [uiAmountToBN] and [formatTokenAmount] *)

(** The string handed to [new BN] by [uiAmountToBN], for a non-empty,
    non-negative trimmed input. *)
Definition combinedDigits (sanitized : JsString.t) (decimals : nat) : JsString.t :=
  let parts := split dot sanitized in
  let whole := nth 0 parts (js "0") in
  let fraction := nth 1 parts [] in
  let wholeDigits := orElse (stripZerosBeforeDigit whole) (js "0") in
  let fractionDigits := padEnd decimals char0 (substring0 decimals fraction) in
  orElse (stripLeadingZeros (wholeDigits ++ fractionDigits)) (js "0").

Definition uiAmountToBN (input : JsString.t) (decimals : nat) : result BN.t :=
  let sanitized := trim input in
  match sanitized with
  | [] => Ok (BN.Number 0)
  | _ =>
      let negative := startsWith minus sanitized in
      if negative then Ok (BN.Number 0)
      else BN.ofString (combinedDigits sanitized decimals)
  end.

(** [formatTokenAmount] of an amount that holds the integer [amount]. *)
Definition formatTokenAmount (amount : Z) (decimals : nat) : JsString.t :=
  match decimals with
  | O => BN.toString amount
  | _ =>
      let raw := padStart (decimals + 1) char0 (BN.toString amount) in
      let whole := orElse (sliceButLast decimals raw) (js "0") in
      let fraction := stripTrailingZeros (sliceLast decimals raw) in
      match fraction with
      | [] => whole
      | _ => whole ++ dot :: fraction
      end
  end.

(** The guard of [performClmmSwap] on the converted amount:
    [amountIn.isZero() || amountIn.isNeg()]. *)
Definition nonPositive (amountIn : BN.t) : bool :=
  BN.isZero amountIn || BN.isNeg amountIn.

(** The exact value of the decimal literal [w.f], a rational number. *)
Definition literalValue (w f : JsString.t) : Q :=
  Z.of_N (BN.digitsValue (w ++ f)) # Z.to_pos (10 ^ Z.of_nat (length f)).

(** The fractional part of a decimal text: what stands between its first
    decimal point and the next one (or the end); empty without a point. *)
Definition fractionalPart (s : JsString.t) : JsString.t :=
  nth 1 (split dot s) [].

(** ** Data of the chain, the SDK and the wallet *)

(** A JavaScript [number] that no function here inspects: the 64 bits of
    the double. *)
Abbreviation JsNumber := N.

(** Transactions built by the SDK and other opaque SDK values. *)
Abbreviation VersionedTransaction := N.
Abbreviation Blockhash := N.
Abbreviation EpochInfo := N.
Abbreviation TickCache := N.

(** A 32-byte public key, as a number. *)
Abbreviation PublicKey := N.

Inductive SolanaCluster : Type := devnet | mainnet.

Inductive Commitment : Type := Processed | Confirmed | Finalized.

(** [AccountInfo]: [info.owner] and [info.data.length]. *)
Record AccountInfo : Type := {
  owner : PublicKey;
  dataLength : nat;
}.

Inductive Instruction : Type :=
  | CreateAssociatedTokenAccount
      (payer associatedToken owner mint programId associatedProgramId : PublicKey).

Record Transaction : Type := {
  instructions : list Instruction;
  feePayer : option PublicKey;
}.

Record MintInfo : Type := {
  address : JsString.t;
  symbol : option JsString.t;
  decimals : nat;
}.

Record PoolInfo : Type := {
  mintA : MintInfo;
  mintB : MintInfo;
  price : JsNumber;
}.

Record PoolKeys : Type := {
  observationId : JsString.t;
}.

Record ComputePoolInfo : Type := {
  tickCurrent : JsNumber;
}.

(** What [raydium.clmm.getPoolInfoFromRpc] resolves to. *)
Record RpcPoolData : Type := {
  poolInfo : PoolInfo;
  poolKeys : PoolKeys;
  computePoolInfo : option ComputePoolInfo;
  tickData : option (JsString.t -> option TickCache);
}.

(** What [PoolUtils.computeAmountOut] returns ([minAmountOut.amount], an
    amount the SDK computed, which holds an integer). *)
Record Computation : Type := {
  allTrade : bool;
  minAmountOut : Z;
  remainingAccounts : list PublicKey;
}.

(** The argument of [raydium.clmm.swap]. *)
Record SwapParams : Type := {
  swapPoolInfo : PoolInfo;
  swapPoolKeys : PoolKeys;
  swapInputMint : PublicKey;
  swapAmountIn : BN.t;
  amountOutMin : Z;
  swapObservationId : PublicKey;
  useSOLBalance : bool;
  swapFeePayer : PublicKey;
  swapRemainingAccounts : list PublicKey;
}.

Record ClmmPoolSnapshot : Type := {
  snapshotId : JsString.t;
  snapshotMintA : MintInfo;
  snapshotMintB : MintInfo;
  snapshotPrice : JsNumber;
  snapshotTickCurrent : JsNumber;
}.

Record ClmmSwapResult : Type := {
  txId : JsString.t;
  amountOut : Z;
  amountOutUi : JsString.t;
  outputMint : PublicKey;
  outputSymbol : option JsString.t;
}.

(** Every call that leaves the program, in the order it is made. *)
Inductive Call : Type :=
  | GetAccountInfo (pubkey : PublicKey)
  | GetLatestBlockhash
  | ConfirmTransaction (signature : JsString.t) (commitment : Commitment)
  | SendTransaction (tx : Transaction)
  | SignAllTransactions (txs : list VersionedTransaction)
  | SignTransaction (tx : VersionedTransaction)
  | RaydiumLoad (owner : PublicKey) (cluster : SolanaCluster)
  | FetchWalletTokenAccounts
  | GetPoolInfoFromRpc (poolId : JsString.t)
  | FetchEpochInfo
  | ClmmSwap (params : SwapParams)
  | Execute (sendAndConfirm skipPreflight : bool).

(** What an awaited external promise settles to. *)
Inductive Response (A : Type) : Type :=
  | Resolved (a : A)
  | Rejected (code : N).
Arguments Resolved {A} a.
Arguments Rejected {A} code.

(** The default of [params.slippage]: the double 0.01. *)
Definition defaultSlippage : JsNumber := 0x3F847AE147AE147B.

(** [raydium-config.ts] *)
Definition DEFAULT_CLUSTER : JsString.t := js "devnet".

(** ** Programs over the outside world *)

Section Programs.

(** The state of everything outside the program: chain, node, wallet. *)
Variable Outside : Type.

(** An external operation answers and may change the outside. *)
Definition External (A : Type) : Type := Outside -> Response A * Outside.

Record World : Type := {
  outside : Outside;
  calls : list Call;
}.

(** An [async] function: it may throw, it changes the world. *)
Definition M (A : Type) : Type := World -> result A * World.

Definition ret {A} (a : A) : M A := fun w => (Ok a, w).

Definition throw {A} (e : Error) : M A := fun w => (Throw e, w).

Definition bind {A B} (m : M A) (k : A -> M B) : M B :=
  fun w =>
    match m w with
    | (Ok a, w') => k a w'
    | (Throw e, w') => (Throw e, w')
    end.

Local Notation "x <- m ;; k" := (bind m (fun x => k))
  (at level 100, m at next level, right associativity).

(** [await op]: the call is logged; a rejection is thrown. *)
Definition perform {A} (c : Call) (op : External A) : M A :=
  fun w =>
    let (r, o) := op (outside w) in
    let w' := {| outside := o; calls := calls w ++ [c] |} in
    match r with
    | Resolved a => (Ok a, w')
    | Rejected code => (Throw (ExternalError code), w')
    end.

Definition ofResult {A} (r : result A) : M A :=
  match r with
  | Ok a => ret a
  | Throw e => throw e
  end.

(** The RPC connection.  The value [confirmTransaction] resolves to is
    dropped by the sources, so it is not represented. *)
Record Connection : Type := {
  rpcEndpoint : option JsString.t;
  _rpcEndpoint : option JsString.t;
  getAccountInfo : PublicKey -> External (option AccountInfo);
  getLatestBlockhash : External Blockhash;
  confirmTransaction : JsString.t -> Blockhash -> Commitment -> External unit;
}.

(** [WalletContextState]: the capabilities a wallet may lack are options. *)
Record Wallet : Type := {
  publicKey : option PublicKey;
  sendTransaction : option (Transaction -> Connection -> External JsString.t);
  signAllTransactions :
    option (list VersionedTransaction -> External (list VersionedTransaction));
  signTransaction : option (VersionedTransaction -> External VersionedTransaction);
}.

Definition SignAllV0 : Type :=
  list VersionedTransaction -> M (list VersionedTransaction).

(** [swapTx.execute] *)
Record SwapTx : Type := {
  execute : bool -> bool -> External JsString.t;
}.

Record Raydium : Type := {
  fetchWalletTokenAccounts : bool -> External unit;
  getPoolInfoFromRpc : JsString.t -> External RpcPoolData;
  fetchEpochInfo : External EpochInfo;
  clmmSwap : SwapParams -> External SwapTx;
}.

(** The argument of [Raydium.load]. *)
Record RaydiumLoadParams : Type := {
  loadConnection : Connection;
  loadOwner : PublicKey;
  loadCluster : SolanaCluster;
  disableLoadToken : bool;
  disableFeatureCheck : bool;
  loadSignAllTransactions : option SignAllV0;
}.

(** The libraries the module imports: constants and functions of
    [@raydium-io/raydium-sdk-v2], [@solana/spl-token] and [@solana/web3.js]. *)
Record Sdk : Type := {
  CLMM_PROGRAM_ID : PublicKey;
  DEVNET_CLMM_PROGRAM_ID : option PublicKey;
  PoolInfoLayout_span : option Z;
  TOKEN_PROGRAM_ID : PublicKey;
  ASSOCIATED_TOKEN_PROGRAM_ID : PublicKey;
  WSOL_MINT : PublicKey;
  (* [new PublicKey(s)]: [None] when it throws *)
  newPublicKey : JsString.t -> option PublicKey;
  toBase58 : PublicKey -> JsString.t;
  getAssociatedTokenAddressSync :
    PublicKey -> PublicKey -> bool -> PublicKey -> PublicKey -> PublicKey;
  raydiumLoad : RaydiumLoadParams -> External Raydium;
  computeAmountOut :
    ComputePoolInfo -> TickCache -> PublicKey -> BN.t -> JsNumber -> EpochInfo
    -> Computation;
}.

Record RaydiumContext : Type := {
  raydium : Raydium;
  ownerPubkey : PublicKey;
}.

Variable sdk : Sdk.

Definition CLMM_POOL_ACCOUNT_SIZE : Z :=
  match PoolInfoLayout_span sdk with
  | Some span => span
  | None => 1544%Z
  end.

(** [new PublicKey(s)] *)
Definition publicKeyOf (s : JsString.t) : M PublicKey :=
  match newPublicKey sdk s with
  | Some pubkey => ret pubkey
  | None => throw InvalidAddress
  end.

Fixpoint isPrefixOf (p s : JsString.t) : bool :=
  match p, s with
  | [], _ => true
  | _ :: _, [] => false
  | a :: p', b :: s' => (a =? b) && isPrefixOf p' s'
  end.

(** [s.includes(search)] *)
Fixpoint includes (search s : JsString.t) : bool :=
  isPrefixOf search s
  || match s with
     | [] => false
     | _ :: s' => includes search s'
     end.

Definition detectCluster (connection : Connection) : SolanaCluster :=
  let endpoint :=
    match rpcEndpoint connection with
    | Some e => e
    | None => match _rpcEndpoint connection with
              | Some e => e
              | None => []
              end
    end in
  if includes (js "devnet") endpoint then devnet
  else if includes (js "mainnet") endpoint || includes (js "solana.com") endpoint
       then mainnet
  else if decide (DEFAULT_CLUSTER = js "devnet") then devnet else mainnet.

Definition assertClmmPoolAccount (connection : Connection) (poolId : JsString.t)
  : M PublicKey :=
  pubkey <- publicKeyOf poolId ;;
  info <- perform (GetAccountInfo pubkey) (getAccountInfo connection pubkey) ;;
  match info with
  | None => throw PoolNotFound
  | Some info =>
      let isClmmProgram :=
        (owner info =? CLMM_PROGRAM_ID sdk)
        || match DEVNET_CLMM_PROGRAM_ID sdk with
           | Some devnetId => owner info =? devnetId
           | None => false
           end in
      if negb isClmmProgram then throw WrongProgramOwner
      else if (Z.of_nat (dataLength info) <? CLMM_POOL_ACCOUNT_SIZE)%Z
           then throw MalformedAccount
      else ret pubkey
  end.

(** The loop of the fallback signer: one [signTransaction] per transaction,
    in order, each awaited before the next. *)
Fixpoint signEach (signOne : VersionedTransaction -> M VersionedTransaction)
    (transactions signed : list VersionedTransaction)
  : M (list VersionedTransaction) :=
  match transactions with
  | [] => ret signed
  | tx :: rest =>
      signedTx <- signOne tx ;;
      signEach signOne rest (signed ++ [signedTx])
  end.

Definition resolveSignAllTransactions (wallet : Wallet) : result SignAllV0 :=
  match signAllTransactions wallet with
  | Some signAll =>
      Ok (fun transactions =>
            perform (SignAllTransactions transactions) (signAll transactions))
  | None =>
      match signTransaction wallet with
      | Some signOne =>
          Ok (fun transactions =>
                signEach (fun tx => perform (SignTransaction tx) (signOne tx))
                         transactions [])
      | None => Throw WalletCannotSign
      end
  end.

Definition createRaydiumContext (connection : Connection) (wallet : Wallet)
  : M RaydiumContext :=
  match publicKey wallet with
  | None => throw SessionWalletNotConnected
  | Some walletKey =>
      signAll <- ofResult (resolveSignAllTransactions wallet) ;;
      let cluster := detectCluster connection in
      raydium <- perform (RaydiumLoad walletKey cluster)
                   (raydiumLoad sdk
                      {| loadConnection := connection;
                         loadOwner := walletKey;
                         loadCluster := cluster;
                         disableLoadToken := true;
                         disableFeatureCheck := true;
                         loadSignAllTransactions := Some signAll |}) ;;
      ret {| raydium := raydium; ownerPubkey := walletKey |}
  end.

Definition associatedTokenAddress (owner mint : PublicKey) : PublicKey :=
  getAssociatedTokenAddressSync sdk mint owner false
    (TOKEN_PROGRAM_ID sdk) (ASSOCIATED_TOKEN_PROGRAM_ID sdk).

Definition createAtaTransaction (owner ata mint : PublicKey) : Transaction :=
  {| instructions :=
       [CreateAssociatedTokenAccount owner ata owner mint
          (TOKEN_PROGRAM_ID sdk) (ASSOCIATED_TOKEN_PROGRAM_ID sdk)];
     feePayer := Some owner |}.

Definition ensureAtaExists (connection : Connection) (wallet : Wallet)
    (owner mint : PublicKey) : M PublicKey :=
  let ata := associatedTokenAddress owner mint in
  info <- perform (GetAccountInfo ata) (getAccountInfo connection ata) ;;
  match info with
  | Some _ => ret ata
  | None =>
      match sendTransaction wallet with
      | None => throw AtaWalletCannotSend
      | Some send =>
          let tx := createAtaTransaction owner ata mint in
          signature <- perform (SendTransaction tx) (send tx connection) ;;
          latest <- perform GetLatestBlockhash (getLatestBlockhash connection) ;;
          _ <- perform (ConfirmTransaction signature Confirmed)
                 (confirmTransaction connection signature latest Confirmed) ;;
          ret ata
      end
  end.

(** The pool's mint with the given address: [mintA] first, then [mintB]. *)
Definition findMint (pool : PoolInfo) (mintAddress : JsString.t) : option MintInfo :=
  if decide (address (mintA pool) = mintAddress) then Some (mintA pool)
  else if decide (address (mintB pool) = mintAddress) then Some (mintB pool)
  else None.

Definition performClmmSwap (connection : Connection) (wallet : Wallet)
    (poolId tokenInMint tokenOutMint amount : JsString.t)
    (slippageParam : option JsNumber) : M ClmmSwapResult :=
  let amountInput := amount in
  let slippage := match slippageParam with
                  | Some sl => sl
                  | None => defaultSlippage
                  end in
  match publicKey wallet with
  | None => throw WalletNotConnected
  | Some _ =>
  match sendTransaction wallet with
  | None => throw WalletCannotSend
  | Some _ =>
  inputMint <- publicKeyOf tokenInMint ;;
  outputMint <- publicKeyOf tokenOutMint ;;
  poolPubkey <- assertClmmPoolAccount connection poolId ;;
  context <- createRaydiumContext connection wallet ;;
  let raydium := raydium context in
  let ownerPubkey := ownerPubkey context in
  _ <- ensureAtaExists connection wallet ownerPubkey inputMint ;;
  _ <- ensureAtaExists connection wallet ownerPubkey outputMint ;;
  _ <- perform FetchWalletTokenAccounts (fetchWalletTokenAccounts raydium true) ;;
  let poolIdStr := toBase58 sdk poolPubkey in
  snapshot <- perform (GetPoolInfoFromRpc poolIdStr)
                (getPoolInfoFromRpc raydium poolIdStr) ;;
  let poolInfo := poolInfo snapshot in
  let computeInfo := computePoolInfo snapshot in
  match findMint poolInfo (toBase58 sdk inputMint) with
  | None => throw TokenInNotInPool
  | Some inputMintInfo =>
  match findMint poolInfo (toBase58 sdk outputMint) with
  | None => throw TokenOutNotInPool
  | Some outputMintInfo =>
  amountIn <- ofResult (uiAmountToBN amountInput (decimals inputMintInfo)) ;;
  if nonPositive amountIn then throw NonPositiveAmount
  else
  let tickCache := match tickData snapshot with
                   | Some cache => cache poolIdStr
                   | None => None
                   end in
  match tickCache, computeInfo with
  | Some tickCache, Some computeInfo =>
      epochInfo <- perform FetchEpochInfo (fetchEpochInfo raydium) ;;
      let computation :=
        computeAmountOut sdk computeInfo tickCache inputMint amountIn slippage
          epochInfo in
      if negb (allTrade computation) then throw InsufficientLiquidity
      else
      observation <- publicKeyOf (observationId (poolKeys snapshot)) ;;
      let params :=
        {| swapPoolInfo := poolInfo;
           swapPoolKeys := poolKeys snapshot;
           swapInputMint := inputMint;
           swapAmountIn := amountIn;
           amountOutMin := minAmountOut computation;
           swapObservationId := observation;
           useSOLBalance := inputMint =? WSOL_MINT sdk;
           swapFeePayer := ownerPubkey;
           swapRemainingAccounts := remainingAccounts computation |} in
      swapTx <- perform (ClmmSwap params) (clmmSwap raydium params) ;;
      txId <- perform (Execute true false) (execute swapTx true false) ;;
      ret {| txId := txId;
             amountOut := minAmountOut computation;
             amountOutUi := formatTokenAmount (minAmountOut computation)
                              (decimals outputMintInfo);
             outputMint := outputMint;
             outputSymbol := symbol outputMintInfo |}
  | _, _ => throw PoolDataUnavailable
  end
  end
  end
  end
  end.

(** ** The snapshot effect of [useClmmSwap] *)

Definition isValidAddress (value : JsString.t) : bool :=
  match newPublicKey sdk value with
  | Some _ => true
  | None => false
  end.

(** One run of the effect: its own [cancelled] variable, whether its
    [fetchClmmPoolSnapshot] promise is still pending, and whether it
    returned a cleanup function. *)
Record EffectRun : Type := {
  runAddress : JsString.t;
  cancelled : bool;
  pending : bool;
  hasCleanup : bool;
}.

(** The state the effect writes, and every run of the effect so far, oldest
    first. *)
Record HookState : Type := {
  poolSnapshot : option ClmmPoolSnapshot;
  snapshotLoading : bool;
  snapshotError : option JsString.t;
  runs : list EffectRun;
}.

(** How the promise of [fetchClmmPoolSnapshot] settles. *)
Inductive Settlement : Type :=
  | Fulfilled (snapshot : ClmmPoolSnapshot)
  | RejectedWithError (message : JsString.t)
  | RejectedWithOther.

Inductive HookEvent : Type :=
  | DepsChange (poolAddress : JsString.t)  (* mount, or new [connection, poolAddress] *)
  | Settle (run : nat) (outcome : Settlement)
  | Unmount.

Definition initialHook : HookState :=
  {| poolSnapshot := None; snapshotLoading := false; snapshotError := None;
     runs := [] |}.

(** React runs the cleanup function of the latest run: [cancelled = true]. *)
Definition runCleanup (rs : list EffectRun) : list EffectRun :=
  match last rs with
  | Some r =>
      if hasCleanup r then
        <[ (length rs - 1)%nat :=
             {| runAddress := runAddress r; cancelled := true;
                pending := pending r; hasCleanup := false |} ]> rs
      else rs
  | None => rs
  end.

(** The body of the effect. *)
Definition runEffect (poolAddress : JsString.t) (st : HookState) : HookState :=
  if negb (isValidAddress poolAddress) then
    {| poolSnapshot := None;
       snapshotLoading := snapshotLoading st;
       snapshotError := Some (js "Enter a valid CLMM pool address.");
       runs := runs st ++ [{| runAddress := poolAddress; cancelled := false;
                              pending := false; hasCleanup := false |}] |}
  else
    {| poolSnapshot := poolSnapshot st;
       snapshotLoading := true;
       snapshotError := None;
       runs := runs st ++ [{| runAddress := poolAddress; cancelled := false;
                              pending := true; hasCleanup := true |}] |}.

(** The [then], [catch] and [finally] callbacks of one run. *)
Definition settle (r : EffectRun) (outcome : Settlement) (st : HookState)
  : HookState :=
  let st1 :=
    match outcome with
    | Fulfilled snapshot =>
        if cancelled r then st
        else {| poolSnapshot := Some snapshot;
                snapshotLoading := snapshotLoading st;
                snapshotError := snapshotError st;
                runs := runs st |}
    | RejectedWithError message =>
        if cancelled r then st
        else {| poolSnapshot := None;
                snapshotLoading := snapshotLoading st;
                snapshotError := Some message;
                runs := runs st |}
    | RejectedWithOther =>
        if cancelled r then st
        else {| poolSnapshot := None;
                snapshotLoading := snapshotLoading st;
                snapshotError := Some (js "Unable to load CLMM pool data.");
                runs := runs st |}
    end in
  if negb (cancelled r) then
    {| poolSnapshot := poolSnapshot st1;
       snapshotLoading := false;
       snapshotError := snapshotError st1;
       runs := runs st1 |}
  else st1.

Definition hookStep (st : HookState) (ev : HookEvent) : HookState :=
  match ev with
  | DepsChange poolAddress =>
      runEffect poolAddress
        {| poolSnapshot := poolSnapshot st;
           snapshotLoading := snapshotLoading st;
           snapshotError := snapshotError st;
           runs := runCleanup (runs st) |}
  | Settle i outcome =>
      match runs st !! i with
      | Some r =>
          if pending r then
            settle r outcome
              {| poolSnapshot := poolSnapshot st;
                 snapshotLoading := snapshotLoading st;
                 snapshotError := snapshotError st;
                 runs := <[ i := {| runAddress := runAddress r;
                                    cancelled := cancelled r;
                                    pending := false;
                                    hasCleanup := hasCleanup r |} ]> (runs st) |}
          else st
      | None => st
      end
  | Unmount =>
      {| poolSnapshot := poolSnapshot st;
         snapshotLoading := snapshotLoading st;
         snapshotError := snapshotError st;
         runs := runCleanup (runs st) |}
  end.

Definition hookRun (events : list HookEvent) : HookState :=
  fold_left hookStep events initialHook.

(** What the component shows. *)
Definition shared (st : HookState)
  : option ClmmPoolSnapshot * bool * option JsString.t :=
  (poolSnapshot st, snapshotLoading st, snapshotError st).

End Programs.

Arguments ret {Outside A} a.
Arguments throw {Outside A} e.
Arguments bind {Outside A B} m k.
Arguments perform {Outside A} c op.
Arguments ofResult {Outside A} r.
Arguments outside {Outside} w.
Arguments calls {Outside} w.
Arguments Build_World {Outside} outside calls.
Arguments rpcEndpoint {Outside} c.
Arguments _rpcEndpoint {Outside} c.
Arguments getAccountInfo {Outside} c pubkey.
Arguments getLatestBlockhash {Outside} c.
Arguments confirmTransaction {Outside} c signature blockhash commitment.
Arguments Build_Connection {Outside}.
Arguments publicKey {Outside} w.
Arguments sendTransaction {Outside} w.
Arguments signAllTransactions {Outside} w.
Arguments signTransaction {Outside} w.
Arguments Build_Wallet {Outside}.
Arguments execute {Outside} s.
Arguments Build_SwapTx {Outside}.
Arguments fetchWalletTokenAccounts {Outside} r.
Arguments getPoolInfoFromRpc {Outside} r.
Arguments fetchEpochInfo {Outside} r.
Arguments clmmSwap {Outside} r.
Arguments Build_Raydium {Outside}.
Arguments Build_RaydiumLoadParams {Outside}.
Arguments loadSignAllTransactions {Outside} r.
Arguments CLMM_PROGRAM_ID {Outside} s.
Arguments DEVNET_CLMM_PROGRAM_ID {Outside} s.
Arguments PoolInfoLayout_span {Outside} s.
Arguments TOKEN_PROGRAM_ID {Outside} s.
Arguments ASSOCIATED_TOKEN_PROGRAM_ID {Outside} s.
Arguments WSOL_MINT {Outside} s.
Arguments newPublicKey {Outside} s.
Arguments toBase58 {Outside} s.
Arguments getAssociatedTokenAddressSync {Outside} s.
Arguments raydiumLoad {Outside} s.
Arguments computeAmountOut {Outside} s.
Arguments Build_Sdk {Outside}.
Arguments raydium {Outside} r.
Arguments ownerPubkey {Outside} r.
Arguments CLMM_POOL_ACCOUNT_SIZE {Outside} sdk.
Arguments publicKeyOf {Outside} sdk s.
Arguments detectCluster {Outside} connection.
Arguments assertClmmPoolAccount {Outside} sdk connection poolId.
Arguments signEach {Outside} signOne transactions signed.
Arguments resolveSignAllTransactions {Outside} wallet.
Arguments createRaydiumContext {Outside} sdk connection wallet.
Arguments associatedTokenAddress {Outside} sdk owner mint.
Arguments createAtaTransaction {Outside} sdk owner ata mint.
Arguments ensureAtaExists {Outside} sdk connection wallet owner mint.
Arguments performClmmSwap {Outside} sdk connection wallet
  poolId tokenInMint tokenOutMint amount slippageParam.
Arguments isValidAddress {Outside} sdk value.
Arguments runEffect {Outside} sdk poolAddress st.
Arguments hookStep {Outside} sdk st ev.
Arguments hookRun {Outside} sdk events.

Notation "x <- m ;; k" := (bind m (fun x => k))
  (at level 100, m at next level, right associativity).

(** The number of transactions handed to [wallet.sendTransaction]. *)
Definition isSendTransaction (c : Call) : bool :=
  match c with
  | SendTransaction _ => true
  | _ => false
  end.

Definition submissions (cs : list Call) : nat :=
  length (List.filter isSendTransaction cs).

(** The identity the spec words call "appropriate to the current network
    variant": the devnet program on devnet, the mainnet program on mainnet. *)
Definition networkProgramId {Outside} (sdk : Sdk Outside) (cluster : SolanaCluster)
  : option PublicKey :=
  match cluster with
  | devnet => DEVNET_CLMM_PROGRAM_ID sdk
  | mainnet => Some (CLMM_PROGRAM_ID sdk)
  end.

(** Signing the transactions in turn with [signOne], each on the outside
    the previous one left: the signed transactions or the first rejection,
    the outside afterwards, and how many transactions the wallet was handed. *)
Fixpoint signInTurn {Outside}
    (signOne : VersionedTransaction -> External Outside VersionedTransaction)
    (transactions : list VersionedTransaction) (o : Outside)
  : Response (list VersionedTransaction) * Outside * nat :=
  match transactions with
  | [] => (Resolved [], o, 0%nat)
  | tx :: rest =>
      match signOne tx o with
      | (Resolved signedTx, o') =>
          let '(r, o'', k) := signInTurn signOne rest o' in
          (match r with
           | Resolved signed => Resolved (signedTx :: signed)
           | Rejected code => Rejected code
           end, o'', S k)
      | (Rejected code, o') => (Rejected code, o', 1%nat)
      end
  end.

(** [emits m Q]: from any world, [m] only appends calls to the log, and its
    outcome and the calls it appended satisfy [Q]. *)
Definition emits {Outside A} (m : M Outside A)
    (Q : result A -> list Call -> Prop) : Prop :=
  forall w, exists new,
    calls (snd (m w)) = calls w ++ new /\ Q (fst (m w)) new.

(** The errors the spec calls validation errors of the amount and of the
    two mints. *)
Definition validationError (e : Error) : bool :=
  match e with
  | TokenInNotInPool | TokenOutNotInPool | NonPositiveAmount => true
  | _ => false
  end.

(** The calls of the set-up phase of [performClmmSwap]: account lookups,
    SDK loading, creation of associated accounts, wallet account refresh. *)
Definition setupCall (c : Call) : bool :=
  match c with
  | GetAccountInfo _ | RaydiumLoad _ _ | SendTransaction _ | GetLatestBlockhash
  | ConfirmTransaction _ _ | FetchWalletTokenAccounts => true
  | _ => false
  end.

(** The calls of the swap itself: epoch fetch, building and executing the
    swap transaction. *)
Definition swapCall (c : Call) : bool :=
  match c with
  | FetchEpochInfo | ClmmSwap _ | Execute _ _ => true
  | _ => false
  end.

(** Outcomes of a step of the set-up phase: set-up calls only, and no
    validation error. *)
Definition quietly {A} (r : result A) (new : list Call) : Prop :=
  forallb setupCall new = true
  /\ forall e, r = Throw e -> validationError e = false.

(** Outcomes of what follows the pool fetch: a validation error comes
    before any further call. *)
Definition silently {A} (r : result A) (new : list Call) : Prop :=
  forall e, r = Throw e -> validationError e = true -> new = [].

(** Outcomes of what follows the pool account check: a validation error
    comes right after the pool fetch, which set-up calls only precede. *)
Definition lately {A} (poolIdStr : JsString.t) (r : result A) (new : list Call)
  : Prop :=
  forall e, r = Throw e -> validationError e = true ->
    exists rest, new = rest ++ [GetPoolInfoFromRpc poolIdStr]
                 /\ forallb setupCall rest = true.

Definition noValidationError {A} (r : result A) (new : list Call) : Prop :=
  forall e, r = Throw e -> validationError e = false.

(** Two properties of a well-behaved network, for one associated account:
    looking the account up does not make it disappear, and once the
    creation transaction is sent and its confirmation awaited, the account
    is there. *)
Definition lookupStable {Outside} (connection : Connection Outside)
    (ata : PublicKey) : Prop :=
  forall o info o',
    getAccountInfo connection ata o = (Resolved (Some info), o') ->
    exists info', fst (getAccountInfo connection ata o') = Resolved (Some info').

Definition confirmedCreationVisible {Outside} (sdk : Sdk Outside)
    (connection : Connection Outside) (wallet : Wallet Outside)
    (owner mint : PublicKey) : Prop :=
  let ata := associatedTokenAddress sdk owner mint in
  forall send o o0 signature o1 latest o2 u o3,
    sendTransaction wallet = Some send ->
    getAccountInfo connection ata o = (Resolved None, o0) ->
    send (createAtaTransaction sdk owner ata mint) connection o0
    = (Resolved signature, o1) ->
    getLatestBlockhash connection o1 = (Resolved latest, o2) ->
    confirmTransaction connection signature latest Confirmed o2 = (Resolved u, o3) ->
    exists info, fst (getAccountInfo connection ata o3) = Resolved (Some info).

(** ** A reference network

    A chain that is just its accounts, a node that answers from it, a
    wallet whose [sendTransaction] executes the transaction at once, keys
    written in decimal.  It gives the concrete runs of the theorems. *)

Module Reference.

Abbreviation Chain := (gmap PublicKey AccountInfo).

Definition applyInstruction (tokenProgram : PublicKey) (chain : Chain)
    (i : Instruction) : Chain :=
  match i with
  | CreateAssociatedTokenAccount _ ata _ _ _ _ =>
      match chain !! ata with
      | Some _ => chain
      | None => <[ ata := {| owner := tokenProgram; dataLength := 165 |} ]> chain
      end
  end.

Definition connection (endpoint : string) : Connection Chain :=
  {| rpcEndpoint := Some (js endpoint);
     _rpcEndpoint := None;
     getAccountInfo := fun pubkey chain => (Resolved (chain !! pubkey), chain);
     getLatestBlockhash := fun chain => (Resolved 7, chain);
     confirmTransaction := fun _ _ _ chain => (Resolved tt, chain) |}.

Definition wallet : Wallet Chain :=
  {| publicKey := Some 10;
     sendTransaction :=
       Some (fun tx _ chain =>
               (Resolved (js "signature"),
                fold_left (applyInstruction 3) (instructions tx) chain));
     signAllTransactions := Some (fun txs chain => (Resolved txs, chain));
     signTransaction := Some (fun tx chain => (Resolved tx, chain)) |}.

(** A wallet that can only sign one transaction at a time. *)
Definition signOnlyWallet : Wallet Chain :=
  {| publicKey := Some 10;
     sendTransaction := None;
     signAllTransactions := None;
     signTransaction := Some (fun tx chain => (Resolved (tx + 1000), chain)) |}.

(** A pool of the mints 20 and 21 with 9 and 6 decimals. *)
Definition pool : RpcPoolData :=
  {| poolInfo :=
       {| mintA := {| address := js "20"; symbol := None; decimals := 9 |};
          mintB := {| address := js "21"; symbol := None; decimals := 6 |};
          price := 0 |};
     poolKeys := {| observationId := js "30" |};
     computePoolInfo := Some {| tickCurrent := 0 |};
     tickData := Some (fun _ => Some 0) |}.

Definition raydiumObject : Raydium Chain :=
  {| fetchWalletTokenAccounts := fun _ chain => (Resolved tt, chain);
     getPoolInfoFromRpc := fun _ chain => (Resolved pool, chain);
     fetchEpochInfo := fun chain => (Resolved 0, chain);
     clmmSwap := fun _ chain =>
       (Resolved {| execute := fun _ _ chain => (Resolved (js "swap"), chain) |},
        chain) |}.

Definition sdk : Sdk Chain :=
  {| CLMM_PROGRAM_ID := 1;
     DEVNET_CLMM_PROGRAM_ID := Some 2;
     PoolInfoLayout_span := Some 1544%Z;
     TOKEN_PROGRAM_ID := 3;
     ASSOCIATED_TOKEN_PROGRAM_ID := 4;
     WSOL_MINT := 20;
     newPublicKey := fun s =>
       match s with
       | [] => None
       | _ => if forallb isDigit s then Some (BN.digitsValue s) else None
       end;
     toBase58 := BN.digits;
     getAssociatedTokenAddressSync := fun mint owner _ _ _ => 1000 * owner + mint;
     raydiumLoad := fun _ chain => (Resolved raydiumObject, chain);
     computeAmountOut := fun _ _ _ amountIn _ _ =>
       {| allTrade := true;
          minAmountOut := match amountIn with
                          | BN.Number z => z
                          | BN.NoWords _ => 0%Z
                          end;
          remainingAccounts := [] |} |}.

(** A chain with one CLMM pool account, number 50, owned by the mainnet
    program. *)
Definition chain : Chain :=
  {[ 50 := {| owner := 1; dataLength := 1544 |} ]}.

Definition world : World Chain := {| outside := chain; calls := [] |}.

End Reference.

(** ** Auxiliary notions of the proofs *)

(** The digits that [uiAmountToBN] assembles from a whole and a fractional
    part. *)
Definition assembled (whole fraction : JsString.t) (decimals : nat) : JsString.t :=
  orElse (stripLeadingZeros
            (orElse (stripZerosBeforeDigit whole) (js "0")
               ++ padEnd decimals char0 (substring0 decimals fraction)))
         (js "0").

(** [canonical s]: a non-empty digit string, ["0"] or without leading zero. *)
Definition canonical (s : JsString.t) : Prop :=
  forallb isDigit s = true
  /\ (s = js "0" \/ exists c r, s = c :: r /\ c <> char0).

(** No decimal point in the text. *)
Definition noDot (s : JsString.t) : bool :=
  forallb (fun c => negb (c =? dot)) s.

Definition notMinus (c : N) : bool := negb (c =? minus).

(** [s.trimEnd()] *)
Definition trimEnd (s : JsString.t) : JsString.t :=
  reverse (dropWhile isWhiteSpace (reverse s)).

(** What a validation error of [performClmmSwap] comes after. *)
Definition afterPoolFetch {Outside} (sdk : Sdk Outside) (poolId : JsString.t)
    {A} (r : result A) (new : list Call) : Prop :=
  forall e, r = Throw e -> validationError e = true ->
    exists pubkey rest,
      newPublicKey sdk poolId = Some pubkey
      /\ new = GetAccountInfo pubkey :: rest
                 ++ [GetPoolInfoFromRpc (toBase58 sdk pubkey)]
      /\ forallb setupCall rest = true.

(** Every run whose fetch is pending is cancelled, unless it is the
    latest run, whose cleanup React still holds. *)
Definition runsInvariant (rs : list EffectRun) : Prop :=
  forall i r, rs !! i = Some r -> pending r = true ->
    cancelled r = true \/ (hasCleanup r = true /\ S i = length rs).

(** Every amount handed to [raydium.clmm.swap] in these calls is the
    conversion of [amount] and has passed the guard. *)
Definition guardedSwaps (amount : JsString.t) (new : list Call) : Prop :=
  forall params, ClmmSwap params ∈ new ->
    nonPositive (swapAmountIn params) = false
    /\ exists decimals, uiAmountToBN amount decimals = Ok (swapAmountIn params).

(** [r'] is [r], or [r] after the late settlement of its cancelled fetch. *)
Definition settledLate (r r' : EffectRun) : Prop :=
  r' = r
  \/ (cancelled r = true
      /\ r' = {| runAddress := runAddress r; cancelled := true;
                 pending := false; hasCleanup := hasCleanup r |}).

(** Two states of the hook that show the same and whose runs differ only by
    late settlements of cancelled fetches. *)
Definition sameDisplay (st st' : HookState) : Prop :=
  shared st = shared st' /\ Forall2 settledLate (runs st) (runs st').

(** The characters of an amount field: digits, decimal points and white
    space. *)
Definition amountChar (c : N) : bool :=
  isDigit c || (c =? dot) || isWhiteSpace c.

(** A decimal text: a whole part in digits, without a leading zero unless it
    is ["0"], alone or followed by a point and a non-empty fractional part
    in digits that does not end in a zero. *)
Definition decimalText (s : JsString.t) (decimals : nat) : Prop :=
  exists whole frac,
    canonical whole
    /\ forallb isDigit frac = true
    /\ (length frac <= decimals)%nat
    /\ last frac <> Some char0
    /\ s = whole ++ match frac with
                    | [] => []
                    | _ => dot :: frac
                    end.

Definition digitOrSpace (c : N) : bool := isDigit c || isWhiteSpace c.

(** The text of the endpoint that [detectCluster] inspects:
    [rpcEndpoint ?? _rpcEndpoint ?? ""]. *)
Definition endpointOf {Outside} (connection : Connection Outside) : JsString.t :=
  match rpcEndpoint connection with
  | Some e => e
  | None => match _rpcEndpoint connection with
            | Some e => e
            | None => []
            end
  end.

(** [search] occurs in [s]. *)
Definition occursIn (search s : JsString.t) : Prop :=
  exists pre post, s = pre ++ search ++ post.

(** Outcomes whose calls all satisfy [allowed]. *)
Definition callsAll {A} (allowed : Call -> bool) (r : result A) (new : list Call)
  : Prop :=
  forallb allowed new = true.

(** Outcomes that throw none of the errors in [bad]. *)
Definition throwsNone {A} (bad : Error -> bool) (r : result A) (new : list Call)
  : Prop :=
  forall e, r = Throw e -> bad e = false.

Definition isExternalError (e : Error) : bool :=
  match e with
  | ExternalError _ => true
  | _ => false
  end.

(** Building or executing the swap transaction. *)
Definition swapBuildCall (c : Call) : bool :=
  match c with
  | ClmmSwap _ | Execute _ _ => true
  | _ => false
  end.

(** The errors of the helpers that [performClmmSwap] has already excluded
    by its own wallet checks. *)
Definition unreachableInSwap (e : Error) : bool :=
  match e with
  | SessionWalletNotConnected | AtaWalletCannotSend => true
  | _ => false
  end.

Definition notSwapBuild (c : Call) : bool := negb (swapBuildCall c).

Definition notSend (c : Call) : bool := negb (isSendTransaction c).

(** Outcomes in which the swap transaction is built and executed last:
    a success ends with the two calls, a failure of the function's own
    comes before them, and a rejection may come before, between or after
    them. *)
Definition swapAtEnd {A} (r : result A) (new : list Call) : Prop :=
  match r with
  | Ok _ =>
      exists pre params,
        new = pre ++ [ClmmSwap params; Execute true false]
        /\ forallb notSwapBuild pre = true
  | Throw (ExternalError _) =>
      forallb notSwapBuild new = true
      \/ exists pre params,
           forallb notSwapBuild pre = true
           /\ (new = pre ++ [ClmmSwap params]
               \/ new = pre ++ [ClmmSwap params; Execute true false])
  | Throw _ => forallb notSwapBuild new = true
  end.

(** A call that, if it hands a transaction to the wallet, hands it the
    creation of the associated account of [walletKey] for one of the two
    mints. *)
Definition ataCreationFor {Outside} (sdk : Sdk Outside)
    (tokenInMint tokenOutMint : JsString.t) (walletKey : PublicKey) (c : Call)
  : Prop :=
  forall tx, c = SendTransaction tx ->
    exists mint,
      (newPublicKey sdk tokenInMint = Some mint
       \/ newPublicKey sdk tokenOutMint = Some mint)
      /\ tx = createAtaTransaction sdk walletKey
                (associatedTokenAddress sdk walletKey mint) mint.

(** The same for the key of the wallet. *)
Definition ataCreation {Outside} (sdk : Sdk Outside) (wallet : Wallet Outside)
    (tokenInMint tokenOutMint : JsString.t) (c : Call) : Prop :=
  exists walletKey,
    publicKey wallet = Some walletKey
    /\ ataCreationFor sdk tokenInMint tokenOutMint walletKey c.

Definition sendsAtMost {A} (n : nat) (P : Call -> Prop) (r : result A)
    (new : list Call) : Prop :=
  (submissions new <= n)%nat /\ Forall P new.

(** What a returned swap has done after the pool account check, and what
    it returns: set-up calls, then the pool fetch, the epoch fetch, the
    swap built from [params] and its execution. *)
Definition swapCompleted {Outside} (sdk : Sdk Outside) (amount : JsString.t)
    (poolPubkey walletKey inputMint outMint : PublicKey)
    (res : ClmmSwapResult) (new : list Call) : Prop :=
  exists setup params inputMintInfo outputMintInfo,
    new = setup ++ [GetPoolInfoFromRpc (toBase58 sdk poolPubkey); FetchEpochInfo;
                    ClmmSwap params; Execute true false]
    /\ forallb setupCall setup = true
    /\ swapInputMint params = inputMint
    /\ swapFeePayer params = walletKey
    /\ useSOLBalance params = (inputMint =? WSOL_MINT sdk)
    /\ newPublicKey sdk (observationId (swapPoolKeys params))
       = Some (swapObservationId params)
    /\ findMint (swapPoolInfo params) (toBase58 sdk inputMint) = Some inputMintInfo
    /\ uiAmountToBN amount (decimals inputMintInfo) = Ok (swapAmountIn params)
    /\ nonPositive (swapAmountIn params) = false
    /\ findMint (swapPoolInfo params) (toBase58 sdk outMint) = Some outputMintInfo
    /\ outputMint res = outMint
    /\ amountOut res = amountOutMin params
    /\ amountOutUi res
       = formatTokenAmount (amountOutMin params) (decimals outputMintInfo)
    /\ outputSymbol res = symbol outputMintInfo
    /\ ((0 <= amountOutMin params)%Z ->
        uiAmountToBN (amountOutUi res) (decimals outputMintInfo)
        = Ok (amountOut res)).

(** ** [fetchClmmPoolSnapshot]

    The body of the [try] block is a program of its own; the [catch]
    clause decides what the promise rejects with.  [Keypair.generate()]
    draws its key from the outside world and is no call to the network;
    whether a rejection of the network or of the SDK is an instance of
    [Error] is not decided by this module ([isErrorInstance]).  The
    [console.error] of the [catch] clause writes to the console only. *)

(** What [fetchClmmPoolSnapshot] rejects with. *)
Inductive SnapshotFailure : Type :=
  | Caught (e : Error)      (* the error that was caught, rethrown *)
  | FailedToLoadPoolData.   (* [new Error("Failed to load CLMM pool data.")] *)

Definition generateKeypair {Outside} (generate : Outside -> PublicKey * Outside)
  : M Outside PublicKey :=
  fun w =>
    let (key, o) := generate (outside w) in
    (Ok key, {| outside := o; calls := calls w |}).

Definition loadClmmPoolSnapshot {Outside} (sdk : Sdk Outside)
    (generate : Outside -> PublicKey * Outside)
    (connection : Connection Outside) (poolId : JsString.t)
  : M Outside ClmmPoolSnapshot :=
  poolPubkey <- assertClmmPoolAccount sdk connection poolId ;;
  owner <- generateKeypair generate ;;
  let cluster := detectCluster connection in
  raydium <- perform (RaydiumLoad owner cluster)
               (raydiumLoad sdk
                  {| loadConnection := connection;
                     loadOwner := owner;
                     loadCluster := cluster;
                     disableLoadToken := true;
                     disableFeatureCheck := true;
                     loadSignAllTransactions := None |}) ;;
  snapshot <- perform (GetPoolInfoFromRpc (toBase58 sdk poolPubkey))
                (getPoolInfoFromRpc raydium (toBase58 sdk poolPubkey)) ;;
  ret {| snapshotId := toBase58 sdk poolPubkey;
         snapshotMintA :=
           {| address := address (mintA (poolInfo snapshot));
              symbol := symbol (mintA (poolInfo snapshot));
              decimals := decimals (mintA (poolInfo snapshot)) |};
         snapshotMintB :=
           {| address := address (mintB (poolInfo snapshot));
              symbol := symbol (mintB (poolInfo snapshot));
              decimals := decimals (mintB (poolInfo snapshot)) |};
         snapshotPrice := price (poolInfo snapshot);
         snapshotTickCurrent :=
           match computePoolInfo snapshot with
           | Some computeInfo => tickCurrent computeInfo
           | None => 0
           end |}.

(** [error instanceof Error ? error : new Error(...)] *)
Definition rethrown (isErrorInstance : N -> bool) (e : Error) : SnapshotFailure :=
  match e with
  | ExternalError code =>
      if isErrorInstance code then Caught e else FailedToLoadPoolData
  | _ => Caught e
  end.

Definition fetchClmmPoolSnapshot {Outside} (sdk : Sdk Outside)
    (generate : Outside -> PublicKey * Outside) (isErrorInstance : N -> bool)
    (connection : Connection Outside) (poolId : JsString.t)
  : World Outside -> (SnapshotFailure + ClmmPoolSnapshot) * World Outside :=
  fun w =>
    let (r, w') := loadClmmPoolSnapshot sdk generate connection poolId w in
    (match r with
     | Ok snapshot => inr snapshot
     | Throw e => inl (rethrown isErrorInstance e)
     end, w').


(** A run whose fetch is in flight and whose result would be applied. *)
Definition live (r : EffectRun) : bool := pending r && negb (cancelled r).

Definition noLiveRun (rs : list EffectRun) : Prop :=
  forall i r, rs !! i = Some r -> live r = false.

(** The events that start no fetch: settlements, the unmount, and changes
    to an address that is not valid. *)
Definition startsNoFetch {Outside} (sdk : Sdk Outside) (ev : HookEvent) : bool :=
  match ev with
  | DepsChange poolAddress => negb (isValidAddress sdk poolAddress)
  | _ => true
  end.

(** Every fetch was started for a valid address, and while one is live the
    loading flag is set. *)
Definition fetchesInvariant {Outside} (sdk : Sdk Outside) (st : HookState)
  : Prop :=
  forall i r, runs st !! i = Some r -> pending r = true ->
    isValidAddress sdk (runAddress r) = true
    /\ (cancelled r = false -> snapshotLoading st = true).

(** ** [home.tsx]: how an address is shown *)




(* ================================================================== *)
(** * Theorems *)

(** ** Characters *)

Lemma isDigit_bounds c : isDigit c = true <-> 48 <= c <= 57.
Proof. unfold isDigit. rewrite andb_true_iff, !N.leb_le. tauto. Qed.

Lemma isDigit_not_ws c : isDigit c = true -> isWhiteSpace c = false.
Proof.
  intros H%isDigit_bounds. unfold isWhiteSpace.
  repeat match goal with
  | |- context [?a <=? ?b] => destruct (N.leb_spec a b)
  | |- context [?a =? ?b] => destruct (N.eqb_spec a b)
  end; simpl; try reflexivity; lia.
Qed.

Lemma isDigit_not_dot c : isDigit c = true -> (c =? dot) = false.
Proof. intros H%isDigit_bounds. apply N.eqb_neq. unfold dot. lia. Qed.

Lemma isDigit_not_minus c : isDigit c = true -> (c =? minus) = false.
Proof. intros H%isDigit_bounds. apply N.eqb_neq. unfold minus. lia. Qed.

Lemma isZeroChar_digit c : isZeroChar c = true -> isDigit c = true.
Proof. unfold isZeroChar. intros ->%N.eqb_eq. reflexivity. Qed.

Lemma isZeroChar_eq c : isZeroChar c = true <-> c = char0.
Proof. apply N.eqb_eq. Qed.

(** ** [dropWhile] and the functions built on it *)

Lemma dropWhile_split p s :
  exists pre, s = pre ++ dropWhile p s /\ forallb p pre = true.
Proof.
  induction s as [|c s [pre [E F]]]; simpl.
  - exists []. auto.
  - destruct (p c) eqn:Hc.
    + exists (c :: pre). simpl. rewrite Hc, F. split; [congruence | reflexivity].
    + exists []. auto.
Qed.

Lemma forallb_isZeroChar_replicate s :
  forallb isZeroChar s = true -> s = replicate (length s) char0.
Proof.
  induction s as [|c s IH]; simpl; [reflexivity|].
  intros [Hc Hs]%andb_true_iff. apply isZeroChar_eq in Hc. subst c.
  f_equal. auto.
Qed.

Lemma stripLeadingZeros_split s :
  s = replicate (length s - length (stripLeadingZeros s)) char0
        ++ stripLeadingZeros s.
Proof.
  unfold stripLeadingZeros.
  destruct (dropWhile_split isZeroChar s) as [pre [E F]].
  rewrite E at 1 2. rewrite length_app.
  replace (length pre + _ - _)%nat with (length pre) by lia.
  f_equal. apply forallb_isZeroChar_replicate, F.
Qed.

Lemma dropWhile_head_false p s :
  (forall c, head s = Some c -> p c = false) -> dropWhile p s = s.
Proof.
  destruct s as [|c s]; simpl; [reflexivity|].
  intros H. rewrite (H c eq_refl). reflexivity.
Qed.

Lemma dropWhile_head p s c : head (dropWhile p s) = Some c -> p c = false.
Proof.
  induction s as [|a s IH]; simpl; [discriminate|].
  destruct (p a) eqn:Ha; [exact IH|]. simpl. congruence.
Qed.

Lemma dropWhile_elem p s c : c ∈ dropWhile p s -> c ∈ s.
Proof.
  induction s as [|a s IH]; simpl; [auto|].
  destruct (p a); [|auto]. intros H. right. auto.
Qed.

Lemma trim_id s :
  (forall c, head s = Some c -> isWhiteSpace c = false) ->
  (forall c, last s = Some c -> isWhiteSpace c = false) ->
  trim s = s.
Proof.
  intros Hh Hl. unfold trim.
  rewrite (dropWhile_head_false _ s Hh).
  rewrite dropWhile_head_false, reverse_involutive; [reflexivity|].
  intros c. rewrite head_reverse. apply Hl.
Qed.

Lemma stripTrailingZeros_split s :
  s = stripTrailingZeros s
        ++ replicate (length s - length (stripTrailingZeros s)) char0.
Proof.
  unfold stripTrailingZeros.
  pose proof (stripLeadingZeros_split (reverse s)) as E.
  unfold stripLeadingZeros in E.
  apply (f_equal reverse) in E. rewrite reverse_involutive in E.
  rewrite reverse_app, reverse_replicate in E.
  rewrite !length_reverse in *. exact E.
Qed.

Lemma stripTrailingZeros_last s c :
  last (stripTrailingZeros s) = Some c -> c <> char0.
Proof.
  unfold stripTrailingZeros. rewrite <- head_reverse, reverse_involutive.
  intros H%dropWhile_head. apply N.eqb_neq, H.
Qed.

Lemma stripTrailingZeros_length s :
  (length (stripTrailingZeros s) <= length s)%nat.
Proof.
  pose proof (stripTrailingZeros_split s) as E.
  apply (f_equal length) in E. rewrite length_app in E. lia.
Qed.

(** ** [split] *)

Lemma split_nonempty sep s : split sep s <> [].
Proof.
  destruct s as [|c s]; simpl; [discriminate|].
  destruct (c =? sep); [discriminate|].
  destruct (split sep s); discriminate.
Qed.

Lemma split_no_sep sep s :
  forallb (fun c => negb (c =? sep)) s = true -> split sep s = [s].
Proof.
  induction s as [|c s IH]; simpl; [reflexivity|].
  intros [Hc Hs]%andb_true_iff. apply negb_true_iff in Hc.
  rewrite Hc, (IH Hs). reflexivity.
Qed.

Lemma split_app_sep sep w r :
  forallb (fun c => negb (c =? sep)) w = true ->
  split sep (w ++ sep :: r) = w :: split sep r.
Proof.
  induction w as [|c w IH]; simpl.
  - intros _. rewrite N.eqb_refl. reflexivity.
  - intros [Hc Hs]%andb_true_iff. apply negb_true_iff in Hc.
    rewrite Hc, (IH Hs). reflexivity.
Qed.

Lemma digits_no_dot s :
  forallb isDigit s = true -> forallb (fun c => negb (c =? dot)) s = true.
Proof.
  induction s as [|c s IH]; simpl; [reflexivity|].
  intros [Hc Hs]%andb_true_iff.
  rewrite (isDigit_not_dot c Hc), (IH Hs). reflexivity.
Qed.

(** ** The value of a digit string *)

Lemma fold_digits_linear s r :
  fold_left (fun r c => r * 10 + (c - 48)) s r
  = r * 10 ^ N.of_nat (length s) + BN.digitsValue s.
Proof.
  unfold BN.digitsValue. revert r.
  induction s as [|c s IH]; intros r.
  - simpl. lia.
  - cbn [fold_left length]. rewrite IH, (IH (0 * 10 + _)).
    rewrite Nat2N.inj_succ, N.pow_succ_r'. lia.
Qed.

Lemma digitsValue_app a b :
  BN.digitsValue (a ++ b)
  = BN.digitsValue a * 10 ^ N.of_nat (length b) + BN.digitsValue b.
Proof.
  unfold BN.digitsValue at 1. rewrite fold_left_app.
  fold (BN.digitsValue a). apply fold_digits_linear.
Qed.

Lemma digitsValue_zeros k : BN.digitsValue (replicate k char0) = 0.
Proof.
  induction k as [|k IH]; [reflexivity|].
  change (replicate (S k) char0) with ([char0] ++ replicate k char0).
  rewrite digitsValue_app, IH. reflexivity.
Qed.

Lemma digitsValue_zeros_app k s :
  BN.digitsValue (replicate k char0 ++ s) = BN.digitsValue s.
Proof. rewrite digitsValue_app, digitsValue_zeros. lia. Qed.

Lemma digitsValue_app_zeros s k :
  BN.digitsValue (s ++ replicate k char0)
  = BN.digitsValue s * 10 ^ N.of_nat k.
Proof. rewrite digitsValue_app, digitsValue_zeros, length_replicate. lia. Qed.

Lemma digitsValue_stripLeadingZeros s :
  BN.digitsValue (stripLeadingZeros s) = BN.digitsValue s.
Proof.
  rewrite (stripLeadingZeros_split s) at 2.
  rewrite digitsValue_zeros_app. reflexivity.
Qed.

Lemma digitsValue_orElse s : BN.digitsValue (orElse s (js "0")) = BN.digitsValue s.
Proof. destruct s; reflexivity. Qed.

Lemma digitsValue_bound s :
  forallb isDigit s = true -> BN.digitsValue s < 10 ^ N.of_nat (length s).
Proof.
  induction s as [|c s IH] using rev_ind; intros H.
  - reflexivity.
  - rewrite forallb_app in H. apply andb_true_iff in H as [Hs Hc].
    simpl in Hc. rewrite andb_true_r in Hc. apply isDigit_bounds in Hc.
    specialize (IH Hs).
    rewrite digitsValue_app, length_app, Nat.add_1_r, Nat2N.inj_succ,
      N.pow_succ_r'.
    unfold BN.digitsValue at 2. cbn [length fold_left].
    change (10 ^ N.of_nat 1) with 10. lia.
Qed.

(** ** [BN.digits] *)

Lemma digitsAux_acc fuel n acc :
  BN.digitsAux fuel n acc = BN.digitsAux fuel n [] ++ acc.
Proof.
  revert n acc. induction fuel as [|fuel IH]; intros n acc; [reflexivity|].
  cbn [BN.digitsAux]. destruct (n <? 10); [reflexivity|].
  rewrite IH, (IH _ [_]), <- app_assoc. reflexivity.
Qed.

Lemma digitsAux_step fuel n :
  BN.digitsAux (S fuel) n []
  = if n <? 10 then [48 + n] else BN.digitsAux fuel (n / 10) [] ++ [48 + n mod 10].
Proof.
  cbn [BN.digitsAux]. destruct (N.ltb_spec n 10).
  - rewrite N.mod_small by assumption. reflexivity.
  - apply digitsAux_acc.
Qed.

Lemma digitsAux_value fuel n :
  n < 2 ^ N.of_nat fuel -> BN.digitsValue (BN.digitsAux (S fuel) n []) = n.
Proof.
  revert n. induction fuel as [|fuel IH]; intros n Hn; rewrite digitsAux_step.
  - change (n < 1) in Hn. destruct (N.ltb_spec n 10); [|lia].
    unfold BN.digitsValue. cbn [fold_left]. lia.
  - destruct (N.ltb_spec n 10).
    + unfold BN.digitsValue. cbn [fold_left]. lia.
    + rewrite digitsValue_app, IH.
      * unfold BN.digitsValue. cbn [fold_left length]. change (10 ^ N.of_nat 1) with 10.
        pose proof (N.div_mod n 10) as E.
        pose proof (N.mod_upper_bound n 10) as B. clear Hn IH.
        generalize dependent (n / 10). generalize dependent (n mod 10).
        intros. lia.
      * rewrite Nat2N.inj_succ, N.pow_succ_r' in Hn.
        apply N.Div0.div_lt_upper_bound. lia.
Qed.

Lemma digitsAux_isDigit fuel n :
  forallb isDigit (BN.digitsAux fuel n []) = true.
Proof.
  revert n. induction fuel as [|fuel IH]; intros n; [reflexivity|].
  assert (D : isDigit (48 + n mod 10) = true).
  { apply isDigit_bounds. pose proof (N.mod_upper_bound n 10) as B.
    generalize dependent (n mod 10). intros. lia. }
  rewrite digitsAux_step. destruct (N.ltb_spec n 10).
  - rewrite N.mod_small in D by assumption. simpl. rewrite D. reflexivity.
  - rewrite forallb_app, IH. simpl. rewrite D. reflexivity.
Qed.

Lemma digits_value n : BN.digitsValue (BN.digits n) = n.
Proof.
  unfold BN.digits. apply digitsAux_value.
  rewrite N2Nat.id. apply N.size_gt.
Qed.

Lemma digits_isDigit n : forallb isDigit (BN.digits n) = true.
Proof. apply digitsAux_isDigit. Qed.

Lemma digits_nonempty n : BN.digits n <> [].
Proof.
  unfold BN.digits. rewrite digitsAux_step.
  destruct (n <? 10); [discriminate|].
  intros H. apply app_eq_nil in H as [_ H]. discriminate.
Qed.

(** ** Digit strings through [uiAmountToBN] *)

Lemma forallb_elem (p : N -> bool) s c :
  forallb p s = true -> c ∈ s -> p c = true.
Proof.
  intros H Hc. rewrite forallb_forall in H. apply H, list_elem_of_In, Hc.
Qed.

Lemma forallb_replicate_zero k : forallb isDigit (replicate k char0) = true.
Proof. induction k; simpl; auto. Qed.

Lemma forallb_dropWhile (q p : N -> bool) s :
  forallb q s = true -> forallb q (dropWhile p s) = true.
Proof.
  induction s as [|c s IH]; simpl; [auto|].
  intros H. destruct (p c); [|exact H].
  apply andb_true_iff in H as [_ H]. auto.
Qed.

Lemma forallb_take (q : N -> bool) n s :
  forallb q s = true -> forallb q (take n s) = true.
Proof.
  intros H. rewrite <- (take_drop n s), forallb_app in H.
  apply andb_true_iff in H as [H _]. exact H.
Qed.

Lemma forallb_drop (q : N -> bool) n s :
  forallb q s = true -> forallb q (drop n s) = true.
Proof.
  intros H. rewrite <- (take_drop n s), forallb_app in H.
  apply andb_true_iff in H as [_ H]. exact H.
Qed.

(** The shape of [s.replace(/^0+(?=\d)/, "")]: some leading zeros go. *)
Lemma stripZerosBeforeDigit_shape s :
  exists j, stripZerosBeforeDigit s = replicate j char0 ++ stripLeadingZeros s.
Proof.
  unfold stripZerosBeforeDigit, stripLeadingZeros.
  destruct s as [|c s]; [exists 0%nat; reflexivity|].
  destruct (isZeroChar c) eqn:Hc.
  - destruct (dropWhile isZeroChar (c :: s)) as [|c' rest].
    + exists 1%nat. reflexivity.
    + destruct (isDigit c'); [exists 0%nat | exists 1%nat]; reflexivity.
  - exists 0%nat. simpl. rewrite Hc. reflexivity.
Qed.

Lemma stripZerosBeforeDigit_nonempty s : s <> [] -> stripZerosBeforeDigit s <> [].
Proof.
  unfold stripZerosBeforeDigit. destruct s as [|c s]; [congruence|]. intros _.
  destruct (isZeroChar c); [|discriminate].
  destruct (dropWhile isZeroChar (c :: s)) as [|c' rest]; [discriminate|].
  destruct (isDigit c'); discriminate.
Qed.

Lemma wholeDigits_value w :
  BN.digitsValue (orElse (stripZerosBeforeDigit w) (js "0")) = BN.digitsValue w.
Proof.
  rewrite digitsValue_orElse.
  destruct (stripZerosBeforeDigit_shape w) as [j ->].
  rewrite digitsValue_zeros_app. apply digitsValue_stripLeadingZeros.
Qed.

Lemma wholeDigits_isDigit w :
  forallb isDigit w = true ->
  forallb isDigit (orElse (stripZerosBeforeDigit w) (js "0")) = true.
Proof.
  intros H. destruct (stripZerosBeforeDigit_shape w) as [j E].
  assert (D : forallb isDigit (stripZerosBeforeDigit w) = true).
  { rewrite E, forallb_app, forallb_replicate_zero.
    apply forallb_dropWhile, H. }
  destruct (stripZerosBeforeDigit w); [reflexivity | exact D].
Qed.

Lemma combinedDigits_assembled s d :
  combinedDigits s d
  = assembled (nth 0 (split dot s) (js "0")) (nth 1 (split dot s) []) d.
Proof. reflexivity. Qed.

Lemma padEnd_isDigit d f :
  forallb isDigit f = true ->
  forallb isDigit (padEnd d char0 (substring0 d f)) = true.
Proof.
  intros H. unfold padEnd, substring0.
  rewrite forallb_app, forallb_replicate_zero, forallb_take by exact H.
  reflexivity.
Qed.

Lemma assembled_isDigit w f d :
  forallb isDigit w = true -> forallb isDigit f = true ->
  forallb isDigit (assembled w f d) = true.
Proof.
  intros Hw Hf. unfold assembled.
  set (body := stripLeadingZeros _).
  assert (D : forallb isDigit body = true).
  { apply forallb_dropWhile. rewrite forallb_app.
    rewrite wholeDigits_isDigit, padEnd_isDigit by assumption. reflexivity. }
  destruct body; [reflexivity | exact D].
Qed.

Lemma assembled_value w f d :
  BN.digitsValue (assembled w f d)
  = BN.digitsValue (w ++ padEnd d char0 (substring0 d f)).
Proof.
  unfold assembled.
  rewrite digitsValue_orElse, digitsValue_stripLeadingZeros.
  rewrite !digitsValue_app, wholeDigits_value. reflexivity.
Qed.

Lemma ofString_digits s :
  forallb isDigit s = true -> BN.ofString s = Ok (Z.of_N (BN.digitsValue s)).
Proof.
  intros H. unfold BN.ofString.
  assert (F : List.filter (fun c => negb (isWhiteSpace c)) s = s).
  { apply forallb_filter_id. rewrite forallb_forall. intros c Hc.
    rewrite forallb_forall in H. rewrite isDigit_not_ws; auto. }
  rewrite F.
  assert (M : startsWith minus s = false).
  { destruct s as [|c s]; [reflexivity|]. simpl in *.
    apply andb_true_iff in H as [H _]. apply isDigit_not_minus, H. }
  rewrite M, H. destruct s; reflexivity.
Qed.

Lemma uiAmountToBN_unfold s d :
  trim s <> [] -> startsWith minus (trim s) = false ->
  uiAmountToBN s d = BN.ofString (combinedDigits (trim s) d).
Proof.
  unfold uiAmountToBN. intros Hne Hm.
  destruct (trim s) as [|c r] eqn:E; [congruence|].
  rewrite Hm. reflexivity.
Qed.

Lemma digits_startsWith_minus s :
  forallb isDigit s = true -> startsWith minus s = false.
Proof.
  destruct s as [|c s]; [reflexivity|]. simpl.
  intros [Ha _]%andb_true_iff. apply isDigit_not_minus, Ha.
Qed.

Lemma digits_trim s : forallb isDigit s = true -> trim s = s.
Proof.
  intros H. apply trim_id; intros c Hc; apply isDigit_not_ws, (forallb_elem _ s);
    auto using head_Some_elem_of, last_Some_elem_of.
Qed.

(** A decimal literal [w.f]: what [uiAmountToBN] returns. *)
Lemma uiAmountToBN_dot w f d :
  forallb isDigit w = true -> forallb isDigit f = true ->
  uiAmountToBN (w ++ dot :: f) d
  = Ok (Z.of_N (BN.digitsValue (w ++ padEnd d char0 (substring0 d f)))).
Proof.
  intros Hw Hf.
  assert (T : trim (w ++ dot :: f) = w ++ dot :: f).
  { apply trim_id.
    - intros c Hc. destruct w as [|a w]; simpl in Hc; injection Hc as <-.
      + reflexivity.
      + simpl in Hw. apply andb_true_iff in Hw as [Ha _].
        apply isDigit_not_ws, Ha.
    - intros c. rewrite last_app_cons.
      destruct f as [|a f] using rev_ind.
      + simpl. intros [= <-]. reflexivity.
      + rewrite app_comm_cons, last_snoc. intros [= <-].
        rewrite forallb_app in Hf. apply andb_true_iff in Hf as [_ Ha].
        simpl in Ha. rewrite andb_true_r in Ha. apply isDigit_not_ws, Ha. }
  rewrite uiAmountToBN_unfold; rewrite T.
  - rewrite combinedDigits_assembled, split_app_sep by apply digits_no_dot, Hw.
    rewrite split_no_sep by apply digits_no_dot, Hf. cbn [nth].
    rewrite ofString_digits by (apply assembled_isDigit; assumption).
    rewrite assembled_value. reflexivity.
  - destruct w; discriminate.
  - destruct w as [|a w]; [reflexivity|]. simpl in *.
    apply andb_true_iff in Hw as [Ha _]. apply isDigit_not_minus, Ha.
Qed.

(** An integer literal [w]. *)
Lemma uiAmountToBN_integer w d :
  forallb isDigit w = true ->
  uiAmountToBN w d = Ok (Z.of_N (BN.digitsValue (w ++ replicate d char0))).
Proof.
  intros Hw. destruct (decide (w = [])) as [->|Hne].
  - rewrite app_nil_l, digitsValue_zeros. reflexivity.
  - rewrite uiAmountToBN_unfold; rewrite digits_trim by exact Hw;
      [| exact Hne | apply digits_startsWith_minus, Hw].
    rewrite combinedDigits_assembled, split_no_sep by apply digits_no_dot, Hw.
    cbn [nth].
    rewrite ofString_digits by (apply assembled_isDigit; auto).
    rewrite assembled_value. unfold padEnd, substring0.
    rewrite take_nil. simpl. rewrite Nat.sub_0_r. reflexivity.
Qed.

(** ** [formatTokenAmount] *)

Lemma padStart_length n c s : (n <= length (padStart n c s))%nat.
Proof. unfold padStart. rewrite length_app, length_replicate. lia. Qed.

Lemma padStart_length_eq n c s :
  length (padStart n c s) = Nat.max n (length s).
Proof. unfold padStart. rewrite length_app, length_replicate. lia. Qed.

(** The padded digits split into a non-empty whole part and a fractional
    part of exactly [decimals] characters. *)
Lemma formatTokenAmount_parts amount d :
  d <> 0%nat ->
  exists whole frac,
    padStart (d + 1) char0 (BN.toString amount) = whole ++ frac
    /\ length frac = d
    /\ whole <> []
    /\ formatTokenAmount amount d
       = match stripTrailingZeros frac with
         | [] => whole
         | c :: f => whole ++ dot :: c :: f
         end.
Proof.
  intros Hd. set (raw := padStart (d + 1) char0 (BN.toString amount)).
  pose proof (padStart_length (d + 1) char0 (BN.toString amount)) as L.
  fold raw in L.
  exists (sliceButLast d raw), (sliceLast d raw).
  unfold sliceButLast, sliceLast. split; [|split; [|split]].
  - symmetry. apply take_drop.
  - rewrite length_drop. lia.
  - intros E. apply (f_equal length) in E. rewrite length_take in E.
    simpl in E. lia.
  - unfold formatTokenAmount. destruct d as [|d']; [congruence|].
    fold raw. unfold sliceButLast, sliceLast.
    destruct (take (length raw - S d') raw) eqn:E.
    + apply (f_equal length) in E. rewrite length_take in E. simpl in E. lia.
    + cbn [orElse]. destruct (stripTrailingZeros _); reflexivity.
Qed.

Lemma toString_nonneg z :
  (0 <= z)%Z -> BN.toString z = BN.digits (Z.to_N z).
Proof. destruct z; [reflexivity | reflexivity | lia]. Qed.

Lemma padStart_value n s :
  BN.digitsValue (padStart n char0 s) = BN.digitsValue s.
Proof. apply digitsValue_zeros_app. Qed.

Lemma padStart_isDigit n s :
  forallb isDigit s = true -> forallb isDigit (padStart n char0 s) = true.
Proof.
  intros H. unfold padStart. rewrite forallb_app, forallb_replicate_zero, H.
  reflexivity.
Qed.

(** C1. Round trip: formatting a non-negative integer amount with
    [formatTokenAmount] and parsing the text back with [uiAmountToBN], at
    the same number of decimals, returns the amount exactly. *)
Theorem C1_round_trip (n : Z) (d : nat) :
  (0 <= n)%Z -> uiAmountToBN (formatTokenAmount n d) d = Ok n.
Proof.
  intros Hn.
  assert (V : forall s, BN.digitsValue s = Z.to_N n ->
                        (Ok (Z.of_N (BN.digitsValue s)) : result BN.t) = Ok n).
  { intros s ->. rewrite Z2N.id by exact Hn. reflexivity. }
  destruct (decide (d = 0%nat)) as [->|Hd].
  - cbn [formatTokenAmount]. rewrite toString_nonneg by exact Hn.
    rewrite uiAmountToBN_integer by apply digits_isDigit.
    apply V. cbn [replicate]. rewrite app_nil_r. apply digits_value.
  - destruct (formatTokenAmount_parts n d Hd) as (whole & frac & R & L & _ & ->).
    rewrite toString_nonneg in R by exact Hn.
    assert (D : forallb isDigit (whole ++ frac) = true).
    { rewrite <- R. apply padStart_isDigit, digits_isDigit. }
    assert (E : BN.digitsValue (whole ++ frac) = Z.to_N n).
    { rewrite <- R, padStart_value. apply digits_value. }
    rewrite forallb_app in D. apply andb_true_iff in D as [Dw Df].
    pose proof (stripTrailingZeros_split frac) as S.
    pose proof (stripTrailingZeros_length frac) as SL.
    assert (Ds : forallb isDigit (stripTrailingZeros frac) = true).
    { rewrite S, forallb_app in Df. apply andb_true_iff in Df as [H _]. exact H. }
    destruct (stripTrailingZeros frac) as [|c f] eqn:F.
    + rewrite uiAmountToBN_integer by exact Dw. apply V.
      rewrite <- E, S. simpl. rewrite Nat.sub_0_r, L. reflexivity.
    + rewrite uiAmountToBN_dot by assumption. apply V.
      rewrite <- E. f_equal. f_equal. unfold padEnd, substring0.
      rewrite take_ge by lia. rewrite L in S. symmetry. exact S.
Qed.

Lemma C1_round_trip_witness :
  (0 <= 1500000)%Z /\ uiAmountToBN (formatTokenAmount 1500000 6) 6 = Ok 1500000%Z.
Proof. split; [lia | apply (C1_round_trip 1500000 6); lia]. Defined.

(** ** Truncation in [uiAmountToBN] *)

Lemma stripLeadingZeros_zeros_app k s :
  stripLeadingZeros (replicate k char0 ++ s) = stripLeadingZeros s.
Proof. induction k as [|k IH]; [reflexivity | exact IH]. Qed.

Lemma stripLeadingZeros_app_strip s r :
  stripLeadingZeros (stripLeadingZeros s ++ r) = stripLeadingZeros (s ++ r).
Proof.
  rewrite (stripLeadingZeros_split s) at 2.
  rewrite <- app_assoc, stripLeadingZeros_zeros_app. reflexivity.
Qed.

(** The whole part loses leading zeros only, so the final stripping makes
    the assembled digits those of [whole ++ fraction] without leading
    zeros. *)
Lemma assembled_strip w f d :
  assembled w f d
  = orElse (stripLeadingZeros (w ++ padEnd d char0 (substring0 d f))) (js "0").
Proof.
  unfold assembled. f_equal.
  assert (E : exists j, orElse (stripZerosBeforeDigit w) (js "0")
                        = replicate j char0 ++ stripLeadingZeros w).
  { destruct (stripZerosBeforeDigit_shape w) as [j E].
    destruct (stripZerosBeforeDigit w) eqn:S.
    - exists 1%nat. destruct w as [|c w].
      + reflexivity.
      + exfalso. revert S. apply stripZerosBeforeDigit_nonempty. discriminate.
    - exists j. exact E. }
  destruct E as [j ->].
  rewrite <- app_assoc, stripLeadingZeros_zeros_app.
  apply stripLeadingZeros_app_strip.
Qed.

Lemma padEnd_substring0 d f :
  padEnd d char0 (substring0 d f) = take d f ++ replicate (d - length f) char0.
Proof.
  unfold padEnd, substring0. rewrite length_take. f_equal. f_equal. lia.
Qed.

Lemma pow10_add a b :
  10 ^ N.of_nat (a + b) = 10 ^ N.of_nat a * 10 ^ N.of_nat b.
Proof. rewrite Nat2N.inj_add. apply N.pow_add_r. Qed.

(** Keeping the first [d] fractional digits (padding with zeros when there
    are fewer) is the floor of the literal's value scaled by [10^d]. *)
Lemma truncated_value w f d :
  forallb isDigit f = true ->
  BN.digitsValue (w ++ take d f ++ replicate (d - length f) char0)
  = (BN.digitsValue (w ++ f) * 10 ^ N.of_nat d) / 10 ^ N.of_nat (length f).
Proof.
  intros Hf.
  assert (P : forall k, 10 ^ N.of_nat k <> 0).
  { intros k. apply N.pow_nonzero. discriminate. }
  destruct (Nat.le_gt_cases (length f) d) as [Hle|Hgt].
  - rewrite take_ge by exact Hle.
    rewrite app_assoc, digitsValue_app_zeros.
    replace d with ((d - length f) + length f)%nat at 2 by lia.
    rewrite pow10_add, N.mul_assoc, N.div_mul by apply P. reflexivity.
  - replace (d - length f)%nat with 0%nat by lia.
    cbn [replicate]. rewrite app_nil_r.
    apply N.div_unique with (r := BN.digitsValue (drop d f) * 10 ^ N.of_nat d).
    + pose proof (digitsValue_bound (drop d f) (forallb_drop _ d f Hf)) as B.
      rewrite length_drop in B.
      replace (length f) with ((length f - d) + d)%nat at 1 by lia.
      rewrite pow10_add. apply N.mul_lt_mono_pos_r; [|exact B].
      specialize (P d). lia.
    + rewrite <- (take_drop d f) at 1.
      rewrite app_assoc, digitsValue_app, length_drop.
      replace (10 ^ N.of_nat (length f))
        with (10 ^ N.of_nat (length f - d) * 10 ^ N.of_nat d)
        by (rewrite <- pow10_add; do 2 f_equal; lia).
      generalize (BN.digitsValue (w ++ take d f)), (BN.digitsValue (drop d f)),
        (10 ^ N.of_nat (length f - d)), (10 ^ N.of_nat d).
      intros. lia.
Qed.

(** C4. On a decimal literal [w.f], [uiAmountToBN] keeps the first
    [decimals] fractional digits (no rounding), pads a shorter fraction with
    zeros on the right, and reads whole and fractional digits, concatenated
    and without leading zeros, as one integer.  That integer is the floor of
    the literal's value scaled by [10^decimals]; it never exceeds the scaled
    value. *)
Theorem C4_truncates_never_rounds (w f : JsString.t) (d : nat) :
  forallb isDigit w = true -> forallb isDigit f = true ->
  let kept := take d f ++ replicate (d - length f) char0 in
  combinedDigits (w ++ dot :: f) d
    = orElse (stripLeadingZeros (w ++ kept)) (js "0")
  /\ length kept = d
  /\ exists z : Z,
       uiAmountToBN (w ++ dot :: f) d = Ok z
       /\ z = Z.of_N (BN.digitsValue (w ++ kept))
       /\ z = Z.of_N ((BN.digitsValue (w ++ f) * 10 ^ N.of_nat d)
                        / 10 ^ N.of_nat (length f))
       /\ (inject_Z z <= literalValue w f * inject_Z (10 ^ Z.of_nat d))%Q.
Proof.
  intros Hw Hf kept. split; [|split].
  - rewrite combinedDigits_assembled, split_app_sep by apply digits_no_dot, Hw.
    rewrite split_no_sep by apply digits_no_dot, Hf. cbn [nth].
    rewrite assembled_strip, padEnd_substring0. reflexivity.
  - unfold kept. rewrite length_app, length_take, length_replicate. lia.
  - exists (Z.of_N (BN.digitsValue (w ++ kept))).
    assert (T := truncated_value w f d Hf). fold kept in T.
    split; [|split; [|split]].
    + rewrite uiAmountToBN_dot, padEnd_substring0 by assumption. reflexivity.
    + reflexivity.
    + rewrite T. reflexivity.
    + rewrite T. unfold Qle, literalValue. cbn [Qnum Qden Qmult inject_Z].
      assert (P : (0 < 10 ^ Z.of_nat (length f))%Z).
      { apply Z.pow_pos_nonneg; lia. }
      rewrite Pos.mul_1_r, Z.mul_1_r, Z2Pos.id by exact P.
      rewrite N2Z.inj_div, N2Z.inj_mul, !N2Z.inj_pow, !nat_N_Z.
      change (Z.of_N 10) with 10%Z.
      rewrite Z.mul_comm. apply Z.mul_div_le, P.
Qed.

Lemma C4_truncates_never_rounds_witness :
  forallb isDigit (js "12") = true
  /\ forallb isDigit (js "3456") = true
  /\ uiAmountToBN (js "12.3456") 2 = Ok 1234%Z
  /\ (inject_Z 1234 <= literalValue (js "12") (js "3456") * inject_Z 100)%Q.
Proof.
  split; [reflexivity|]. split; [reflexivity|].
  destruct (C4_truncates_never_rounds (js "12") (js "3456") 2 eq_refl eq_refl)
    as (_ & _ & z & E & V & _ & B).
  vm_compute in V. subst z. split; [exact E | exact B].
Defined.

(** ** Digit strings are determined by their value *)

Lemma digitsValue_cons c s :
  BN.digitsValue (c :: s)
  = (c - 48) * 10 ^ N.of_nat (length s) + BN.digitsValue s.
Proof.
  change (c :: s) with ([c] ++ s). rewrite digitsValue_app.
  unfold BN.digitsValue at 1. cbn [fold_left]. lia.
Qed.

(** Two digit strings of one length and one value are the same string. *)
Lemma digits_unique_length a b :
  forallb isDigit a = true -> forallb isDigit b = true ->
  length a = length b -> BN.digitsValue a = BN.digitsValue b -> a = b.
Proof.
  revert b. induction a as [|c a IH]; intros [|c' b]; try discriminate;
    [reflexivity|].
  cbn [forallb length]. intros [Hc Ha]%andb_true_iff [Hc' Hb]%andb_true_iff [= L].
  rewrite !digitsValue_cons, L.
  pose proof (digitsValue_bound a Ha) as Ba. rewrite L in Ba.
  pose proof (digitsValue_bound b Hb) as Bb.
  apply isDigit_bounds in Hc, Hc'.
  generalize dependent (10 ^ N.of_nat (length b)). intros p Ba Bb E.
  assert (c - 48 = c' - 48) as Ec by nia.
  assert (BN.digitsValue a = BN.digitsValue b) as Ev by nia.
  f_equal; [lia | auto].
Qed.

(** A string of digits without a leading zero: its length is fixed by its
    value. *)
Lemma digitsValue_lower c s :
  isDigit c = true -> c <> char0 ->
  10 ^ N.of_nat (length s) <= BN.digitsValue (c :: s).
Proof.
  intros Hc%isDigit_bounds Hz. unfold char0 in Hz. rewrite digitsValue_cons.
  generalize (10 ^ N.of_nat (length s)), (BN.digitsValue s). intros. nia.
Qed.

Lemma pow10_mono a b : (a <= b)%nat -> 10 ^ N.of_nat a <= 10 ^ N.of_nat b.
Proof. intros H. apply N.pow_le_mono_r; [discriminate | lia]. Qed.

Lemma canonical_unique a b :
  canonical a -> canonical b -> BN.digitsValue a = BN.digitsValue b -> a = b.
Proof.
  intros [Da Ca] [Db Cb] E.
  assert (Z : forall s, forallb isDigit s = true ->
                (exists c r, s = c :: r /\ c <> char0) ->
                BN.digitsValue s <> 0).
  { intros s D (c & r & -> & Hc). simpl in D.
    apply andb_true_iff in D as [D _].
    pose proof (digitsValue_lower c r D Hc) as L.
    assert (10 ^ N.of_nat (length r) <> 0) by (apply N.pow_nonzero; discriminate).
    lia. }
  destruct Ca as [->|Ca], Cb as [->|Cb]; [reflexivity | | |].
  - exfalso. apply (Z b Db Cb). rewrite <- E. reflexivity.
  - exfalso. apply (Z a Da Ca). rewrite E. reflexivity.
  - apply digits_unique_length; auto.
    destruct Ca as (c & r & -> & Hc), Cb as (c' & r' & -> & Hc').
    pose proof Da as Da'. pose proof Db as Db'. simpl in Da', Db'.
    apply andb_true_iff in Da' as [Dc _]. apply andb_true_iff in Db' as [Dc' _].
    pose proof (digitsValue_lower c r Dc Hc) as La.
    pose proof (digitsValue_lower c' r' Dc' Hc') as Lb.
    pose proof (digitsValue_bound _ Da) as Ua.
    pose proof (digitsValue_bound _ Db) as Ub.
    cbn [length] in *.
    destruct (Nat.lt_trichotomy (length r) (length r')) as [H|[H|H]].
    + pose proof (pow10_mono (S (length r)) (length r') H). lia.
    + congruence.
    + pose proof (pow10_mono (S (length r')) (length r) H). lia.
Qed.

Lemma digitsAux_head fuel n c :
  n < 2 ^ N.of_nat fuel -> n <> 0 ->
  head (BN.digitsAux (S fuel) n []) = Some c -> c <> char0.
Proof.
  revert n. induction fuel as [|fuel IH]; intros n Hn Hz;
    rewrite digitsAux_step.
  - change (n < 1) in Hn. lia.
  - destruct (N.ltb_spec n 10) as [Hlt|Hge].
    + simpl. intros [= <-]. unfold char0. lia.
    + assert (Hq : n / 10 < 2 ^ N.of_nat fuel).
      { rewrite Nat2N.inj_succ, N.pow_succ_r' in Hn.
        apply N.Div0.div_lt_upper_bound. lia. }
      assert (Hq0 : n / 10 <> 0).
      { intros E. apply N.div_small_iff in E; lia. }
      destruct fuel as [|fuel'].
      * change (n / 10 < 1) in Hq. lia.
      * specialize (IH (n / 10) Hq Hq0).
        destruct (BN.digitsAux (S (S fuel')) (n / 10) []) as [|a r] eqn:E.
        -- exfalso. rewrite digitsAux_step in E.
           destruct (n / 10 <? 10); [discriminate|].
           apply app_eq_nil in E as [_ E]. discriminate.
        -- simpl. intros [= <-]. apply IH. reflexivity.
Qed.

Lemma digits_canonical n : canonical (BN.digits n).
Proof.
  split; [apply digits_isDigit|].
  destruct (N.eq_dec n 0) as [->|Hn]; [left; reflexivity|]. right.
  destruct (BN.digits n) as [|c r] eqn:E.
  - exfalso. revert E. apply digits_nonempty.
  - exists c, r. split; [reflexivity|].
    apply (digitsAux_head (N.to_nat (N.size n)) n).
    + rewrite N2Nat.id. apply N.size_gt.
    + exact Hn.
    + fold (BN.digits n). rewrite E. reflexivity.
Qed.

Lemma digits_of_canonical s : canonical s -> s = BN.digits (BN.digitsValue s).
Proof.
  intros C. apply canonical_unique; [exact C | apply digits_canonical|].
  symmetry. apply digits_value.
Qed.

(** [m] below [10^d] has at most [d] digits ([d] positive). *)
Lemma digits_length_le m d :
  d <> 0%nat -> m < 10 ^ N.of_nat d -> (length (BN.digits m) <= d)%nat.
Proof.
  intros Hd Hm. destruct (digits_canonical m) as [D [E|(c & r & E & Hc)]].
  - rewrite E. simpl. lia.
  - pose proof D as D'. rewrite E in D'. simpl in D'.
    apply andb_true_iff in D' as [Dc _].
    pose proof (digitsValue_lower c r Dc Hc) as L.
    rewrite <- E, digits_value in L. rewrite E. cbn [length].
    destruct (Nat.le_gt_cases (S (length r)) d) as [|H]; [assumption|].
    pose proof (pow10_mono d (length r) ltac:(lia)). lia.
Qed.

Lemma digitsValue_zero_inv s :
  forallb isDigit s = true -> BN.digitsValue s = 0 ->
  s = replicate (length s) char0.
Proof.
  induction s as [|c s IH]; [reflexivity|]. cbn [forallb length replicate].
  intros [Hc Hs]%andb_true_iff. rewrite digitsValue_cons. intros E.
  apply isDigit_bounds in Hc.
  assert (P : 10 ^ N.of_nat (length s) <> 0) by (apply N.pow_nonzero; discriminate).
  apply N.eq_add_0 in E as [E1 E2].
  apply N.eq_mul_0 in E1 as [E1|E1]; [|contradiction].
  assert (c = char0) as -> by (unfold char0; lia).
  f_equal. apply IH; assumption.
Qed.

Lemma stripTrailingZeros_zeros k : stripTrailingZeros (replicate k char0) = [].
Proof.
  unfold stripTrailingZeros. rewrite reverse_replicate.
  rewrite <- (app_nil_r (replicate k char0)).
  fold (stripLeadingZeros (replicate k char0 ++ [])).
  rewrite stripLeadingZeros_zeros_app. reflexivity.
Qed.

Lemma stripTrailingZeros_nil_iff s :
  forallb isDigit s = true ->
  stripTrailingZeros s = [] <-> BN.digitsValue s = 0.
Proof.
  intros D. split.
  - intros E. rewrite (stripTrailingZeros_split s), E. simpl.
    apply digitsValue_zeros.
  - intros E. rewrite (digitsValue_zero_inv s D E).
    apply stripTrailingZeros_zeros.
Qed.

(** The two parts of the padded digits of a non-negative amount are the
    quotient and the remainder of the amount by [10^decimals]. *)
Lemma padded_parts_arith m d whole frac :
  d <> 0%nat ->
  padStart (d + 1) char0 (BN.digits m) = whole ++ frac ->
  length frac = d -> whole <> [] ->
  whole = BN.digits (m / 10 ^ N.of_nat d)
  /\ frac = padStart d char0 (BN.digits (m mod 10 ^ N.of_nat d)).
Proof.
  intros Hd R L Hw.
  assert (D : forallb isDigit (whole ++ frac) = true).
  { rewrite <- R. apply padStart_isDigit, digits_isDigit. }
  assert (V : BN.digitsValue (whole ++ frac) = m).
  { rewrite <- R, padStart_value. apply digits_value. }
  rewrite forallb_app in D. apply andb_true_iff in D as [Dw Df].
  rewrite digitsValue_app, L in V.
  pose proof (digitsValue_bound frac Df) as B. rewrite L in B.
  assert (P : 10 ^ N.of_nat d <> 0) by (apply N.pow_nonzero; discriminate).
  assert (Vw : BN.digitsValue whole = m / 10 ^ N.of_nat d).
  { apply N.div_unique with (r := BN.digitsValue frac); [exact B | lia]. }
  assert (Vf : BN.digitsValue frac = m mod 10 ^ N.of_nat d).
  { apply N.mod_unique with (q := BN.digitsValue whole); [exact B | lia]. }
  split.
  - rewrite <- Vw. apply digits_of_canonical. split; [exact Dw|].
    destruct whole as [|c r]; [congruence|].
    destruct (N.eq_dec c char0) as [->|Hc]; [left | right; eauto].
    pose proof (padStart_length_eq (d + 1) char0 (BN.digits m)) as PL.
    rewrite R, length_app, L in PL. cbn [length] in PL.
    destruct (Nat.le_gt_cases (length (BN.digits m)) (d + 1)) as [Hle|Hgt].
    + destruct r; [reflexivity | simpl in PL; lia].
    + exfalso. unfold padStart in R.
      replace (d + 1 - length (BN.digits m))%nat with 0%nat in R by lia.
      cbn [replicate app] in R.
      destruct (digits_canonical m) as [_ [E|(c' & r' & E & Hc')]].
      * rewrite E in Hgt. simpl in Hgt. lia.
      * rewrite E in R. injection R as -> _. congruence.
  - apply digits_unique_length.
    + exact Df.
    + apply padStart_isDigit, digits_isDigit.
    + rewrite padStart_length_eq, L.
      pose proof (digits_length_le (m mod 10 ^ N.of_nat d) d Hd
                    (N.mod_upper_bound _ _ P)). lia.
    + rewrite padStart_value, digits_value. exact Vf.
Qed.

(** The arithmetic reading of [formatTokenAmount] on a non-negative
    amount: quotient, then the remainder on [decimals] digits without its
    trailing zeros, and no fractional part for a multiple of
    [10^decimals]. *)
Lemma formatTokenAmount_arith n d :
  (0 <= n)%Z -> d <> 0%nat ->
  let m := Z.to_N n in
  formatTokenAmount n d
  = BN.digits (m / 10 ^ N.of_nat d)
      ++ (if m mod 10 ^ N.of_nat d =? 0 then []
          else dot :: stripTrailingZeros
                        (padStart d char0 (BN.digits (m mod 10 ^ N.of_nat d)))).
Proof.
  intros Hn Hd m.
  destruct (formatTokenAmount_parts n d Hd) as (whole & frac & R & L & Hw & ->).
  rewrite toString_nonneg in R by exact Hn. fold m in R.
  destruct (padded_parts_arith m d whole frac Hd R L Hw) as [Ew Ef].
  assert (Df : forallb isDigit frac = true).
  { rewrite Ef. apply padStart_isDigit, digits_isDigit. }
  pose proof (stripTrailingZeros_nil_iff frac Df) as Z.
  assert (Vf : BN.digitsValue frac = m mod 10 ^ N.of_nat d).
  { rewrite Ef, padStart_value. apply digits_value. }
  rewrite Vf in Z. rewrite <- Ew, <- Ef.
  destruct (N.eqb_spec (m mod 10 ^ N.of_nat d) 0) as [E|E].
  - apply Z in E. rewrite E, app_nil_r. reflexivity.
  - destruct (stripTrailingZeros frac); [|reflexivity].
    exfalso. apply E, Z. reflexivity.
Qed.

(** ** The formatting contract *)

Lemma toString_noDot z : noDot (BN.toString z) = true.
Proof.
  unfold noDot. destruct z; try apply digits_no_dot, digits_isDigit.
  cbn [BN.toString forallb]. rewrite digits_no_dot by apply digits_isDigit.
  reflexivity.
Qed.

Lemma padStart_noDot n s : noDot s = true -> noDot (padStart n char0 s) = true.
Proof.
  intros H. unfold noDot, padStart in *. rewrite forallb_app, H, andb_true_r.
  apply digits_no_dot, forallb_replicate_zero.
Qed.

Lemma fractionalPart_noDot s : noDot s = true -> fractionalPart s = [].
Proof. intros H. unfold fractionalPart. rewrite split_no_sep by exact H. reflexivity. Qed.

Lemma fractionalPart_dot w f :
  noDot w = true -> noDot f = true -> fractionalPart (w ++ dot :: f) = f.
Proof.
  intros Hw Hf. unfold fractionalPart.
  rewrite split_app_sep, split_no_sep by assumption. reflexivity.
Qed.

Lemma formatTokenAmount_fraction_length n d :
  (length (fractionalPart (formatTokenAmount n d)) <= d)%nat.
Proof.
  destruct (decide (d = 0%nat)) as [->|Hd].
  - cbn [formatTokenAmount]. rewrite fractionalPart_noDot by apply toString_noDot.
    simpl. lia.
  - destruct (formatTokenAmount_parts n d Hd) as (whole & frac & R & L & _ & ->).
    assert (D : noDot (whole ++ frac) = true).
    { rewrite <- R. apply padStart_noDot, toString_noDot. }
    unfold noDot in D. rewrite forallb_app in D.
    apply andb_true_iff in D as [Dw Df].
    pose proof (stripTrailingZeros_split frac) as S.
    pose proof (stripTrailingZeros_length frac) as SL.
    destruct (stripTrailingZeros frac) as [|c f].
    + rewrite fractionalPart_noDot by exact Dw. simpl. lia.
    + rewrite fractionalPart_dot; [lia | exact Dw |].
      rewrite S in Df. unfold noDot. rewrite forallb_app in Df.
      apply andb_true_iff in Df as [Df _]. exact Df.
Qed.

(** C9. The formatting contract of [formatTokenAmount]:
    - with 0 decimals the integer is printed as it is;
    - with [d > 0] decimals the digits are padded with zeros on the left to
      at least [d + 1] characters and split into a whole part and a
      fractional part of [d] characters; the fractional part loses its
      trailing zeros, and the whole part is printed alone when nothing is
      left of it;
    - for a non-negative amount the whole part is the quotient by [10^d]
      and the fractional part the remainder on [d] digits;
    - [formatTokenAmount 100000 6] is ["0.1"], [formatTokenAmount 1000000 6]
      is ["1"];
    - the fractional part of the result never has more than [d] digits. *)
Theorem C9_format_contract :
  (forall n, formatTokenAmount n 0 = BN.toString n)
  /\ (forall n d, d <> 0%nat ->
       exists whole frac,
         padStart (d + 1) char0 (BN.toString n) = whole ++ frac
         /\ length (whole ++ frac) = Nat.max (d + 1) (length (BN.toString n))
         /\ length frac = d
         /\ whole <> []
         /\ frac = stripTrailingZeros frac
                     ++ replicate (d - length (stripTrailingZeros frac)) char0
         /\ last (stripTrailingZeros frac) <> Some char0
         /\ formatTokenAmount n d
            = match stripTrailingZeros frac with
              | [] => whole
              | c :: f => whole ++ dot :: c :: f
              end)
  /\ (forall n d, (0 <= n)%Z -> d <> 0%nat ->
       formatTokenAmount n d
       = BN.digits (Z.to_N n / 10 ^ N.of_nat d)
           ++ (if Z.to_N n mod 10 ^ N.of_nat d =? 0 then []
               else dot :: stripTrailingZeros
                             (padStart d char0
                                (BN.digits (Z.to_N n mod 10 ^ N.of_nat d)))))
  /\ formatTokenAmount 100000 6 = js "0.1"
  /\ formatTokenAmount 1000000 6 = js "1"
  /\ (forall n d, (length (fractionalPart (formatTokenAmount n d)) <= d)%nat).
Proof.
  split; [reflexivity|]. split; [|split; [|split; [|split]]].
  - intros n d Hd.
    destruct (formatTokenAmount_parts n d Hd) as (whole & frac & R & L & Hw & E).
    exists whole, frac. repeat split; try assumption.
    + rewrite <- R. apply padStart_length_eq.
    + pose proof (stripTrailingZeros_split frac) as S.
      rewrite L in S. exact S.
    + intros H. apply (stripTrailingZeros_last frac char0 H). reflexivity.
  - intros n d Hn Hd. apply formatTokenAmount_arith; assumption.
  - vm_compute. reflexivity.
  - vm_compute. reflexivity.
  - apply formatTokenAmount_fraction_length.
Qed.

Lemma C9_format_contract_witness :
  formatTokenAmount 1234500 6 = js "1.2345"
  /\ formatTokenAmount 7 0 = js "7"
  /\ (length (fractionalPart (formatTokenAmount 1234500 6)) <= 6)%nat.
Proof.
  destruct C9_format_contract as (H0 & _ & Ha & _ & _ & Hl).
  split; [|split].
  - rewrite (Ha 1234500%Z 6%nat); [vm_compute; reflexivity | lia | lia].
  - rewrite (H0 7%Z). vm_compute. reflexivity.
  - apply (Hl 1234500%Z 6%nat).
Defined.

(** ** More than one decimal point *)

Lemma split_nil_iff sep s : split sep s = [[]] <-> s = [].
Proof.
  split; [|intros ->; reflexivity].
  destruct s as [|c s]; [reflexivity|]. simpl.
  destruct (c =? sep).
  - intros [= E]. exfalso. revert E. apply split_nonempty.
  - destruct (split sep s); discriminate.
Qed.

Lemma split_take2_nil sep s : take 2 (split sep s) = [[]] <-> s = [].
Proof.
  rewrite <- (split_nil_iff sep s).
  destruct (split sep s) as [|a [|b r]]; simpl; split; congruence.
Qed.

Lemma startsWith_first_segment s :
  startsWith minus s = startsWith minus (nth 0 (split dot s) []).
Proof.
  destruct s as [|c s]; [reflexivity|]. simpl.
  destruct (N.eqb_spec c dot) as [->|Hc]; [reflexivity|].
  destruct (split dot s); reflexivity.
Qed.

Lemma nth_take2 (l : list JsString.t) i dflt :
  (i < 2)%nat -> nth i l dflt = nth i (take 2 l) dflt.
Proof.
  intros Hi. destruct l as [|a [|b r]], i as [|[|i]]; simpl; try reflexivity; lia.
Qed.

(** [uiAmountToBN] reads its input through the first two segments of the
    trimmed text only. *)
Lemma uiAmountToBN_segments s d :
  uiAmountToBN s d
  = let parts := take 2 (split dot (trim s)) in
    if decide (parts = [[]]) then Ok 0%Z
    else if startsWith minus (nth 0 parts []) then Ok 0%Z
         else BN.ofString (assembled (nth 0 parts (js "0")) (nth 1 parts []) d).
Proof.
  cbv zeta. unfold uiAmountToBN.
  rewrite <- !nth_take2 by lia. rewrite <- startsWith_first_segment.
  destruct (decide (take 2 (split dot (trim s)) = [[]])) as [E|E].
  - apply split_take2_nil in E. rewrite E. reflexivity.
  - rewrite split_take2_nil in E. destruct (trim s); [congruence | reflexivity].
Qed.

Lemma dropWhile_app_stop p a c x :
  p c = false -> dropWhile p (a ++ c :: x) = dropWhile p a ++ c :: x.
Proof.
  intros Hc. induction a as [|b a IH]; simpl.
  - rewrite Hc. reflexivity.
  - destruct (p b); [exact IH | reflexivity].
Qed.

Lemma trimEnd_dot a b : trimEnd (a ++ dot :: b) = a ++ dot :: trimEnd b.
Proof.
  unfold trimEnd. rewrite reverse_app, reverse_cons, <- app_assoc.
  cbn [app]. rewrite dropWhile_app_stop by reflexivity.
  rewrite reverse_app, reverse_cons, reverse_involutive, <- app_assoc.
  reflexivity.
Qed.

Lemma trim_dot a b :
  trim (a ++ dot :: b) = dropWhile isWhiteSpace a ++ dot :: trimEnd b.
Proof.
  unfold trim. rewrite dropWhile_app_stop by reflexivity.
  apply trimEnd_dot.
Qed.

Lemma trimEnd_id s :
  (forall c, last s = Some c -> isWhiteSpace c = false) -> trimEnd s = s.
Proof.
  intros H. unfold trimEnd.
  rewrite dropWhile_head_false, reverse_involutive; [reflexivity|].
  intros c. rewrite head_reverse. apply H.
Qed.

Lemma segments_three w f rest :
  noDot w = true -> noDot f = true ->
  take 2 (split dot (trim (w ++ dot :: f ++ dot :: rest)))
  = [dropWhile isWhiteSpace w; f].
Proof.
  intros Hw Hf. rewrite trim_dot, trimEnd_dot.
  rewrite split_app_sep by (apply forallb_dropWhile, Hw).
  rewrite split_app_sep by exact Hf.
  reflexivity.
Qed.

Lemma segments_two w f :
  noDot w = true -> noDot f = true ->
  (forall c, last f = Some c -> isWhiteSpace c = false) ->
  take 2 (split dot (trim (w ++ dot :: f))) = [dropWhile isWhiteSpace w; f].
Proof.
  intros Hw Hf Hl. rewrite trim_dot, trimEnd_id by exact Hl.
  rewrite split_app_sep by (apply forallb_dropWhile, Hw).
  rewrite split_no_sep by exact Hf. reflexivity.
Qed.

(** C10. [uiAmountToBN] ignores whatever follows a second decimal point:
    the result depends on the first two segments of the trimmed input only;
    so [w.f.rest] gives the same result for every [rest], the one of [w.f]
    (when [f] does not end in white space, which [trim] would remove from
    [w.f]); ["1.2.3"] is read as ["1.2"] for every number of decimals, and
    the result is a positive amount, neither an error nor zero. *)
Theorem C10_extra_segments_ignored :
  (forall s1 s2 d,
      take 2 (split dot (trim s1)) = take 2 (split dot (trim s2)) ->
      uiAmountToBN s1 d = uiAmountToBN s2 d)
  /\ (forall w f rest1 rest2 d,
      noDot w = true -> noDot f = true ->
      uiAmountToBN (w ++ dot :: f ++ dot :: rest1) d
      = uiAmountToBN (w ++ dot :: f ++ dot :: rest2) d)
  /\ (forall w f rest d,
      noDot w = true -> noDot f = true ->
      (forall c, last f = Some c -> isWhiteSpace c = false) ->
      uiAmountToBN (w ++ dot :: f ++ dot :: rest) d
      = uiAmountToBN (w ++ dot :: f) d)
  /\ (forall d, uiAmountToBN (js "1.2.3") d = uiAmountToBN (js "1.2") d)
  /\ (forall d, exists z : Z, uiAmountToBN (js "1.2.3") d = Ok z /\ (0 < z)%Z).
Proof.
  assert (X : forall s1 s2 d,
             take 2 (split dot (trim s1)) = take 2 (split dot (trim s2)) ->
             uiAmountToBN s1 d = uiAmountToBN s2 d).
  { intros s1 s2 d E. rewrite !uiAmountToBN_segments, E. reflexivity. }
  split; [exact X|]. split; [|split; [|split]].
  - intros w f rest1 rest2 d Hw Hf. apply X.
    rewrite !segments_three by assumption. reflexivity.
  - intros w f rest d Hw Hf Hl. apply X.
    rewrite segments_three, segments_two by assumption. reflexivity.
  - intros d. apply X. reflexivity.
  - intros d. rewrite (X (js "1.2.3") (js "1.2") d eq_refl).
    change (js "1.2") with (js "1" ++ dot :: js "2").
    rewrite uiAmountToBN_dot by reflexivity.
    eexists. split; [reflexivity|].
    rewrite digitsValue_app. change (BN.digitsValue (js "1")) with 1.
    assert (0 < 10 ^ N.of_nat (length (padEnd d char0 (substring0 d (js "2"))))).
    { apply N.neq_0_lt_0, N.pow_nonzero. discriminate. }
    lia.
Qed.

Lemma C10_extra_segments_ignored_witness :
  take 2 (split dot (trim (js " 0.5.9.9 "))) = take 2 (split dot (trim (js "0.5")))
  /\ uiAmountToBN (js " 0.5.9.9 ") 3 = uiAmountToBN (js "0.5") 3
  /\ uiAmountToBN (js "0.5") 3 = Ok 500%Z.
Proof.
  split; [reflexivity|]. split.
  - apply (proj1 C10_extra_segments_ignored (js " 0.5.9.9 ") (js "0.5") 3%nat).
    reflexivity.
  - reflexivity.
Defined.

(** ** Empty and negative input *)

Lemma dropWhile_all p s : forallb p s = true -> dropWhile p s = [].
Proof.
  induction s as [|c s IH]; simpl; [reflexivity|].
  intros [-> Hs]%andb_true_iff. auto.
Qed.

Lemma trim_whitespace s : forallb isWhiteSpace s = true -> trim s = [].
Proof.
  intros H. unfold trim. rewrite (dropWhile_all _ s) by exact H. reflexivity.
Qed.

Lemma trim_minus r : startsWith minus (trim (minus :: r)) = true.
Proof.
  unfold trim. cbn [dropWhile]. change (isWhiteSpace minus) with false. cbv iota.
  rewrite reverse_cons, dropWhile_app_stop, reverse_app by reflexivity.
  reflexivity.
Qed.

Lemma uiAmountToBN_zero s d :
  trim s = [] \/ startsWith minus (trim s) = true -> uiAmountToBN s d = Ok 0%Z.
Proof.
  unfold uiAmountToBN. intros [->| H]; [reflexivity|].
  destruct (trim s); [reflexivity|]. rewrite H. reflexivity.
Qed.

Lemma forallb_reverse (q : N -> bool) s :
  forallb q s = true -> forallb q (reverse s) = true.
Proof.
  rewrite !forallb_forall. intros H c Hc. apply H.
  apply list_elem_of_In, elem_of_reverse, list_elem_of_In, Hc.
Qed.

Lemma forallb_split (q : N -> bool) sep s :
  forallb q s = true ->
  Forall (fun seg => forallb q seg = true) (split sep s).
Proof.
  induction s as [|c s IH]; simpl; [repeat constructor|].
  intros [Hc Hs]%andb_true_iff. specialize (IH Hs).
  destruct (c =? sep); [constructor; [reflexivity | exact IH]|].
  destruct (split sep s) as [|seg segs]; [repeat constructor; simpl; rewrite Hc; reflexivity|].
  inversion IH; subst. constructor; [|assumption]. simpl. rewrite Hc. assumption.
Qed.

Lemma forallb_nth (q : N -> bool) (l : list JsString.t) i dflt :
  Forall (fun seg => forallb q seg = true) l -> forallb q dflt = true ->
  forallb q (nth i l dflt) = true.
Proof.
  intros H Hd. revert i. induction H as [|a l Ha Hl IH]; intros [|i]; simpl; auto.
Qed.

Lemma forallb_orElse (q : N -> bool) s dflt :
  forallb q s = true -> forallb q dflt = true -> forallb q (orElse s dflt) = true.
Proof. destruct s; auto. Qed.

Lemma forallb_stripZerosBeforeDigit (q : N -> bool) s :
  q char0 = true -> forallb q s = true ->
  forallb q (stripZerosBeforeDigit s) = true.
Proof.
  intros H0 H. destruct (stripZerosBeforeDigit_shape s) as [j ->].
  rewrite forallb_app. apply andb_true_iff. split.
  - induction j; simpl; [reflexivity | rewrite H0; assumption].
  - apply forallb_dropWhile, H.
Qed.

Lemma combinedDigits_notMinus s d :
  forallb notMinus s = true -> forallb notMinus (combinedDigits s d) = true.
Proof.
  intros H. pose proof (forallb_split notMinus dot s H) as P.
  unfold combinedDigits.
  apply forallb_orElse; [|reflexivity]. apply forallb_dropWhile.
  rewrite forallb_app. apply andb_true_iff. split.
  - apply forallb_orElse; [|reflexivity].
    apply forallb_stripZerosBeforeDigit; [reflexivity|].
    apply forallb_nth; [exact P | reflexivity].
  - unfold padEnd, substring0. rewrite forallb_app. apply andb_true_iff. split.
    + apply forallb_take, forallb_nth; [exact P | reflexivity].
    + generalize (d - length (take d (nth 1 (split dot s) [])))%nat.
      intros k. induction k; simpl; auto.
Qed.

Lemma ofString_notMinus s a :
  forallb notMinus s = true -> BN.ofString s = Ok a -> BN.isNeg a = false.
Proof.
  intros H. unfold BN.ofString.
  destruct s as [|c0 s0]; [intros [= <-]; reflexivity|].
  set (number := List.filter _ (c0 :: s0)).
  assert (M : startsWith minus number = false).
  { assert (F : forallb notMinus number = true).
    { rewrite forallb_forall in *. intros c Hc. apply H.
      apply filter_In in Hc as [Hc _]. exact Hc. }
    destruct number as [|c r]; [reflexivity|]. simpl in *.
    apply andb_true_iff in F as [F _]. apply negb_true_iff, F. }
  rewrite M. destruct number as [|c r]; [intros [= <-]; reflexivity|].
  destruct (forallb isDigit (c :: r)); [|discriminate].
  intros [= <-]. cbn. apply Z.ltb_ge. lia.
Qed.

Lemma notMinus_forallb s : minus ∉ s -> forallb notMinus s = true.
Proof.
  intros H. rewrite forallb_forall. intros c Hc%list_elem_of_In.
  apply negb_true_iff, N.eqb_neq. intros ->. contradiction.
Qed.

Lemma uiAmountToBN_notMinus s d a :
  minus ∉ s -> uiAmountToBN s d = Ok a -> BN.isNeg a = false.
Proof.
  intros Hs%notMinus_forallb. unfold uiAmountToBN.
  assert (T : forallb notMinus (trim s) = true).
  { unfold trim. apply forallb_reverse, forallb_dropWhile, forallb_reverse,
      forallb_dropWhile, Hs. }
  destruct (trim s) as [|c r] eqn:E; [intros [= <-]; reflexivity|].
  destruct (startsWith minus (c :: r)); [intros [= <-]; reflexivity|].
  apply ofString_notMinus, combinedDigits_notMinus, T.
Qed.


(** ** PoolResolver: [assertClmmPoolAccount] *)

Lemma assertClmmPoolAccount_run {Outside} (sdk : Sdk Outside)
    (connection : Connection Outside) poolId pubkey (w : World Outside) info o' :
  newPublicKey sdk poolId = Some pubkey ->
  getAccountInfo connection pubkey (outside w) = (Resolved info, o') ->
  assertClmmPoolAccount sdk connection poolId w
  = (match info with
     | None => Throw PoolNotFound
     | Some i =>
         if negb ((owner i =? CLMM_PROGRAM_ID sdk)
                  || match DEVNET_CLMM_PROGRAM_ID sdk with
                     | Some devnetId => owner i =? devnetId
                     | None => false
                     end)
         then Throw WrongProgramOwner
         else if (Z.of_nat (dataLength i) <? CLMM_POOL_ACCOUNT_SIZE sdk)%Z
              then Throw MalformedAccount
              else Ok pubkey
     end,
     {| outside := o'; calls := calls w ++ [GetAccountInfo pubkey] |}).
Proof.
  intros Hk Hi. unfold assertClmmPoolAccount, publicKeyOf, bind, perform, ret.
  rewrite Hk. cbn. rewrite Hi. destruct info as [i|]; [|reflexivity].
  unfold throw.
  destruct (negb _); [reflexivity|].
  destruct (_ <? _)%Z; reflexivity.
Qed.

Lemma ownerAllowed_spec {Outside} (sdk : Sdk Outside) (i : AccountInfo) :
  (owner i =? CLMM_PROGRAM_ID sdk)
  || match DEVNET_CLMM_PROGRAM_ID sdk with
     | Some devnetId => owner i =? devnetId
     | None => false
     end = true
  <-> owner i = CLMM_PROGRAM_ID sdk \/ DEVNET_CLMM_PROGRAM_ID sdk = Some (owner i).
Proof.
  rewrite orb_true_iff, N.eqb_eq.
  destruct (DEVNET_CLMM_PROGRAM_ID sdk) as [d|].
  - rewrite N.eqb_eq. split; (intros [H|H]; [left; exact H | right; congruence]).
  - split; (intros [H|H]; [left; exact H | discriminate]).
Qed.

(** C3 as stated fails: on a devnet connection an account owned by the
    mainnet CLMM program is accepted, although it is not the program of the
    current network. *)
Lemma C3_other_network_owner_accepted :
  let connection := Reference.connection "https://api.devnet.solana.com" in
  let r := fst (assertClmmPoolAccount Reference.sdk connection (js "50")
                  Reference.world) in
  detectCluster connection = devnet
  /\ networkProgramId Reference.sdk devnet = Some 2
  /\ Reference.chain !! 50 = Some {| owner := 1; dataLength := 1544 |}
  /\ r = Ok 50
  /\ ~ (r = Throw WrongProgramOwner
        <-> exists i, Reference.chain !! 50 = Some i
                      /\ Some (owner i)
                         <> networkProgramId Reference.sdk (detectCluster connection)).
Proof.
  cbv zeta. repeat split; try reflexivity.
  intros [_ H].
  assert (E : fst (assertClmmPoolAccount Reference.sdk
                     (Reference.connection "https://api.devnet.solana.com")
                     (js "50") Reference.world) = Ok 50) by reflexivity.
  rewrite E in H. discriminate H.
  exists {| owner := 1; dataLength := 1544 |}. split; [reflexivity|].
  vm_compute. discriminate.
Qed.

(** C3 (amended). For a well-formed address whose account lookup is
    answered, [assertClmmPoolAccount] makes that one lookup and then, in
    this order: fails with [PoolNotFound] exactly when there is no account;
    fails with [WrongProgramOwner] exactly when the account's owner is
    neither the mainnet CLMM program nor the devnet one (either is accepted
    on any network); fails with [MalformedAccount] exactly when the owner is
    accepted and the data are shorter than the CLMM pool layout; and
    returns the address otherwise.  The three errors are distinct and have
    distinct messages. *)
Theorem C3_pool_resolution {Outside} (sdk : Sdk Outside)
    (connection : Connection Outside) (poolId : JsString.t)
    (pubkey : PublicKey) (w : World Outside)
    (info : option AccountInfo) (o' : Outside) :
  newPublicKey sdk poolId = Some pubkey ->
  getAccountInfo connection pubkey (outside w) = (Resolved info, o') ->
  let r := fst (assertClmmPoolAccount sdk connection poolId w) in
  let ownerAllowed i :=
    owner i = CLMM_PROGRAM_ID sdk \/ DEVNET_CLMM_PROGRAM_ID sdk = Some (owner i) in
  (r = Throw PoolNotFound <-> info = None)
  /\ (r = Throw WrongProgramOwner <-> exists i, info = Some i /\ ~ ownerAllowed i)
  /\ (r = Throw MalformedAccount
      <-> exists i, info = Some i /\ ownerAllowed i
                    /\ (Z.of_nat (dataLength i) < CLMM_POOL_ACCOUNT_SIZE sdk)%Z)
  /\ (r = Ok pubkey
      <-> exists i, info = Some i /\ ownerAllowed i
                    /\ (CLMM_POOL_ACCOUNT_SIZE sdk <= Z.of_nat (dataLength i))%Z)
  /\ snd (assertClmmPoolAccount sdk connection poolId w)
     = {| outside := o'; calls := calls w ++ [GetAccountInfo pubkey] |}
  /\ errorMessage PoolNotFound <> errorMessage WrongProgramOwner
  /\ errorMessage WrongProgramOwner <> errorMessage MalformedAccount
  /\ errorMessage PoolNotFound <> errorMessage MalformedAccount.
Proof.
  intros Hk Hi. cbv zeta.
  rewrite (assertClmmPoolAccount_run sdk connection poolId pubkey w info o' Hk Hi).
  cbn [fst snd].
  assert (M : errorMessage PoolNotFound <> errorMessage WrongProgramOwner
              /\ errorMessage WrongProgramOwner <> errorMessage MalformedAccount
              /\ errorMessage PoolNotFound <> errorMessage MalformedAccount).
  { repeat split; discriminate. }
  destruct info as [i|].
  - pose proof (ownerAllowed_spec sdk i) as A.
    destruct (_ || _) eqn:Ho; cbn [negb].
    + assert (Ha : owner i = CLMM_PROGRAM_ID sdk
                   \/ DEVNET_CLMM_PROGRAM_ID sdk = Some (owner i))
        by (apply A; reflexivity).
      destruct (Z.ltb_spec (Z.of_nat (dataLength i)) (CLMM_POOL_ACCOUNT_SIZE sdk)).
      * split; [split; discriminate|].
        split; [split; [discriminate | intros (j & [= <-] & Hn); contradiction]|].
        split; [split; [intros _; exists i; auto | reflexivity]|].
        split; [split; [discriminate | intros (j & [= <-] & _ & Hl); lia]|].
        split; [reflexivity | exact M].
      * split; [split; discriminate|].
        split; [split; [discriminate | intros (j & [= <-] & Hn); contradiction]|].
        split; [split; [discriminate | intros (j & [= <-] & _ & Hl); lia]|].
        split; [split; [intros _; exists i; auto | reflexivity]|].
        split; [reflexivity | exact M].
    + assert (Hn : ~ (owner i = CLMM_PROGRAM_ID sdk
                      \/ DEVNET_CLMM_PROGRAM_ID sdk = Some (owner i))).
      { intros H. apply A in H. discriminate. }
      split; [split; discriminate|].
      split; [split; [intros _; exists i; auto | reflexivity]|].
      split; [split; [discriminate | intros (j & [= <-] & Ha & _); contradiction]|].
      split; [split; [discriminate | intros (j & [= <-] & Ha & _); contradiction]|].
      split; [reflexivity | exact M].
  - split; [split; reflexivity|].
    split; [split; [discriminate | intros (j & Hj & _); discriminate]|].
    split; [split; [discriminate | intros (j & Hj & _); discriminate]|].
    split; [split; [discriminate | intros (j & Hj & _); discriminate]|].
    split; [reflexivity | exact M].
Qed.

Lemma C3_pool_resolution_witness :
  newPublicKey Reference.sdk (js "50") = Some 50
  /\ getAccountInfo (Reference.connection "https://api.devnet.solana.com") 50
       Reference.chain
     = (Resolved (Some {| owner := 1; dataLength := 1544 |}), Reference.chain)
  /\ fst (assertClmmPoolAccount Reference.sdk
            (Reference.connection "https://api.devnet.solana.com") (js "50")
            Reference.world) = Ok 50.
Proof.
  split; [reflexivity|]. split; [reflexivity|].
  apply (C3_pool_resolution Reference.sdk
           (Reference.connection "https://api.devnet.solana.com") (js "50") 50
           Reference.world (Some {| owner := 1; dataLength := 1544 |})
           Reference.chain eq_refl eq_refl).
  exists {| owner := 1; dataLength := 1544 |}.
  split; [reflexivity|]. split; [left; reflexivity|].
  vm_compute. discriminate.
Defined.

(** ** ClusterContext: [resolveSignAllTransactions] *)

Lemma signEach_in_turn {Outside}
    (signOne : VersionedTransaction -> External Outside VersionedTransaction)
    (transactions signed : list VersionedTransaction) (w : World Outside) :
  signEach (fun tx => perform (SignTransaction tx) (signOne tx)) transactions
    signed w
  = let '(r, o, k) := signInTurn signOne transactions (outside w) in
    (match r with
     | Resolved l => Ok (signed ++ l)
     | Rejected code => Throw (ExternalError code)
     end,
     {| outside := o;
        calls := calls w ++ List.map SignTransaction (take k transactions) |}).
Proof.
  revert signed w. induction transactions as [|tx rest IH]; intros signed w.
  - cbn. rewrite !app_nil_r. destruct w; reflexivity.
  - cbn [signEach signInTurn]. unfold bind at 1. unfold perform at 1.
    destruct (signOne tx (outside w)) as [[signedTx|code] o'].
    + rewrite IH. cbn [outside calls].
      destruct (signInTurn signOne rest o') as [[r o''] k].
      destruct r; cbn [take List.map]; rewrite <- ?app_assoc; reflexivity.
    + reflexivity.
Qed.

(** C8. [resolveSignAllTransactions] returns the wallet's own
    [signAllTransactions] whenever the wallet has one; without it, a signer
    that hands the transactions to [signTransaction] one at a time, in
    order, each on the state the previous one left, stopping at the first
    rejection; and it throws [WalletCannotSign] when the wallet has
    neither. *)
Theorem C8_signing_capability {Outside} (wallet : Wallet Outside) :
  (forall signAll,
      signAllTransactions wallet = Some signAll ->
      exists f, resolveSignAllTransactions wallet = Ok f
        /\ forall txs w,
             f txs w = perform (SignAllTransactions txs) (signAll txs) w)
  /\ (forall signOne,
      signAllTransactions wallet = None ->
      signTransaction wallet = Some signOne ->
      exists f, resolveSignAllTransactions wallet = Ok f
        /\ forall txs w,
             f txs w
             = let '(r, o, k) := signInTurn signOne txs (outside w) in
               (match r with
                | Resolved signed => Ok signed
                | Rejected code => Throw (ExternalError code)
                end,
                {| outside := o;
                   calls := calls w ++ List.map SignTransaction (take k txs) |}))
  /\ (signAllTransactions wallet = None ->
      signTransaction wallet = None ->
      resolveSignAllTransactions wallet = Throw WalletCannotSign)
  /\ errorMessage WalletCannotSign
     = Some "Wallet cannot sign transactions via signAllTransactions."%string.
Proof.
  unfold resolveSignAllTransactions. split; [|split; [|split]].
  - intros signAll ->. eexists. split; reflexivity.
  - intros signOne -> ->. eexists. split; [reflexivity|].
    intros txs w. apply (signEach_in_turn signOne txs [] w).
  - intros -> ->. reflexivity.
  - reflexivity.
Qed.

Lemma C8_signing_capability_witness :
  signAllTransactions Reference.signOnlyWallet = None
  /\ (exists signOne, signTransaction Reference.signOnlyWallet = Some signOne)
  /\ exists f, resolveSignAllTransactions Reference.signOnlyWallet = Ok f
       /\ f [1; 2] Reference.world
          = (Ok [1001; 1002],
             {| outside := Reference.chain;
                calls := [SignTransaction 1; SignTransaction 2] |}).
Proof.
  split; [reflexivity|]. split; [eexists; reflexivity|].
  destruct (proj1 (proj2 (C8_signing_capability Reference.signOnlyWallet))
              _ eq_refl eq_refl) as (f & Hf & Hrun).
  exists f. split; [exact Hf|]. rewrite Hrun. reflexivity.
Defined.

(** ** Reasoning on the log of calls *)

Section Emits.

Context {Outside : Type}.

Lemma emits_ret {A} (a : A) (Q : result A -> list Call -> Prop) :
  Q (Ok a) [] -> emits (Outside := Outside) (ret a) Q.
Proof. intros H w. exists []. rewrite app_nil_r. auto. Qed.

Lemma emits_throw {A} e (Q : result A -> list Call -> Prop) :
  Q (Throw e) [] -> emits (Outside := Outside) (throw e) Q.
Proof. intros H w. exists []. rewrite app_nil_r. auto. Qed.

Lemma emits_ofResult {A} (r : result A) (Q : result A -> list Call -> Prop) :
  Q r [] -> emits (Outside := Outside) (ofResult r) Q.
Proof. destruct r; [apply emits_ret | apply emits_throw]. Qed.

Lemma emits_perform {A} c (op : External Outside A)
    (Q : result A -> list Call -> Prop) :
  (forall a, Q (Ok a) [c]) ->
  (forall code, Q (Throw (ExternalError code)) [c]) ->
  emits (perform c op) Q.
Proof.
  intros Hok Hrej w. exists [c]. unfold perform.
  destruct (op (outside w)) as [[a|code] o]; cbn; auto.
Qed.

Lemma emits_bind {A B} (m : M Outside A) (k : A -> M Outside B)
    (Q1 : result A -> list Call -> Prop) (Q2 : A -> result B -> list Call -> Prop)
    (Q : result B -> list Call -> Prop) :
  emits m Q1 ->
  (forall a, emits (k a) (Q2 a)) ->
  (forall a new1 r new2, Q1 (Ok a) new1 -> Q2 a r new2 -> Q r (new1 ++ new2)) ->
  (forall e new1, Q1 (Throw e) new1 -> Q (Throw e) new1) ->
  emits (bind m k) Q.
Proof.
  intros Hm Hk Hok Hthrow w. unfold bind.
  destruct (Hm w) as (new1 & E1 & H1).
  destruct (m w) as [[a|e] w1]; cbn [fst snd] in *.
  - destruct (Hk a w1) as (new2 & E2 & H2).
    exists (new1 ++ new2). rewrite E2, E1, app_assoc. split; [reflexivity|].
    eapply Hok; eassumption.
  - exists new1. split; [exact E1 | auto].
Qed.

Lemma emits_bind_ret {A B} (a : A) (k : A -> M Outside B)
    (Q : result B -> list Call -> Prop) :
  emits (k a) Q -> emits (bind (ret a) k) Q.
Proof. intros H w. exact (H w). Qed.

Lemma emits_bind_throw {A B} e (k : A -> M Outside B)
    (Q : result B -> list Call -> Prop) :
  Q (Throw e) [] -> emits (bind (throw e) k) Q.
Proof. intros H w. exists []. cbn. rewrite app_nil_r. auto. Qed.

Lemma emits_weaken {A} (m : M Outside A) (Q Q' : result A -> list Call -> Prop) :
  emits m Q -> (forall r new, Q r new -> Q' r new) -> emits m Q'.
Proof.
  intros H HQ w. destruct (H w) as (new & E & Hn). exists new. auto.
Qed.

End Emits.

(** ** AccountProvisioner: [ensureAtaExists] *)

Lemma submissions_app a b : submissions (a ++ b) = (submissions a + submissions b)%nat.
Proof. unfold submissions. rewrite List.filter_app, length_app. reflexivity. Qed.

Lemma ensureAtaExists_present {Outside} (sdk : Sdk Outside)
    (connection : Connection Outside) (wallet : Wallet Outside) owner mint
    (w : World Outside) info o' :
  getAccountInfo connection (associatedTokenAddress sdk owner mint) (outside w)
  = (Resolved (Some info), o') ->
  ensureAtaExists sdk connection wallet owner mint w
  = (Ok (associatedTokenAddress sdk owner mint),
     {| outside := o';
        calls := calls w ++ [GetAccountInfo (associatedTokenAddress sdk owner mint)] |}).
Proof.
  intros H. unfold ensureAtaExists, bind, perform. rewrite H. reflexivity.
Qed.

(** One call makes at most one [sendTransaction]. *)
Lemma ensureAtaExists_calls {Outside} (sdk : Sdk Outside)
    (connection : Connection Outside) (wallet : Wallet Outside) owner mint
    (w : World Outside) :
  exists new,
    calls (snd (ensureAtaExists sdk connection wallet owner mint w))
    = calls w ++ new
    /\ (submissions new <= 1)%nat.
Proof.
  assert (H : emits (ensureAtaExists sdk connection wallet owner mint)
                (fun _ new => (submissions new <= 1)%nat)).
  { unfold ensureAtaExists.
    apply emits_bind with
      (Q1 := fun _ new => submissions new = 0%nat)
      (Q2 := fun _ _ new => (submissions new <= 1)%nat).
    - apply emits_perform; reflexivity.
    - intros [info|].
      + apply emits_ret. cbn. lia.
      + destruct (sendTransaction wallet) as [send|]; [|apply emits_throw; cbn; lia].
        apply emits_bind with
          (Q1 := fun _ new => submissions new = 1%nat)
          (Q2 := fun _ _ new => submissions new = 0%nat).
        * apply emits_perform; reflexivity.
        * intros signature.
          apply emits_bind with
            (Q1 := fun _ new => submissions new = 0%nat)
            (Q2 := fun _ _ new => submissions new = 0%nat).
          -- apply emits_perform; reflexivity.
          -- intros latest.
             apply emits_bind with
               (Q1 := fun _ new => submissions new = 0%nat)
               (Q2 := fun _ _ new => submissions new = 0%nat).
             ++ apply emits_perform; reflexivity.
             ++ intros _. apply emits_ret. reflexivity.
             ++ intros. rewrite submissions_app. lia.
             ++ auto.
          -- intros. rewrite submissions_app. lia.
          -- auto.
        * intros. rewrite submissions_app. lia.
        * intros. lia.
    - intros. rewrite submissions_app. lia.
    - intros. lia. }
  exact (H w).
Qed.

(** After a call that returned, a well-behaved network shows the account. *)
Lemma ensureAtaExists_then_visible {Outside} (sdk : Sdk Outside)
    (connection : Connection Outside) (wallet : Wallet Outside) owner mint
    (w : World Outside) a :
  lookupStable connection (associatedTokenAddress sdk owner mint) ->
  confirmedCreationVisible sdk connection wallet owner mint ->
  fst (ensureAtaExists sdk connection wallet owner mint w) = Ok a ->
  exists info,
    fst (getAccountInfo connection (associatedTokenAddress sdk owner mint)
           (outside (snd (ensureAtaExists sdk connection wallet owner mint w))))
    = Resolved (Some info).
Proof.
  intros Hs Hv. unfold ensureAtaExists, bind, perform. cbv zeta.
  destruct (getAccountInfo connection _ (outside w)) as [[[info|]|code] o0] eqn:E0;
    cbv beta iota delta [outside calls fst snd]; [| |discriminate].
  - intros _. eapply Hs, E0.
  - destruct (sendTransaction wallet) as [send|] eqn:Es; [|discriminate].
    destruct (send (createAtaTransaction sdk owner
                      (associatedTokenAddress sdk owner mint) mint) connection o0)
      as [[signature|code] o1] eqn:E1;
      cbv beta iota delta [outside calls fst snd]; [|discriminate].
    destruct (getLatestBlockhash connection o1) as [[latest|code] o2] eqn:E2;
      cbv beta iota delta [outside calls fst snd]; [|discriminate].
    destruct (confirmTransaction connection signature latest Confirmed o2)
      as [[u|code] o3] eqn:E3; cbv beta iota delta [outside calls fst snd]; [|discriminate].
    intros _. eapply (Hv send (outside w)); eassumption.
Qed.

(** C7. [ensureAtaExists] is idempotent in sequence: when the associated
    account is found on chain the call returns its address after that one
    lookup, without any [sendTransaction]; any call submits at most one
    transaction; so of two calls in sequence for the same owner and mint,
    where the second finds the account, the second submits nothing and the
    two together submit at most one creation.  The second call does find
    the account whenever the first call returned and the network is well
    behaved (a lookup does not remove the account, a confirmed creation
    makes it visible). *)
Theorem C7_ensure_idempotent {Outside} (sdk : Sdk Outside)
    (connection : Connection Outside) (wallet : Wallet Outside)
    (owner mint : PublicKey) :
  let ata := associatedTokenAddress sdk owner mint in
  let ensure := ensureAtaExists sdk connection wallet owner mint in
  (forall w info o',
      getAccountInfo connection ata (outside w) = (Resolved (Some info), o') ->
      ensure w = (Ok ata, {| outside := o'; calls := calls w ++ [GetAccountInfo ata] |})
      /\ submissions (calls (snd (ensure w))) = submissions (calls w))
  /\ (forall w, (submissions (calls (snd (ensure w))) <= submissions (calls w) + 1)%nat)
  /\ (forall w info o',
      let w1 := snd (ensure w) in
      getAccountInfo connection ata (outside w1) = (Resolved (Some info), o') ->
      fst (ensure w1) = Ok ata
      /\ submissions (calls (snd (ensure w1))) = submissions (calls w1)
      /\ (submissions (calls (snd (ensure w1))) <= submissions (calls w) + 1)%nat)
  /\ (lookupStable connection ata ->
      confirmedCreationVisible sdk connection wallet owner mint ->
      forall w a,
        fst (ensure w) = Ok a ->
        let w1 := snd (ensure w) in
        fst (ensure w1) = Ok ata
        /\ submissions (calls (snd (ensure w1))) = submissions (calls w1)
        /\ (submissions (calls (snd (ensure w1))) <= submissions (calls w) + 1)%nat).
Proof.
  cbv zeta.
  assert (A : forall w info o',
             getAccountInfo connection (associatedTokenAddress sdk owner mint)
               (outside w) = (Resolved (Some info), o') ->
             ensureAtaExists sdk connection wallet owner mint w
             = (Ok (associatedTokenAddress sdk owner mint),
                {| outside := o';
                   calls := calls w
                            ++ [GetAccountInfo (associatedTokenAddress sdk owner mint)] |})
             /\ submissions
                  (calls (snd (ensureAtaExists sdk connection wallet owner mint w)))
                = submissions (calls w)).
  { intros w info o' H.
    rewrite (ensureAtaExists_present sdk connection wallet owner mint w info o' H).
    split; [reflexivity|]. cbn [snd calls]. rewrite submissions_app. cbn. lia. }
  assert (B : forall w,
             (submissions
                (calls (snd (ensureAtaExists sdk connection wallet owner mint w)))
              <= submissions (calls w) + 1)%nat).
  { intros w.
    destruct (ensureAtaExists_calls sdk connection wallet owner mint w)
      as (new & -> & Hn).
    rewrite submissions_app. lia. }
  assert (C : forall w info o',
             getAccountInfo connection (associatedTokenAddress sdk owner mint)
               (outside (snd (ensureAtaExists sdk connection wallet owner mint w)))
             = (Resolved (Some info), o') ->
             fst (ensureAtaExists sdk connection wallet owner mint
                    (snd (ensureAtaExists sdk connection wallet owner mint w)))
             = Ok (associatedTokenAddress sdk owner mint)
             /\ submissions
                  (calls (snd (ensureAtaExists sdk connection wallet owner mint
                     (snd (ensureAtaExists sdk connection wallet owner mint w)))))
                = submissions
                    (calls (snd (ensureAtaExists sdk connection wallet owner mint w)))
             /\ (submissions
                   (calls (snd (ensureAtaExists sdk connection wallet owner mint
                      (snd (ensureAtaExists sdk connection wallet owner mint w)))))
                 <= submissions (calls w) + 1)%nat).
  { intros w info o' H. destruct (A _ info o' H) as [E S].
    rewrite S. split; [rewrite E; reflexivity|]. split; [reflexivity | apply B]. }
  split; [exact A|]. split; [exact B|]. split; [exact C|].
  intros Hs Hv w a Ha.
  destruct (ensureAtaExists_then_visible sdk connection wallet owner mint w a
              Hs Hv Ha) as (info & Hi).
  destruct (getAccountInfo connection (associatedTokenAddress sdk owner mint)
              (outside (snd (ensureAtaExists sdk connection wallet owner mint w))))
    as [r o'] eqn:E.
  cbn [fst] in Hi. subst r. apply (C w info o' E).
Qed.

Lemma reference_lookupStable endpoint ata :
  lookupStable (Reference.connection endpoint) ata.
Proof.
  intros o info o'. cbn. intros [= H <-]. exists info. rewrite H. reflexivity.
Qed.

Lemma reference_confirmedCreationVisible endpoint owner mint :
  confirmedCreationVisible Reference.sdk (Reference.connection endpoint)
    Reference.wallet owner mint.
Proof.
  intros send o o0 signature o1 latest o2 u o3. cbn.
  intros [= <-] [= Hnone <-] [= _ <-] [= _ <-] [= _ <-].
  rewrite Hnone. eexists. rewrite lookup_insert_eq. reflexivity.
Qed.

(** On the reference network: the account is missing, the first call
    creates it with one transaction, the second call finds it. *)
Lemma C7_ensure_idempotent_witness :
  let ensure := ensureAtaExists Reference.sdk (Reference.connection "devnet")
                  Reference.wallet 10 20 in
  let w1 := snd (ensure Reference.world) in
  lookupStable (Reference.connection "devnet")
    (associatedTokenAddress Reference.sdk 10 20)
  /\ confirmedCreationVisible Reference.sdk (Reference.connection "devnet")
       Reference.wallet 10 20
  /\ Reference.chain !! 10020 = None
  /\ fst (ensure Reference.world) = Ok 10020
  /\ submissions (calls w1) = 1%nat
  /\ fst (ensure w1) = Ok 10020
  /\ submissions (calls (snd (ensure w1))) = 1%nat.
Proof.
  cbv zeta.
  pose proof (reference_lookupStable "devnet"
                (associatedTokenAddress Reference.sdk 10 20)) as Hs.
  pose proof (reference_confirmedCreationVisible "devnet" 10 20) as Hv.
  split; [exact Hs|]. split; [exact Hv|].
  split; [reflexivity|]. split; [reflexivity|]. split; [reflexivity|].
  destruct (proj2 (proj2 (proj2 (C7_ensure_idempotent Reference.sdk
                                   (Reference.connection "devnet")
                                   Reference.wallet 10 20)))
              Hs Hv Reference.world 10020 eq_refl) as (E & S & _).
  split; [exact E|]. rewrite S. reflexivity.
Defined.

(** ** Where [performClmmSwap] validates *)

Section Validation.

Context {Outside : Type} (sdk : Sdk Outside) (connection : Connection Outside)
  (wallet : Wallet Outside).

Lemma quietly_bind {A B} (m : M Outside A) (k : A -> M Outside B) :
  emits m quietly -> (forall a, emits (k a) quietly) -> emits (bind m k) quietly.
Proof.
  intros Hm Hk. eapply emits_bind; [exact Hm | exact Hk | |].
  - intros a new1 r new2 [H1 _] [H2 E2]. split; [|exact E2].
    rewrite forallb_app, H1, H2. reflexivity.
  - intros e new1 [H1 E1]. split; [exact H1|].
    intros e' [= <-]. apply E1. reflexivity.
Qed.

Lemma quietly_perform {A} c (op : External Outside A) :
  setupCall c = true -> emits (perform c op) quietly.
Proof.
  intros Hc. apply emits_perform; intros; (split; [cbn; rewrite Hc; reflexivity|]).
  - discriminate.
  - intros e [= <-]. reflexivity.
Qed.

Lemma quietly_ret {A} (a : A) : emits (Outside := Outside) (ret a) quietly.
Proof. apply emits_ret. split; [reflexivity | discriminate]. Qed.

Lemma quietly_throw {A} e :
  validationError e = false -> emits (Outside := Outside) (A := A) (throw e) quietly.
Proof.
  intros He. apply emits_throw. split; [reflexivity|]. intros e' [= <-]. exact He.
Qed.

Lemma noValidationError_bind {A B} (m : M Outside A) (k : A -> M Outside B) :
  emits m noValidationError -> (forall a, emits (k a) noValidationError) ->
  emits (bind m k) noValidationError.
Proof.
  intros Hm Hk. eapply emits_bind; [exact Hm | exact Hk | |].
  - intros a new1 r new2 _ H2. exact H2.
  - intros e new1 H1 e' [= <-]. apply H1. reflexivity.
Qed.

Lemma noValidationError_perform {A} c (op : External Outside A) :
  emits (perform c op) noValidationError.
Proof.
  apply emits_perform; intros; intros e; [discriminate|].
  intros [= <-]. reflexivity.
Qed.

Lemma noValidationError_throw {A} e :
  validationError e = false ->
  emits (Outside := Outside) (A := A) (throw e) noValidationError.
Proof. intros He. apply emits_throw. intros e' [= <-]. exact He. Qed.

Lemma noValidationError_ret {A} (a : A) :
  emits (Outside := Outside) (ret a) noValidationError.
Proof. apply emits_ret. intros e. discriminate. Qed.

Lemma quietly_publicKeyOf s : emits (publicKeyOf sdk s) quietly.
Proof.
  unfold publicKeyOf. destruct (newPublicKey sdk s).
  - apply quietly_ret.
  - apply quietly_throw. reflexivity.
Qed.

Lemma quietly_createRaydiumContext :
  emits (createRaydiumContext sdk connection wallet) quietly.
Proof.
  unfold createRaydiumContext. destruct (publicKey wallet) as [walletKey|].
  - apply quietly_bind.
    + unfold resolveSignAllTransactions.
      destruct (signAllTransactions wallet); [apply quietly_ret|].
      destruct (signTransaction wallet); [apply quietly_ret|].
      apply quietly_throw. reflexivity.
    + intros signAll. apply quietly_bind; [apply quietly_perform; reflexivity|].
      intros r. apply quietly_ret.
  - apply quietly_throw. reflexivity.
Qed.

Lemma quietly_ensureAtaExists owner mint :
  emits (ensureAtaExists sdk connection wallet owner mint) quietly.
Proof.
  unfold ensureAtaExists.
  apply quietly_bind; [apply quietly_perform; reflexivity|].
  intros [info|]; [apply quietly_ret|].
  destruct (sendTransaction wallet) as [send|]; [|apply quietly_throw; reflexivity].
  apply quietly_bind; [apply quietly_perform; reflexivity|]. intros signature.
  apply quietly_bind; [apply quietly_perform; reflexivity|]. intros latest.
  apply quietly_bind; [apply quietly_perform; reflexivity|]. intros _.
  apply quietly_ret.
Qed.

Lemma lately_bind_quietly {A B} poolIdStr (m : M Outside A) (k : A -> M Outside B) :
  emits m quietly -> (forall a, emits (k a) (lately poolIdStr)) ->
  emits (bind m k) (lately poolIdStr).
Proof.
  intros Hm Hk. eapply emits_bind; [exact Hm | exact Hk | |].
  - intros a new1 r new2 [H1 _] H2 e Hr He.
    destruct (H2 e Hr He) as (rest & -> & Hrest).
    exists (new1 ++ rest). rewrite app_assoc, forallb_app, H1, Hrest. auto.
  - intros e new1 [_ E1] e' [= <-] He. rewrite (E1 e eq_refl) in He. discriminate.
Qed.

Lemma uiAmountToBN_throws s d e :
  uiAmountToBN s d = Throw e -> e = InvalidCharacter.
Proof.
  unfold uiAmountToBN. destruct (trim s); [discriminate|].
  destruct (startsWith minus _); [discriminate|].
  unfold BN.ofString. destruct (combinedDigits _ _); [discriminate|].
  match goal with
  | |- context [match ?b with [] => _ | _ :: _ => _ end] =>
      destruct b; [discriminate|]
  end.
  destruct (forallb isDigit _); [discriminate|].
  intros [= <-]. reflexivity.
Qed.

End Validation.

Section ValidationOrder.

Context {Outside : Type} (sdk : Sdk Outside) (connection : Connection Outside)
  (wallet : Wallet Outside).

Lemma pure_publicKeyOf s :
  emits (publicKeyOf sdk s)
    (fun r new => new = [] /\ forall e, r = Throw e -> validationError e = false).
Proof.
  unfold publicKeyOf. destruct (newPublicKey sdk s).
  - apply emits_ret. split; [reflexivity | discriminate].
  - apply emits_throw. split; [reflexivity|]. intros e [= <-]. reflexivity.
Qed.

Lemma assertClmmPoolAccount_emits poolId :
  emits (assertClmmPoolAccount sdk connection poolId)
    (fun r new =>
       (forall pubkey, r = Ok pubkey ->
          newPublicKey sdk poolId = Some pubkey /\ new = [GetAccountInfo pubkey])
       /\ forall e, r = Throw e -> validationError e = false).
Proof.
  intros w. unfold assertClmmPoolAccount, publicKeyOf, bind, perform, ret, throw.
  destruct (newPublicKey sdk poolId) as [pubkey|].
  - exists [GetAccountInfo pubkey].
    destruct (getAccountInfo connection pubkey (outside w)) as [[[i|]|code] o];
      cbn [fst snd calls].
    + destruct (negb _); [|destruct (_ <? _)%Z]; cbn [fst snd calls];
        (split; [reflexivity|]); split; try discriminate;
        try (intros e [= <-]; reflexivity).
      intros pk [= <-]. auto.
    + split; [reflexivity|]. split; [discriminate|]. intros e [= <-]. reflexivity.
    + split; [reflexivity|]. split; [discriminate|]. intros e [= <-]. reflexivity.
  - exists []. cbn. rewrite app_nil_r. split; [reflexivity|].
    split; [discriminate|]. intros e [= <-]. reflexivity.
Qed.

Lemma performClmmSwap_emits poolId tokenInMint tokenOutMint amount slippageParam :
  emits (performClmmSwap sdk connection wallet poolId tokenInMint tokenOutMint
           amount slippageParam)
    (afterPoolFetch sdk poolId).
Proof.
  unfold performClmmSwap. cbv zeta.
  destruct (publicKey wallet) as [walletKey|];
    [|apply emits_throw; intros e [= <-]; discriminate].
  destruct (sendTransaction wallet) as [send|];
    [|apply emits_throw; intros e [= <-]; discriminate].
  (* the two mint addresses are parsed without any call *)
  apply emits_bind with (Q1 := fun r new => new = [] /\ forall e, r = Throw e -> validationError e = false)
                        (Q2 := fun _ => afterPoolFetch sdk poolId);
    [apply pure_publicKeyOf | intros inputMint
     | intros a new1 r new2 [-> _] H; exact H
     | intros e new1 [_ H] e' [= <-] He; rewrite (H e eq_refl) in He; discriminate].
  apply emits_bind with (Q1 := fun r new => new = [] /\ forall e, r = Throw e -> validationError e = false)
                        (Q2 := fun _ => afterPoolFetch sdk poolId);
    [apply pure_publicKeyOf | intros outputMint
     | intros a new1 r new2 [-> _] H; exact H
     | intros e new1 [_ H] e' [= <-] He; rewrite (H e eq_refl) in He; discriminate].
  (* the pool account check makes the first call *)
  eapply emits_bind with (Q2 := fun pubkey => lately (toBase58 sdk pubkey));
    [apply assertClmmPoolAccount_emits | intros poolPubkey | |].
  2: { intros pubkey new1 r new2 [H1 _] H2 e Hr He.
       destruct (H1 pubkey eq_refl) as [Hk ->].
       destruct (H2 e Hr He) as (rest & -> & Hrest).
       exists pubkey, rest. auto. }
  2: { intros e new1 [_ H] e' [= <-] He. rewrite (H e eq_refl) in He. discriminate. }
  (* set-up: SDK session, associated accounts, wallet accounts *)
  apply lately_bind_quietly; [apply quietly_createRaydiumContext | intros context].
  apply lately_bind_quietly; [apply quietly_ensureAtaExists | intros _].
  apply lately_bind_quietly; [apply quietly_ensureAtaExists | intros _].
  apply lately_bind_quietly; [apply quietly_perform; reflexivity | intros _].
  (* the pool fetch, then the checks *)
  eapply emits_bind with
    (Q1 := fun r new => new = [GetPoolInfoFromRpc (toBase58 sdk poolPubkey)]
                        /\ forall e, r = Throw e -> validationError e = false)
    (Q2 := fun _ => silently).
  - apply emits_perform; intros; (split; [reflexivity|]); [discriminate|].
    intros e [= <-]. reflexivity.
  - intros snapshot.
    destruct (findMint _ _) as [inputMintInfo|];
      [|apply emits_throw; intros e _ _; reflexivity].
    destruct (findMint _ _) as [outputMintInfo|];
      [|apply emits_throw; intros e _ _; reflexivity].
    eapply emits_bind with
      (Q1 := fun r new => new = [] /\ forall e, r = Throw e -> validationError e = false)
      (Q2 := fun _ => silently).
    + apply emits_ofResult. split; [reflexivity|].
      intros e He. apply uiAmountToBN_throws in He. subst e. reflexivity.
    + intros amountIn.
      destruct (nonPositive amountIn); [apply emits_throw; intros e _ _; reflexivity|].
      apply emits_weaken with (Q := noValidationError).
      * destruct (match tickData snapshot with Some cache => _ | None => None end)
          as [tickCache|];
          [|apply noValidationError_throw; reflexivity].
        destruct (computePoolInfo snapshot) as [computeInfo|];
          [|apply noValidationError_throw; reflexivity].
        apply noValidationError_bind; [apply noValidationError_perform|].
        intros epochInfo.
        destruct (negb _); [apply noValidationError_throw; reflexivity|].
        apply noValidationError_bind.
        { unfold publicKeyOf. destruct (newPublicKey sdk _).
          - apply noValidationError_ret.
          - apply noValidationError_throw. reflexivity. }
        intros observation.
        apply noValidationError_bind; [apply noValidationError_perform|].
        intros swapTx.
        apply noValidationError_bind; [apply noValidationError_perform|].
        intros txId. apply noValidationError_ret.
      * intros r new H e Hr He. rewrite (H e Hr) in He. discriminate.
    + intros a new1 r new2 [-> _] H. exact H.
    + intros e new1 [_ H] e' [= <-] He. rewrite (H e eq_refl) in He. discriminate.
  - intros snapshot new1 r new2 [-> _] H e Hr He.
    rewrite (H e Hr He). exists []. split; reflexivity.
  - intros e new1 [_ H] e' [= <-] He. rewrite (H e eq_refl) in He. discriminate.
Qed.

End ValidationOrder.

Lemma setupCall_not_swapCall c : setupCall c = true -> swapCall c = false.
Proof. destruct c; simpl; congruence. Qed.

(** C2 as stated fails: with an input mint that is not in the pool (or a
    zero amount), the error comes after twelve calls, two of them
    submissions that create associated accounts. *)
Lemma C2_validation_after_network_calls :
  let run amount tokenIn :=
    performClmmSwap Reference.sdk (Reference.connection "devnet")
      Reference.wallet (js "50") tokenIn (js "21") amount None
      Reference.world in
  fst (run (js "0.5") (js "22")) = Throw TokenInNotInPool
  /\ fst (run (js "0") (js "20")) = Throw NonPositiveAmount
  /\ calls Reference.world = []
  /\ length (calls (snd (run (js "0.5") (js "22")))) = 12%nat
  /\ submissions (calls (snd (run (js "0.5") (js "22")))) = 2%nat
  /\ head (calls (snd (run (js "0") (js "20")))) = Some (GetAccountInfo 50)
  /\ last (calls (snd (run (js "0") (js "20")))) = Some (GetPoolInfoFromRpc (js "50"))
  /\ ~ (forall amount tokenIn e,
          fst (run amount tokenIn) = Throw e -> validationError e = true ->
          calls (snd (run amount tokenIn)) = calls Reference.world).
Proof.
  cbv zeta. do 7 (split; [vm_compute; reflexivity|]).
  intros H. specialize (H (js "0.5") (js "22") TokenInNotInPool eq_refl eq_refl).
  vm_compute in H. discriminate H.
Qed.

(** C2 (amended). In [performClmmSwap] the errors [TokenNotInPool] (input
    or output mint) and [NonPositiveAmount] are raised on the data of the
    pool fetch: when one of them is returned, the calls made are the lookup
    of the pool account first, the pool fetch [getPoolInfoFromRpc] last, and
    only calls of the set-up phase between them; the epoch was not fetched,
    and no swap transaction was built or executed. *)
Theorem C2_validation_follows_pool_fetch {Outside} (sdk : Sdk Outside)
    (connection : Connection Outside) (wallet : Wallet Outside)
    (poolId tokenInMint tokenOutMint amount : JsString.t)
    (slippageParam : option JsNumber) (w : World Outside) (e : Error) :
  let run := performClmmSwap sdk connection wallet poolId tokenInMint
               tokenOutMint amount slippageParam w in
  fst run = Throw e ->
  validationError e = true ->
  exists pubkey rest,
    newPublicKey sdk poolId = Some pubkey
    /\ calls (snd run)
       = calls w ++ GetAccountInfo pubkey :: rest
                 ++ [GetPoolInfoFromRpc (toBase58 sdk pubkey)]
    /\ forallb setupCall rest = true
    /\ forallb (fun c => negb (swapCall c))
         (GetAccountInfo pubkey :: rest
            ++ [GetPoolInfoFromRpc (toBase58 sdk pubkey)]) = true.
Proof.
  cbv zeta. intros Hr He.
  destruct (performClmmSwap_emits sdk connection wallet poolId tokenInMint
              tokenOutMint amount slippageParam w) as (new & E & H).
  destruct (H e Hr He) as (pubkey & rest & Hk & -> & Hrest).
  exists pubkey, rest. split; [exact Hk|]. split; [exact E|].
  split; [exact Hrest|].
  cbn [forallb swapCall negb]. rewrite forallb_app. cbn [forallb swapCall negb].
  rewrite andb_true_r, andb_true_l.
  rewrite forallb_forall in *. intros c Hc.
  rewrite (setupCall_not_swapCall c (Hrest c Hc)). reflexivity.
Qed.

Lemma C2_validation_follows_pool_fetch_witness :
  let run :=
    performClmmSwap Reference.sdk (Reference.connection "devnet")
      Reference.wallet (js "50") (js "22") (js "21") (js "0.5") None
      Reference.world in
  fst run = Throw TokenInNotInPool
  /\ validationError TokenInNotInPool = true
  /\ exists rest,
       calls (snd run) = GetAccountInfo 50 :: rest ++ [GetPoolInfoFromRpc (js "50")]
       /\ forallb setupCall rest = true.
Proof.
  cbv zeta. split; [reflexivity|]. split; [reflexivity|].
  destruct (C2_validation_follows_pool_fetch Reference.sdk
              (Reference.connection "devnet") Reference.wallet (js "50")
              (js "22") (js "21") (js "0.5") None Reference.world
              TokenInNotInPool eq_refl eq_refl)
    as (pubkey & rest & Hk & Hc & Hrest & _).
  injection Hk as <-. exists rest. split; [exact Hc | exact Hrest].
Defined.

(** ** PoolSnapshotService: the effect of [useClmmSwap] *)

Lemma runCleanup_length rs : length (runCleanup rs) = length rs.
Proof.
  unfold runCleanup. destruct (last rs) as [r|]; [|reflexivity].
  destruct (hasCleanup r); [apply length_insert | reflexivity].
Qed.

(** After the cleanup every pending run is cancelled. *)
Lemma runCleanup_cancels rs i r :
  runsInvariant rs -> runCleanup rs !! i = Some r -> pending r = true ->
  cancelled r = true.
Proof.
  intros J. unfold runCleanup. rewrite last_lookup.
  destruct (rs !! Nat.pred (length rs)) as [l|] eqn:L.
  - destruct (hasCleanup l) eqn:Hc.
    + rewrite list_lookup_insert_Some.
      intros [(_ & <- & _) | (Hne & Hi)] Hp; [reflexivity|].
      destruct (J i r Hi Hp) as [H|[_ H]]; [exact H | lia].
    + intros Hi Hp. destruct (J i r Hi Hp) as [H|[Hh Hl]]; [exact H|].
      assert (i = Nat.pred (length rs)) as -> by lia. congruence.
  - intros Hi Hp. destruct (J i r Hi Hp) as [H|[_ Hl]]; [exact H|].
    assert (i = Nat.pred (length rs)) as -> by lia. congruence.
Qed.

Lemma runsInvariant_cleanup rs : runsInvariant rs -> runsInvariant (runCleanup rs).
Proof.
  intros J i r Hi Hp. left. eapply runCleanup_cancels; eassumption.
Qed.

Lemma runsInvariant_step {Outside} (sdk : Sdk Outside) st ev :
  runsInvariant (runs st) -> runsInvariant (runs (hookStep sdk st ev)).
Proof.
  intros J. destruct ev as [poolAddress|i outcome|]; cbn [hookStep].
  - unfold runEffect. cbn [runs].
    assert (K : forall new,
               (pending new = true -> hasCleanup new = true) ->
               runsInvariant (runCleanup (runs st) ++ [new])).
    { intros new Hnew j r Hj Hp. rewrite length_app. cbn [length].
      apply lookup_snoc_Some in Hj as [[_ Hj]|[-> <-]].
      - left. eapply runCleanup_cancels; eassumption.
      - right. split; [auto | lia]. }
    destruct (negb (isValidAddress sdk poolAddress)); cbn [runs]; apply K;
      cbn; congruence.
  - destruct (runs st !! i) as [r|] eqn:Hi; [|exact J].
    destruct (pending r) eqn:Hp; [|exact J].
    assert (R : runs (settle r outcome
                        {| poolSnapshot := poolSnapshot st;
                           snapshotLoading := snapshotLoading st;
                           snapshotError := snapshotError st;
                           runs := <[ i := {| runAddress := runAddress r;
                                              cancelled := cancelled r;
                                              pending := false;
                                              hasCleanup := hasCleanup r |} ]>
                                     (runs st) |})
                = <[ i := {| runAddress := runAddress r;
                             cancelled := cancelled r;
                             pending := false;
                             hasCleanup := hasCleanup r |} ]> (runs st)).
    { unfold settle. destruct outcome, (cancelled r); reflexivity. }
    rewrite R. intros j q Hj Hq. rewrite length_insert.
    apply list_lookup_insert_Some in Hj as [(_ & <- & _)|(_ & Hj)].
    + discriminate Hq.
    + apply (J j q Hj Hq).
  - cbn [runs]. apply runsInvariant_cleanup, J.
Qed.

Lemma runsInvariant_fold {Outside} (sdk : Sdk Outside) events st :
  runsInvariant (runs st) ->
  runsInvariant (runs (fold_left (hookStep sdk) events st)).
Proof.
  revert st. induction events as [|ev events IH]; intros st J; [exact J|].
  cbn [fold_left]. apply IH, runsInvariant_step, J.
Qed.

Lemma runsInvariant_run {Outside} (sdk : Sdk Outside) events :
  runsInvariant (runs (hookRun sdk events)).
Proof.
  apply runsInvariant_fold. intros i r Hi. discriminate Hi.
Qed.

Lemma settledLate_refl rs : Forall2 settledLate rs rs.
Proof. induction rs; constructor; [left; reflexivity | assumption]. Qed.

Lemma runCleanup_snoc rs r :
  runCleanup (rs ++ [r])
  = rs ++ [if hasCleanup r
           then {| runAddress := runAddress r; cancelled := true;
                   pending := pending r; hasCleanup := false |}
           else r].
Proof.
  unfold runCleanup. rewrite last_snoc. destruct (hasCleanup r); [|reflexivity].
  rewrite length_app. cbn [length].
  rewrite insert_app_r_alt by lia.
  replace (length rs + 1 - 1 - length rs)%nat with 0%nat by lia. reflexivity.
Qed.

Lemma settledLate_cleanup rs rs' :
  Forall2 settledLate rs rs' ->
  Forall2 settledLate (runCleanup rs) (runCleanup rs').
Proof.
  destruct rs as [|r0 rs0] using rev_ind.
  - intros H. inversion H. constructor.
  - intros H. apply Forall2_app_inv_l in H as (k1 & k2 & H1 & H2 & ->).
    apply Forall2_cons_inv_l in H2 as (r' & k2' & Hr & Hl & ->).
    apply Forall2_nil_inv_l in Hl as ->.
    rewrite !runCleanup_snoc. apply Forall2_app; [exact H1|].
    constructor; [|constructor].
    destruct Hr as [->|[Hc ->]]; [left; reflexivity|]. cbn [hasCleanup].
    destruct (hasCleanup r0) eqn:Hh; right.
    + split; reflexivity.
    + split; [exact Hc|]. rewrite Hh. reflexivity.
Qed.

Lemma settle_shared r outcome st st' :
  shared st = shared st' ->
  shared (settle r outcome st) = shared (settle r outcome st').
Proof.
  unfold shared. intros [= Hs Hl He]. unfold settle.
  destruct outcome, (cancelled r); cbn; congruence.
Qed.

Lemma settle_runs r outcome st : runs (settle r outcome st) = runs st.
Proof. unfold settle. destruct outcome, (cancelled r); reflexivity. Qed.

Lemma settle_cancelled r outcome st :
  cancelled r = true -> shared (settle r outcome st) = shared st.
Proof. intros Hc. unfold settle. rewrite Hc. destruct outcome; reflexivity. Qed.

Lemma sameDisplay_step {Outside} (sdk : Sdk Outside) st st' ev :
  sameDisplay st st' -> sameDisplay (hookStep sdk st ev) (hookStep sdk st' ev).
Proof.
  intros [Hs Hr]. pose proof Hs as Hs'. unfold shared in Hs'.
  injection Hs' as Hp Hl He.
  destruct ev as [poolAddress|i outcome|]; cbn [hookStep].
  - unfold runEffect. cbn [poolSnapshot snapshotLoading snapshotError runs].
    destruct (negb (isValidAddress sdk poolAddress)); split;
      unfold shared; cbn [poolSnapshot snapshotLoading snapshotError runs];
      try congruence;
      (apply Forall2_app; [apply settledLate_cleanup, Hr | apply settledLate_refl]).
  - destruct (runs st !! i) as [r|] eqn:Hi.
    + destruct (Forall2_lookup_l _ _ _ _ _ Hr Hi) as (r' & Hi' & Hrr).
      rewrite Hi'.
      destruct Hrr as [->|[Hc ->]].
      * destruct (pending r); [|split; assumption].
        split.
        -- apply settle_shared. unfold shared. cbn. congruence.
        -- rewrite !settle_runs. cbn [runs].
           apply Forall2_insert; [exact Hr | left; reflexivity].
      * cbn [pending]. destruct (pending r) eqn:Hpd.
        -- split.
           ++ rewrite settle_cancelled by exact Hc. exact Hs.
           ++ rewrite settle_runs. cbn [runs].
              rewrite <- (list_insert_id (runs st') i _ Hi').
              apply Forall2_insert; [exact Hr|].
              rewrite Hc. left. reflexivity.
        -- split; [exact Hs | exact Hr].
    + assert (Hi' : runs st' !! i = None).
      { apply lookup_ge_None. rewrite <- (Forall2_length _ _ _ Hr).
        apply lookup_ge_None, Hi. }
      rewrite Hi'. split; assumption.
  - split; unfold shared; cbn [poolSnapshot snapshotLoading snapshotError runs];
      [congruence | apply settledLate_cleanup, Hr].
Qed.

Lemma sameDisplay_fold {Outside} (sdk : Sdk Outside) events st st' :
  sameDisplay st st' ->
  sameDisplay (fold_left (hookStep sdk) events st)
    (fold_left (hookStep sdk) events st').
Proof.
  revert st st'. induction events as [|ev events IH]; intros st st' H; [exact H|].
  cbn [fold_left]. apply IH, sameDisplay_step, H.
Qed.

Lemma sameDisplay_refl st : sameDisplay st st.
Proof. split; [reflexivity | apply settledLate_refl]. Qed.

(** Settling a superseded run changes nothing but that run's record. *)
Lemma sameDisplay_superseded {Outside} (sdk : Sdk Outside) st i outcome :
  runsInvariant (runs st) -> (S i < length (runs st))%nat ->
  sameDisplay st (hookStep sdk st (Settle i outcome)).
Proof.
  intros J Hi. cbn [hookStep].
  destruct (runs st !! i) as [r|] eqn:Hr; [|apply sameDisplay_refl].
  destruct (pending r) eqn:Hp; [|apply sameDisplay_refl].
  destruct (J i r Hr Hp) as [Hc|[_ Hl]]; [|lia].
  split.
  - rewrite settle_cancelled by exact Hc. reflexivity.
  - rewrite settle_runs. cbn [runs].
    rewrite <- (list_insert_id (runs st) i r Hr) at 1.
    apply Forall2_insert; [apply settledLate_refl|].
    right. split; [exact Hc|]. rewrite Hc. reflexivity.
Qed.

(** C5. Last request wins.  After any sequence of address changes,
    settlements and unmounts, the settlement of a run of the effect that a
    later run has superseded, whether it fulfils or rejects and whenever it
    arrives, leaves the snapshot, the error and the loading flag as they
    are, and whatever happens afterwards the component shows what it would
    have shown without that settlement; the settlement of the latest run,
    while it is pending and not cancelled, is the one that is applied. *)
Theorem C5_last_request_wins {Outside} (sdk : Sdk Outside)
    (events : list HookEvent) (i : nat) (outcome : Settlement) :
  let st := hookRun sdk events in
  ((S i < length (runs st))%nat ->
     shared (hookStep sdk st (Settle i outcome)) = shared st)
  /\ ((S i < length (runs st))%nat ->
      forall later,
        shared (hookRun sdk (events ++ Settle i outcome :: later))
        = shared (hookRun sdk (events ++ later)))
  /\ (forall r snapshot,
       runs st !! i = Some r -> pending r = true -> cancelled r = false ->
       S i = length (runs st)
       /\ shared (hookStep sdk st (Settle i (Fulfilled snapshot)))
          = (Some snapshot, false, snapshotError st)).
Proof.
  cbv zeta. pose proof (runsInvariant_run sdk events) as J.
  split; [|split].
  - intros Hi. symmetry.
    apply (sameDisplay_superseded sdk (hookRun sdk events) i outcome J Hi).
  - intros Hi later. unfold hookRun. rewrite !fold_left_app. cbn [fold_left].
    symmetry. apply sameDisplay_fold.
    apply (sameDisplay_superseded sdk (hookRun sdk events) i outcome J Hi).
  - set (st := hookRun sdk events) in *.
    intros r snapshot Hr Hp Hc.
    destruct (J i r Hr Hp) as [Hc'|[_ Hl]]; [congruence|].
    split; [exact Hl|]. cbn [hookStep]. rewrite Hr, Hp.
    unfold settle. rewrite Hc. reflexivity.
Qed.

(** Address A, then address B before A's fetch settles: whether A settles
    late, before B or after B, what is shown in the end is B's snapshot. *)
Lemma C5_last_request_wins_witness :
  let snapshotOf id :=
    {| snapshotId := id;
       snapshotMintA := {| address := js "20"; symbol := None; decimals := 9 |};
       snapshotMintB := {| address := js "21"; symbol := None; decimals := 6 |};
       snapshotPrice := 0; snapshotTickCurrent := 0 |} in
  let requests := [DepsChange (js "50"); DepsChange (js "51")] in
  let settleA := Settle 0 (Fulfilled (snapshotOf (js "50"))) in
  let settleB := Settle 1 (Fulfilled (snapshotOf (js "51"))) in
  (S 0 < length (runs (hookRun Reference.sdk requests)))%nat
  /\ shared (hookRun Reference.sdk (requests ++ [settleB]))
     = (Some (snapshotOf (js "51")), false, None)
  /\ shared (hookRun Reference.sdk (requests ++ settleA :: [settleB]))
     = shared (hookRun Reference.sdk (requests ++ [settleB]))
  /\ shared (hookStep Reference.sdk (hookRun Reference.sdk (requests ++ [settleB]))
               settleA)
     = shared (hookRun Reference.sdk (requests ++ [settleB])).
Proof.
  cbv zeta. split; [vm_compute; lia|]. split; [reflexivity|]. split.
  - apply (proj1 (proj2 (C5_last_request_wins Reference.sdk
                           [DepsChange (js "50"); DepsChange (js "51")] 0 _))).
    vm_compute. lia.
  - apply (proj1 (C5_last_request_wins Reference.sdk _ 0 _)). vm_compute. lia.
Defined.

(** ** What [performClmmSwap] does with the converted amount *)

Section GuardedAmount.

Context {Outside : Type} (sdk : Sdk Outside) (connection : Connection Outside)
  (wallet : Wallet Outside) (amount : JsString.t).

Lemma quietly_assertClmmPoolAccount poolId :
  emits (assertClmmPoolAccount sdk connection poolId) quietly.
Proof.
  unfold assertClmmPoolAccount.
  apply quietly_bind; [apply quietly_publicKeyOf | intros pubkey].
  apply quietly_bind; [apply quietly_perform; reflexivity | intros [info|]].
  - destruct (negb _); [apply quietly_throw; reflexivity|].
    destruct (_ <? _)%Z; [apply quietly_throw; reflexivity | apply quietly_ret].
  - apply quietly_throw. reflexivity.
Qed.

Lemma guardedSwaps_nil : guardedSwaps amount [].
Proof. intros p Hp. inversion Hp. Qed.

Lemma guardedSwaps_app new1 new2 :
  guardedSwaps amount new1 -> guardedSwaps amount new2 ->
  guardedSwaps amount (new1 ++ new2).
Proof.
  intros H1 H2 p Hp. apply elem_of_app in Hp as [Hp|Hp]; auto.
Qed.

Lemma guardedSwaps_other c :
  (forall p, c <> ClmmSwap p) -> guardedSwaps amount [c].
Proof.
  intros Hc p Hp. apply list_elem_of_singleton in Hp. symmetry in Hp.
  exfalso. exact (Hc p Hp).
Qed.

Lemma guardedSwaps_setup new :
  forallb setupCall new = true -> guardedSwaps amount new.
Proof.
  intros H p Hp. rewrite forallb_forall in H. apply list_elem_of_In in Hp.
  specialize (H _ Hp). discriminate H.
Qed.

Lemma guardedly_bind {A B} (m : M Outside A) (k : A -> M Outside B) :
  emits m (fun _ new => guardedSwaps amount new) ->
  (forall a, emits (k a) (fun _ new => guardedSwaps amount new)) ->
  emits (bind m k) (fun _ new => guardedSwaps amount new).
Proof.
  intros Hm Hk. eapply emits_bind; [exact Hm | exact Hk | |].
  - intros a new1 r new2 H1 H2. apply guardedSwaps_app; assumption.
  - intros e new1 H1. exact H1.
Qed.

Lemma guardedly_quietly {A} (m : M Outside A) :
  emits m quietly -> emits m (fun _ new => guardedSwaps amount new).
Proof.
  intros H. eapply emits_weaken; [exact H|].
  intros r new [Hs _]. apply guardedSwaps_setup, Hs.
Qed.

Lemma guardedly_perform {A} c (op : External Outside A) :
  (forall p, c <> ClmmSwap p) ->
  emits (perform c op) (fun _ new => guardedSwaps amount new).
Proof. intros Hc. apply emits_perform; intros; apply guardedSwaps_other, Hc. Qed.

(** [performClmmSwap] hands [raydium.clmm.swap] only an amount that its
    guard has let through. *)
Lemma performClmmSwap_guarded poolId tokenInMint tokenOutMint slippageParam :
  emits (performClmmSwap sdk connection wallet poolId tokenInMint tokenOutMint
           amount slippageParam)
    (fun _ new => guardedSwaps amount new).
Proof.
  unfold performClmmSwap. cbv zeta.
  destruct (publicKey wallet) as [walletKey|];
    [|apply emits_throw, guardedSwaps_nil].
  destruct (sendTransaction wallet) as [send|];
    [|apply emits_throw, guardedSwaps_nil].
  apply guardedly_bind; [apply guardedly_quietly, quietly_publicKeyOf|].
  intros inputMint.
  apply guardedly_bind; [apply guardedly_quietly, quietly_publicKeyOf|].
  intros outputMint.
  apply guardedly_bind; [apply guardedly_quietly, quietly_assertClmmPoolAccount|].
  intros poolPubkey.
  apply guardedly_bind; [apply guardedly_quietly, quietly_createRaydiumContext|].
  intros context.
  apply guardedly_bind; [apply guardedly_quietly, quietly_ensureAtaExists|].
  intros _.
  apply guardedly_bind; [apply guardedly_quietly, quietly_ensureAtaExists|].
  intros _.
  apply guardedly_bind; [apply guardedly_perform; discriminate|]. intros _.
  apply guardedly_bind; [apply guardedly_perform; discriminate|].
  intros snapshot.
  destruct (findMint _ _) as [inputMintInfo|];
    [|apply emits_throw, guardedSwaps_nil].
  destruct (findMint _ _) as [outputMintInfo|];
    [|apply emits_throw, guardedSwaps_nil].
  destruct (uiAmountToBN amount (decimals inputMintInfo)) as [amountIn|e] eqn:Ea;
    cbn [ofResult]; [apply emits_bind_ret | apply emits_bind_throw, guardedSwaps_nil].
  destruct (nonPositive amountIn) eqn:Hpos; [apply emits_throw, guardedSwaps_nil|].
  destruct (match tickData snapshot with Some cache => _ | None => None end)
    as [tickCache|]; [|apply emits_throw, guardedSwaps_nil].
  destruct (computePoolInfo snapshot) as [computeInfo|];
    [|apply emits_throw, guardedSwaps_nil].
  apply guardedly_bind; [apply guardedly_perform; discriminate|].
  intros epochInfo.
  destruct (negb _); [apply emits_throw, guardedSwaps_nil|].
  apply guardedly_bind; [apply guardedly_quietly, quietly_publicKeyOf|].
  intros observation.
  apply guardedly_bind.
  { apply emits_perform; intros; intros p Hp;
      apply list_elem_of_singleton in Hp; injection Hp as ->;
      cbn [swapAmountIn]; (split; [exact Hpos | eauto]). }
  intros swapTx.
  apply guardedly_bind; [apply guardedly_perform; discriminate|].
  intros txId. apply emits_ret, guardedSwaps_nil.
Qed.

End GuardedAmount.

(** ** Empty and negative input: the results *)

(** C6 as stated fails: a minus sign after a zero whole part reaches
    [new BN] at the head of the digits. *)
Lemma C6_negative_result :
  uiAmountToBN (js "0.-5") 2 = Ok (-5)%Z
  /\ ~ (forall s d (z : Z), uiAmountToBN s d = Ok z -> (0 <= z)%Z).
Proof.
  split; [reflexivity|].
  intros H. specialize (H (js "0.-5") 2%nat (-5)%Z eq_refl). lia.
Qed.

(** C6 (amended). [uiAmountToBN] returns zero on an empty or white-space
    input and on an input whose first character (after trimming) is a minus
    sign; it has no flag of its own: the guard of [performClmmSwap] is what
    rejects a zero or negative integer; an input without any minus sign
    never gives a negative amount. *)
Theorem C6_empty_or_negative_input :
  (forall d, uiAmountToBN [] d = Ok 0%Z)
  /\ (forall s d, forallb isWhiteSpace s = true -> uiAmountToBN s d = Ok 0%Z)
  /\ (forall r d, uiAmountToBN (minus :: r) d = Ok 0%Z)
  /\ (forall s d, startsWith minus (trim s) = true -> uiAmountToBN s d = Ok 0%Z)
  /\ uiAmountToBN (js "-1") 6 = Ok 0%Z
  /\ (forall z : Z, (z <= 0)%Z -> nonPositive z = true)
  /\ (forall s d a, minus ∉ s -> uiAmountToBN s d = Ok a -> BN.isNeg a = false)
  /\ (forall s d (z : Z), minus ∉ s -> uiAmountToBN s d = Ok z -> (0 <= z)%Z).
Proof.
  split; [reflexivity|]. split; [|split; [|split; [|split; [|split; [|split]]]]].
  - intros s d H. apply uiAmountToBN_zero. left. apply trim_whitespace, H.
  - intros r d. apply uiAmountToBN_zero. right. apply trim_minus.
  - intros s d H. apply uiAmountToBN_zero. right. exact H.
  - reflexivity.
  - intros z Hz. unfold nonPositive, BN.isZero, BN.isNeg.
    destruct (Z.eqb_spec z 0); [reflexivity|]. apply Z.ltb_lt. lia.
  - apply uiAmountToBN_notMinus.
  - intros s d z Hs Hz.
    pose proof (uiAmountToBN_notMinus s d (BN.Number z) Hs Hz) as Hn.
    cbn in Hn. apply Z.ltb_ge in Hn. exact Hn.
Qed.

Lemma C6_empty_or_negative_input_witness :
  forallb isWhiteSpace (js "   ") = true
  /\ uiAmountToBN (js "   ") 6 = Ok 0%Z
  /\ nonPositive 0%Z = true
  /\ (forall z : Z, uiAmountToBN (js "0.25") 6 = Ok z -> (0 <= z)%Z).
Proof.
  destruct C6_empty_or_negative_input as (_ & Hw & _ & _ & _ & Hn & _ & Hp).
  split; [reflexivity|]. split; [apply Hw; reflexivity|].
  split; [apply Hn; lia|].
  intros z. apply Hp.
  apply (bool_decide_unpack (minus ∉ js "0.25")). vm_compute. exact I.
Defined.

(* ================================================================== *)
(** * Further properties of the code *)

(** ** [uiAmountToBN]: exact cases, zeros, white space *)

Lemma kept_as_take d f :
  take d f ++ replicate (d - length f) char0 = take d (f ++ replicate d char0).
Proof.
  rewrite take_app, take_replicate. f_equal. f_equal. lia.
Qed.

Lemma kept_trailing_zeros d f j :
  take d (f ++ replicate j char0)
    ++ replicate (d - length (f ++ replicate j char0)) char0
  = take d f ++ replicate (d - length f) char0.
Proof.
  rewrite !kept_as_take, <- app_assoc, <- replicate_add.
  rewrite !take_app, !take_replicate. f_equal. f_equal. lia.
Qed.

(** X1. A literal whose fraction has at most [decimals] digits is converted
    exactly: the integer [w] gives [w * 10^decimals], and [w.f] gives the
    digits of [w] and [f] read as one number, times [10^(decimals - |f|)]:
    nothing is lost. *)
Theorem X1_exact_when_fraction_fits (w f : JsString.t) (d : nat) :
  forallb isDigit w = true -> forallb isDigit f = true ->
  (length f <= d)%nat ->
  uiAmountToBN w d = Ok (Z.of_N (BN.digitsValue w * 10 ^ N.of_nat d))
  /\ uiAmountToBN (w ++ dot :: f) d
     = Ok (Z.of_N (BN.digitsValue (w ++ f) * 10 ^ N.of_nat (d - length f))).
Proof.
  intros Hw Hf Hl. split.
  - rewrite uiAmountToBN_integer by exact Hw.
    rewrite digitsValue_app_zeros. reflexivity.
  - rewrite uiAmountToBN_dot, padEnd_substring0 by assumption.
    rewrite take_ge by exact Hl.
    rewrite app_assoc, digitsValue_app_zeros. reflexivity.
Qed.

Lemma X1_exact_when_fraction_fits_witness :
  forallb isDigit (js "7") = true
  /\ forallb isDigit (js "25") = true
  /\ (length (js "25") <= 6)%nat
  /\ uiAmountToBN (js "7") 6 = Ok 7000000%Z
  /\ uiAmountToBN (js "7.25") 6 = Ok 7250000%Z.
Proof.
  split; [reflexivity|]. split; [reflexivity|]. split; [vm_compute; lia|].
  apply (X1_exact_when_fraction_fits (js "7") (js "25") 6 eq_refl eq_refl).
  vm_compute. lia.
Defined.

(** X2. Leading zeros of the whole part and trailing zeros of the
    fractional part do not change the converted amount: ["007.2500"] is
    ["7.25"], and [".5"] is ["0.5"]. *)
Theorem X2_redundant_zeros_ignored (w f : JsString.t) (d k j : nat) :
  forallb isDigit w = true -> forallb isDigit f = true ->
  uiAmountToBN (replicate k char0 ++ w ++ dot :: f ++ replicate j char0) d
  = uiAmountToBN (w ++ dot :: f) d.
Proof.
  intros Hw Hf.
  rewrite app_assoc.
  rewrite !uiAmountToBN_dot;
    rewrite ?forallb_app, ?forallb_replicate_zero, ?Hw, ?Hf; try reflexivity.
  rewrite !padEnd_substring0, kept_trailing_zeros.
  rewrite <- app_assoc, digitsValue_zeros_app. reflexivity.
Qed.

Lemma X2_redundant_zeros_ignored_witness :
  forallb isDigit (js "7") = true
  /\ forallb isDigit (js "25") = true
  /\ uiAmountToBN (js "007.2500") 3 = uiAmountToBN (js "7.25") 3
  /\ uiAmountToBN (js "7.25") 3 = Ok 7250%Z.
Proof.
  split; [reflexivity|]. split; [reflexivity|]. split; [|reflexivity].
  apply (X2_redundant_zeros_ignored (js "7") (js "25") 3 2 2); reflexivity.
Defined.

Lemma dropWhile_app_all p pre x :
  forallb p pre = true -> dropWhile p (pre ++ x) = dropWhile p x.
Proof.
  induction pre as [|c pre IH]; simpl; [reflexivity|].
  intros [-> H]%andb_true_iff. auto.
Qed.

Lemma dropWhile_app_suffix p s post :
  forallb p post = true ->
  exists post', forallb p post' = true
                /\ dropWhile p (s ++ post) = dropWhile p s ++ post'.
Proof.
  intros Hp. induction s as [|c s IH]; simpl.
  - exists (dropWhile p post). split; [|reflexivity].
    rewrite dropWhile_all by exact Hp. reflexivity.
  - destruct (p c); [exact IH|]. exists post. auto.
Qed.

Lemma trimEnd_app_all x post :
  forallb isWhiteSpace post = true -> trimEnd (x ++ post) = trimEnd x.
Proof.
  intros H. unfold trimEnd. rewrite reverse_app.
  rewrite dropWhile_app_all by (apply forallb_reverse, H). reflexivity.
Qed.

Lemma trim_surrounding pre s post :
  forallb isWhiteSpace pre = true -> forallb isWhiteSpace post = true ->
  trim (pre ++ s ++ post) = trim s.
Proof.
  intros Hpre Hpost. unfold trim.
  rewrite dropWhile_app_all by exact Hpre.
  destruct (dropWhile_app_suffix isWhiteSpace s post Hpost) as (post' & Hp' & ->).
  apply (trimEnd_app_all _ post' Hp').
Qed.

(** X3. White space around the amount is ignored, whatever the amount. *)
Theorem X3_surrounding_space_ignored (pre s post : JsString.t) (d : nat) :
  forallb isWhiteSpace pre = true -> forallb isWhiteSpace post = true ->
  uiAmountToBN (pre ++ s ++ post) d = uiAmountToBN s d.
Proof.
  intros Hpre Hpost. unfold uiAmountToBN.
  rewrite trim_surrounding by assumption. reflexivity.
Qed.

Lemma X3_surrounding_space_ignored_witness :
  forallb isWhiteSpace (js "  ") = true
  /\ uiAmountToBN (js "  " ++ js "1.5" ++ js "  ") 2 = uiAmountToBN (js "1.5") 2
  /\ uiAmountToBN (js "1.5") 2 = Ok 150%Z.
Proof.
  split; [reflexivity|]. split; [|reflexivity].
  apply (X3_surrounding_space_ignored (js "  ") (js "1.5") (js "  ") 2);
    reflexivity.
Defined.

(** ** [uiAmountToBN]: when it throws *)

Lemma split_digitOrSpace s :
  forallb amountChar s = true ->
  Forall (fun seg => forallb digitOrSpace seg = true) (split dot s).
Proof.
  induction s as [|c s IH]; simpl; [repeat constructor|].
  intros [Hc Hs]%andb_true_iff. specialize (IH Hs).
  destruct (c =? dot) eqn:Hd; [constructor; [reflexivity | exact IH]|].
  assert (Hq : digitOrSpace c = true).
  { unfold amountChar in Hc. rewrite Hd, orb_false_r in Hc. exact Hc. }
  destruct (split dot s) as [|seg segs];
    [repeat constructor; simpl; rewrite Hq; reflexivity|].
  inversion IH; subst. constructor; [|assumption]. simpl. rewrite Hq. assumption.
Qed.

Lemma combinedDigits_digitOrSpace s d :
  forallb amountChar s = true ->
  forallb digitOrSpace (combinedDigits s d) = true.
Proof.
  intros H. pose proof (split_digitOrSpace s H) as P.
  unfold combinedDigits.
  apply forallb_orElse; [|reflexivity]. apply forallb_dropWhile.
  rewrite forallb_app. apply andb_true_iff. split.
  - apply forallb_orElse; [|reflexivity].
    apply forallb_stripZerosBeforeDigit; [reflexivity|].
    apply forallb_nth; [exact P | reflexivity].
  - unfold padEnd, substring0. rewrite forallb_app. apply andb_true_iff. split.
    + apply forallb_take, forallb_nth; [exact P | reflexivity].
    + generalize (d - length (take d (nth 1 (split dot s) [])))%nat.
      intros k. induction k; simpl; auto.
Qed.

Lemma ofString_digitOrSpace s :
  forallb digitOrSpace s = true ->
  exists a, BN.ofString s = Ok a
            /\ ((exists z : Z, a = BN.Number z /\ (0 <= z)%Z)
                \/ a = BN.NoWords false).
Proof.
  intros H. unfold BN.ofString.
  destruct s as [|c0 s0]; [exists (BN.Number 0); split; [reflexivity|];
                           left; exists 0%Z; split; [reflexivity | lia]|].
  set (number := List.filter _ (c0 :: s0)).
  assert (D : forallb isDigit number = true).
  { apply forallb_forall. intros c Hc. apply filter_In in Hc as [Hc Hw].
    rewrite forallb_forall in H. specialize (H c Hc).
    apply negb_true_iff in Hw. unfold digitOrSpace in H.
    rewrite Hw, orb_false_r in H. exact H. }
  rewrite (digits_startsWith_minus number D).
  destruct number as [|c r]; [eexists; split; [reflexivity | right; reflexivity]|].
  rewrite D. eexists. split; [reflexivity|]. left.
  eexists. split; [reflexivity | lia].
Qed.

(** X4. [uiAmountToBN] can only throw the "Invalid character" assertion of
    [BN]; on an input made of digits, decimal points and white space it
    never throws, and what it returns is a non-negative integer or, when
    the text it assembled holds no digit, an instance without words and
    without sign. *)
Theorem X4_conversion_errors :
  (forall s d e, uiAmountToBN s d = Throw e -> e = InvalidCharacter)
  /\ (forall s d, forallb amountChar s = true ->
        exists a, uiAmountToBN s d = Ok a
                  /\ ((exists z : Z, a = BN.Number z /\ (0 <= z)%Z)
                      \/ a = BN.NoWords false)).
Proof.
  split; [exact uiAmountToBN_throws|].
  intros s d H. unfold uiAmountToBN.
  assert (T : forallb amountChar (trim s) = true).
  { unfold trim. apply forallb_reverse, forallb_dropWhile, forallb_reverse,
      forallb_dropWhile, H. }
  assert (Z0 : exists a, (Ok (BN.Number 0) : result BN.t) = Ok a
                         /\ ((exists z : Z, a = BN.Number z /\ (0 <= z)%Z)
                             \/ a = BN.NoWords false)).
  { exists (BN.Number 0). split; [reflexivity|]. left. exists 0%Z.
    split; [reflexivity | lia]. }
  destruct (trim s) as [|c r] eqn:E; [exact Z0|].
  destruct (startsWith minus (c :: r)); [exact Z0|].
  apply ofString_digitOrSpace, combinedDigits_digitOrSpace, T.
Qed.

Lemma X4_conversion_errors_witness :
  forallb amountChar (js " 1 2.3.4 ") = true
  /\ (exists a, uiAmountToBN (js " 1 2.3.4 ") 2 = Ok a
                /\ ((exists z : Z, a = BN.Number z /\ (0 <= z)%Z)
                    \/ a = BN.NoWords false))
  /\ uiAmountToBN (js " 1 2.3.4 ") 2 = Ok 1230%Z
  /\ uiAmountToBN (js "1e5") 2 = Throw InvalidCharacter.
Proof.
  split; [reflexivity|]. split; [|split; reflexivity].
  apply (proj2 X4_conversion_errors (js " 1 2.3.4 ") 2%nat). reflexivity.
Defined.

(** X5. Dust: a literal [w.f] converts to zero exactly when its value is
    below one base unit, [w.f * 10^decimals < 1]; [performClmmSwap] then
    rejects it as not positive. *)
Theorem X5_dust_converts_to_zero (w f : JsString.t) (d : nat) :
  forallb isDigit w = true -> forallb isDigit f = true ->
  (uiAmountToBN (w ++ dot :: f) d = Ok 0%Z
   <-> BN.digitsValue (w ++ f) * 10 ^ N.of_nat d < 10 ^ N.of_nat (length f))
  /\ (uiAmountToBN (w ++ dot :: f) d = Ok 0%Z -> nonPositive 0%Z = true).
Proof.
  intros Hw Hf. split; [|reflexivity].
  rewrite uiAmountToBN_dot, padEnd_substring0, truncated_value by assumption.
  assert (P : 10 ^ N.of_nat (length f) <> 0) by (apply N.pow_nonzero; discriminate).
  rewrite <- N.div_small_iff by exact P.
  split.
  - intros [= E]. apply N2Z.inj. exact E.
  - intros ->. reflexivity.
Qed.

Lemma X5_dust_converts_to_zero_witness :
  forallb isDigit (js "0") = true
  /\ forallb isDigit (js "0000009") = true
  /\ BN.digitsValue (js "0" ++ js "0000009") * 10 ^ N.of_nat 6
     < 10 ^ N.of_nat (length (js "0000009"))
  /\ uiAmountToBN (js "0.0000009") 6 = Ok 0%Z.
Proof.
  split; [reflexivity|]. split; [reflexivity|]. split; [reflexivity|].
  apply (proj1 (X5_dust_converts_to_zero (js "0") (js "0000009") 6
                  eq_refl eq_refl)).
  reflexivity.
Defined.

(** ** [formatTokenAmount]: the text it prints *)

(** X6. For a non-negative amount [formatTokenAmount] prints a decimal text:
    a whole part without superfluous leading zero, alone or followed by a
    point and at most [decimals] digits that do not end in a zero; never a
    bare or trailing point. *)
Theorem X6_format_prints_decimal_text (n : Z) (d : nat) :
  (0 <= n)%Z -> decimalText (formatTokenAmount n d) d.
Proof.
  intros Hn. destruct (decide (d = 0%nat)) as [->|Hd].
  - exists (BN.digits (Z.to_N n)), [].
    split; [apply digits_canonical|]. split; [reflexivity|].
    split; [simpl; lia|]. split; [discriminate|].
    cbn [formatTokenAmount]. rewrite toString_nonneg, app_nil_r by exact Hn.
    reflexivity.
  - rewrite formatTokenAmount_arith by assumption. cbv zeta.
    set (q := Z.to_N n / 10 ^ N.of_nat d).
    set (r := Z.to_N n mod 10 ^ N.of_nat d).
    destruct (N.eqb_spec r 0) as [E|E].
    + exists (BN.digits q), [].
      split; [apply digits_canonical|]. split; [reflexivity|].
      split; [simpl; lia|]. split; [discriminate | reflexivity].
    + set (padded := padStart d char0 (BN.digits r)).
      assert (Dp : forallb isDigit padded = true)
        by apply padStart_isDigit, digits_isDigit.
      assert (Lp : length padded = d).
      { unfold padded. rewrite padStart_length_eq.
        assert (P : 10 ^ N.of_nat d <> 0) by (apply N.pow_nonzero; discriminate).
        pose proof (digits_length_le r d Hd (N.mod_upper_bound _ _ P)). lia. }
      exists (BN.digits q), (stripTrailingZeros padded).
      split; [apply digits_canonical|]. split; [|split; [|split]].
      * pose proof (stripTrailingZeros_split padded) as S.
        rewrite S, forallb_app in Dp. apply andb_true_iff in Dp as [H _]. exact H.
      * pose proof (stripTrailingZeros_length padded). lia.
      * intros H. apply (stripTrailingZeros_last padded char0 H). reflexivity.
      * destruct (stripTrailingZeros padded) eqn:S; [|reflexivity].
        exfalso. apply E.
        apply stripTrailingZeros_nil_iff in S; [|exact Dp].
        unfold padded in S. rewrite padStart_value, digits_value in S. exact S.
Qed.

Lemma X6_format_prints_decimal_text_witness :
  (0 <= 1050000)%Z
  /\ formatTokenAmount 1050000 6 = js "1.05"
  /\ decimalText (formatTokenAmount 1050000 6) 6.
Proof.
  split; [lia|]. split; [reflexivity|].
  apply (X6_format_prints_decimal_text 1050000 6). lia.
Defined.

(** Parsing what was formatted, for the proofs below. *)
Lemma parse_format (n : Z) (d : nat) :
  (0 <= n)%Z -> uiAmountToBN (formatTokenAmount n d) d = Ok n.
Proof.
  intros Hn.
  assert (V : forall s, BN.digitsValue s = Z.to_N n ->
                        (Ok (Z.of_N (BN.digitsValue s)) : result BN.t) = Ok n).
  { intros s ->. rewrite Z2N.id by exact Hn. reflexivity. }
  destruct (decide (d = 0%nat)) as [->|Hd].
  - cbn [formatTokenAmount]. rewrite toString_nonneg by exact Hn.
    rewrite uiAmountToBN_integer by apply digits_isDigit.
    apply V. cbn [replicate]. rewrite app_nil_r. apply digits_value.
  - destruct (formatTokenAmount_parts n d Hd) as (whole & frac & R & L & _ & ->).
    rewrite toString_nonneg in R by exact Hn.
    assert (D : forallb isDigit (whole ++ frac) = true).
    { rewrite <- R. apply padStart_isDigit, digits_isDigit. }
    assert (E : BN.digitsValue (whole ++ frac) = Z.to_N n).
    { rewrite <- R, padStart_value. apply digits_value. }
    rewrite forallb_app in D. apply andb_true_iff in D as [Dw Df].
    pose proof (stripTrailingZeros_split frac) as S.
    pose proof (stripTrailingZeros_length frac) as SL.
    assert (Ds : forallb isDigit (stripTrailingZeros frac) = true).
    { rewrite S, forallb_app in Df. apply andb_true_iff in Df as [H _]. exact H. }
    destruct (stripTrailingZeros frac) as [|c f] eqn:F.
    + rewrite uiAmountToBN_integer by exact Dw. apply V.
      rewrite <- E, S. simpl. rewrite Nat.sub_0_r, L. reflexivity.
    + rewrite uiAmountToBN_dot by assumption. apply V.
      rewrite <- E. f_equal. f_equal. unfold padEnd, substring0.
      rewrite take_ge by lia. rewrite L in S. symmetry. exact S.
Qed.

(** X7. At a given number of decimals, two different non-negative amounts
    never print the same. *)
Theorem X7_format_injective (a b : Z) (d : nat) :
  (0 <= a)%Z -> (0 <= b)%Z ->
  formatTokenAmount a d = formatTokenAmount b d -> a = b.
Proof.
  intros Ha Hb E.
  pose proof (parse_format a d Ha) as Pa.
  rewrite E, (parse_format b d Hb) in Pa. congruence.
Qed.

Lemma X7_format_injective_witness :
  (0 <= 150)%Z
  /\ formatTokenAmount 150 2 = formatTokenAmount (100 + 50) 2
  /\ 150%Z = (100 + 50)%Z.
Proof.
  split; [lia|]. split; [reflexivity|].
  apply (X7_format_injective 150 (100 + 50) 2); [lia | lia | reflexivity].
Defined.

Lemma digits_length_ge m d :
  10 ^ N.of_nat d <= 10 * m -> (d <= length (BN.digits m))%nat.
Proof.
  intros H. destruct (Nat.le_gt_cases d (length (BN.digits m))) as [|Hlt];
    [assumption|].
  pose proof (digitsValue_bound _ (digits_isDigit m)) as B.
  rewrite digits_value in B.
  pose proof (pow10_mono (S (length (BN.digits m))) d Hlt) as P.
  rewrite Nat2N.inj_succ, N.pow_succ_r' in P. lia.
Qed.

Lemma digits_length_lt m d :
  m <> 0 -> 10 * m < 10 ^ N.of_nat d -> (length (BN.digits m) < d)%nat.
Proof.
  intros Hm H. destruct (Nat.le_gt_cases d (length (BN.digits m))) as [Hle|];
    [|assumption].
  destruct (digits_canonical m) as [D [E|(c & r & E & Hc)]].
  - apply (f_equal BN.digitsValue) in E. rewrite digits_value in E.
    exfalso. apply Hm. rewrite E. reflexivity.
  - pose proof D as D'. rewrite E in D'. simpl in D'.
    apply andb_true_iff in D' as [Dc _].
    pose proof (digitsValue_lower c r Dc Hc) as L.
    rewrite <- E, digits_value in L. rewrite E in Hle. cbn [length] in Hle.
    pose proof (pow10_mono d (S (length r)) Hle) as P.
    rewrite Nat2N.inj_succ, N.pow_succ_r' in P. lia.
Qed.

Lemma stripTrailingZeros_after a c b :
  isZeroChar c = false ->
  stripTrailingZeros (a ++ c :: b) = a ++ c :: stripTrailingZeros b.
Proof.
  intros Hc. unfold stripTrailingZeros.
  rewrite reverse_app, reverse_cons, <- app_assoc. cbn [app].
  rewrite dropWhile_app_stop by exact Hc.
  rewrite reverse_app, reverse_cons, reverse_involutive, <- app_assoc.
  reflexivity.
Qed.

(** X8. A negative amount is not printed as a negative decimal.  With at
    least [decimals] digits the text starts with the minus sign and
    [uiAmountToBN] reads it back as zero; with fewer digits the minus sign
    ends up inside the fractional part, after ["0."] and the padding. *)
Theorem X8_negative_amount_text (p : positive) (d : nat) :
  (10 ^ N.of_nat d <= 10 * Npos p ->
     (exists r, formatTokenAmount (Zneg p) d = minus :: r)
     /\ uiAmountToBN (formatTokenAmount (Zneg p) d) d = Ok 0%Z)
  /\ (10 * Npos p < 10 ^ N.of_nat d ->
      formatTokenAmount (Zneg p) d
      = char0 :: dot
          :: replicate (d - 1 - length (BN.digits (Npos p))) char0
          ++ minus :: stripTrailingZeros (BN.digits (Npos p))).
Proof.
  split.
  - intros H. apply digits_length_ge in H.
    assert (S : exists r, formatTokenAmount (Zneg p) d = minus :: r).
    { destruct d as [|d']; [eexists; reflexivity|].
      cbn [formatTokenAmount BN.toString]. unfold padStart.
      cbn [length].
      replace (S d' + 1 - S (length (BN.digits (N.pos p))))%nat with 0%nat by lia.
      cbn [replicate app]. unfold sliceButLast, sliceLast. cbn [length].
      replace (S (length (BN.digits (N.pos p))) - S d')%nat
        with (S (length (BN.digits (N.pos p)) - S d')) by lia.
      cbn [take orElse].
      destruct (stripTrailingZeros _); eexists; reflexivity. }
    split; [exact S|]. destruct S as [r ->].
    apply uiAmountToBN_zero. right. apply trim_minus.
  - intros H. apply digits_length_lt in H; [|discriminate].
    destruct d as [|d']; [lia|].
    cbn [formatTokenAmount BN.toString]. unfold padStart. cbn [length].
    replace (S d' + 1 - S (length (BN.digits (N.pos p))))%nat
      with (S (d' - length (BN.digits (N.pos p)))) by lia.
    cbn [replicate app]. unfold sliceButLast, sliceLast.
    cbn [length]. rewrite length_app, length_replicate. cbn [length].
    replace (S (d' - length (BN.digits (N.pos p))
                + S (length (BN.digits (N.pos p)))) - S d')%nat
      with 1%nat by lia.
    cbn [take drop orElse]. rewrite take_0, drop_0.
    rewrite stripTrailingZeros_after by reflexivity.
    replace (S d' - 1 - length (BN.digits (N.pos p)))%nat
      with (d' - length (BN.digits (N.pos p)))%nat by lia.
    destruct (replicate _ char0 ++ _) eqn:E; [|reflexivity].
    apply app_eq_nil in E as [_ E]. discriminate E.
Qed.

Lemma X8_negative_amount_text_witness :
  10 ^ N.of_nat 2 <= 10 * 500
  /\ formatTokenAmount (-500) 2 = js "-5"
  /\ uiAmountToBN (formatTokenAmount (-500) 2) 2 = Ok 0%Z
  /\ 10 * 5 < 10 ^ N.of_nat 3
  /\ formatTokenAmount (-5) 3 = js "0.0-5".
Proof.
  split; [vm_compute; discriminate|]. split; [reflexivity|].
  split; [apply (proj1 (X8_negative_amount_text 500 2)); vm_compute; discriminate|].
  split; [reflexivity|].
  rewrite (proj2 (X8_negative_amount_text 5 3)); reflexivity.
Defined.

(** ** Substring search and [detectCluster] *)

Lemma isPrefixOf_spec p s :
  isPrefixOf p s = true <-> exists post, s = p ++ post.
Proof.
  revert s. induction p as [|a p IH]; intros s; simpl.
  - split; [intros _; exists s; reflexivity | reflexivity].
  - destruct s as [|b s].
    + split; [discriminate | intros [post E]; discriminate E].
    + rewrite andb_true_iff, N.eqb_eq, IH. split.
      * intros [-> [post ->]]. exists post. reflexivity.
      * intros [post [= -> ->]]. split; [reflexivity | exists post; reflexivity].
Qed.

Lemma includes_spec search s : includes search s = true <-> occursIn search s.
Proof.
  unfold occursIn. induction s as [|c s IH]; cbn [includes].
  - rewrite orb_false_r, isPrefixOf_spec. split.
    + intros [post E]. exists [], post. exact E.
    + intros (pre & post & E). destruct pre as [|a pre]; [|discriminate E].
      exists post. exact E.
  - rewrite orb_true_iff, isPrefixOf_spec, IH. split.
    + intros [[post E]|(pre & post & E)].
      * exists [], post. exact E.
      * exists (c :: pre), post. rewrite E. reflexivity.
    + intros (pre & post & E). destruct pre as [|a pre].
      * left. exists post. exact E.
      * right. injection E as -> E. exists pre, post. exact E.
Qed.

(** X9. [detectCluster] answers devnet exactly when the endpoint text
    contains ["devnet"], or contains neither ["mainnet"] nor
    ["solana.com"] (the configured default); it answers mainnet in every
    other case.  So ["devnet"] wins over the other two names. *)
Theorem X9_detectCluster_by_substring {Outside} (connection : Connection Outside) :
  let e := endpointOf connection in
  (detectCluster connection = devnet
   <-> occursIn (js "devnet") e
       \/ (~ occursIn (js "mainnet") e /\ ~ occursIn (js "solana.com") e))
  /\ (detectCluster connection = mainnet
      <-> ~ occursIn (js "devnet") e
          /\ (occursIn (js "mainnet") e \/ occursIn (js "solana.com") e)).
Proof.
  cbv zeta. unfold detectCluster. fold (endpointOf connection).
  rewrite <- !includes_spec.
  destruct (includes (js "devnet") (endpointOf connection));
    destruct (includes (js "mainnet") (endpointOf connection));
    destruct (includes (js "solana.com") (endpointOf connection));
    cbn; (split; split); try tauto; try discriminate;
    intros; intuition discriminate.
Qed.

(** ** Generic facts on calls and errors of a program *)

Section Walk.

Context {Outside : Type}.

Lemma callsAll_bind {A B} allowed (m : M Outside A) (k : A -> M Outside B) :
  emits m (callsAll allowed) -> (forall a, emits (k a) (callsAll allowed)) ->
  emits (bind m k) (callsAll allowed).
Proof.
  intros Hm Hk. eapply emits_bind; [exact Hm | exact Hk | |].
  - intros a new1 r new2 H1 H2. unfold callsAll in *.
    rewrite forallb_app, H1, H2. reflexivity.
  - intros e new1 H1. exact H1.
Qed.

Lemma callsAll_perform {A} (allowed : Call -> bool) c (op : External Outside A) :
  allowed c = true -> emits (perform c op) (callsAll allowed).
Proof.
  intros Hc. apply emits_perform; intros; unfold callsAll; cbn; rewrite Hc;
    reflexivity.
Qed.

Lemma callsAll_ret {A} allowed (a : A) :
  emits (Outside := Outside) (ret a) (callsAll allowed).
Proof. apply emits_ret. reflexivity. Qed.

Lemma callsAll_throw {A} allowed e :
  emits (Outside := Outside) (A := A) (throw e) (callsAll allowed).
Proof. apply emits_throw. reflexivity. Qed.

Lemma throwsNone_bind {A B} bad (m : M Outside A) (k : A -> M Outside B) :
  emits m (throwsNone bad) -> (forall a, emits (k a) (throwsNone bad)) ->
  emits (bind m k) (throwsNone bad).
Proof.
  intros Hm Hk. eapply emits_bind; [exact Hm | exact Hk | |].
  - intros a new1 r new2 _ H2. exact H2.
  - intros e new1 H1 e' [= <-]. apply H1. reflexivity.
Qed.

Lemma throwsNone_perform {A} (bad : Error -> bool) c (op : External Outside A) :
  (forall code, bad (ExternalError code) = false) ->
  emits (perform c op) (throwsNone bad).
Proof.
  intros Hb. apply emits_perform; intros; intros e; [discriminate|].
  intros [= <-]. apply Hb.
Qed.

Lemma throwsNone_ret {A} bad (a : A) :
  emits (Outside := Outside) (ret a) (throwsNone bad).
Proof. apply emits_ret. intros e. discriminate. Qed.

Lemma throwsNone_throw {A} (bad : Error -> bool) e :
  bad e = false -> emits (Outside := Outside) (A := A) (throw e) (throwsNone bad).
Proof. intros He. apply emits_throw. intros e' [= <-]. exact He. Qed.

End Walk.

(** Walks through a program made of [bind], [perform], [ret], [throw] and
    case analyses. *)
Ltac walk_cases :=
  match goal with
  | |- emits (match ?x with _ => _ end) _ => destruct x
  | |- emits (if ?x then _ else _) _ => destruct x
  | |- emits (ofResult (Ok _)) _ => cbn [ofResult]
  | |- emits (ofResult (Throw _)) _ => cbn [ofResult]
  | |- emits (ofResult (uiAmountToBN ?s ?d)) _ =>
      let E := fresh "E" in
      destruct (uiAmountToBN s d) as [?|?] eqn:E;
      [|apply uiAmountToBN_throws in E; subst]
  | |- emits (ofResult (resolveSignAllTransactions ?w)) _ =>
      unfold resolveSignAllTransactions
  | |- emits (ofResult (match ?x with _ => _ end)) _ => destruct x
  end.

Ltac walk_unfold :=
  unfold performClmmSwap, createRaydiumContext, ensureAtaExists,
    assertClmmPoolAccount, publicKeyOf;
  cbv zeta.

Ltac walk_callsAll :=
  repeat first
    [ apply callsAll_ret
    | apply callsAll_throw
    | apply callsAll_perform; reflexivity
    | apply callsAll_bind; [|intros ?]
    | walk_cases ].

Ltac walk_throwsNone :=
  repeat first
    [ apply throwsNone_ret
    | apply throwsNone_throw; reflexivity
    | apply throwsNone_perform; reflexivity
    | apply throwsNone_bind; [|intros ?]
    | walk_cases ].

(** ** The pool account check, the SDK session and the associated accounts *)

(** X10. The failures of [assertClmmPoolAccount] that come before the
    account is examined: a malformed address is rejected with
    [InvalidAddress] without any call and leaves the world as it was; a
    rejected account lookup is rethrown after that single lookup.  In every
    case the check makes at most one call, a lookup of the parsed address,
    throws nothing but its own four errors or a rejection, and what it
    returns is the parsed address. *)
Theorem X10_pool_check_failures {Outside} (sdk : Sdk Outside)
    (connection : Connection Outside) (poolId : JsString.t) (w : World Outside) :
  let check := assertClmmPoolAccount sdk connection poolId in
  (newPublicKey sdk poolId = None <-> check w = (Throw InvalidAddress, w))
  /\ (forall pubkey code o',
        newPublicKey sdk poolId = Some pubkey ->
        getAccountInfo connection pubkey (outside w) = (Rejected code, o') ->
        check w = (Throw (ExternalError code),
                   {| outside := o'; calls := calls w ++ [GetAccountInfo pubkey] |}))
  /\ (forall pubkey,
        newPublicKey sdk poolId = Some pubkey ->
        calls (snd (check w)) = calls w ++ [GetAccountInfo pubkey])
  /\ (forall pubkey, fst (check w) = Ok pubkey -> newPublicKey sdk poolId = Some pubkey)
  /\ (forall e, fst (check w) = Throw e ->
        e = InvalidAddress \/ e = PoolNotFound \/ e = WrongProgramOwner
        \/ e = MalformedAccount \/ exists code, e = ExternalError code).
Proof.
  cbv zeta.
  assert (Hgrow : forall (r : result PublicKey) o pubkey,
             (r, {| outside := o; calls := calls w ++ [GetAccountInfo pubkey] |})
             <> (Throw InvalidAddress, w)).
  { intros r o pubkey [= _ E]. apply (f_equal (@calls Outside)) in E. cbn in E.
    apply (f_equal (@length Call)) in E. rewrite length_app in E. cbn in E. lia. }
  destruct (newPublicKey sdk poolId) as [pubkey|] eqn:Hk.
  - destruct (getAccountInfo connection pubkey (outside w)) as [[info|code] o] eqn:Hi.
    + rewrite (assertClmmPoolAccount_run sdk connection poolId pubkey w info o Hk Hi).
      cbn [fst snd calls].
      split; [|split; [|split; [|split]]].
      * split; [discriminate|]. intros E. destruct (Hgrow _ _ _ E).
      * intros pubkey' code o' [= <-] H. rewrite Hi in H. discriminate H.
      * intros pubkey' [= <-]. reflexivity.
      * intros pubkey'. destruct info as [i|]; [|discriminate].
        destruct (negb _); [discriminate|]. destruct (_ <? _)%Z; [discriminate|].
        intros [= <-]. reflexivity.
      * intros e. destruct info as [i|]; [|intros [= <-]; auto].
        destruct (negb _); [intros [= <-]; auto|].
        destruct (_ <? _)%Z; [intros [= <-]; auto|]. discriminate.
    + assert (E : assertClmmPoolAccount sdk connection poolId w
                  = (Throw (ExternalError code),
                     {| outside := o; calls := calls w ++ [GetAccountInfo pubkey] |})).
      { unfold assertClmmPoolAccount, publicKeyOf, bind, perform, ret.
        rewrite Hk. cbn. rewrite Hi. reflexivity. }
      rewrite E. cbn [fst snd calls].
      split; [|split; [|split; [|split]]].
      * split; [discriminate|]. intros E'. destruct (Hgrow _ _ _ E').
      * intros pubkey' code' o' [= <-] H. rewrite Hi in H.
        injection H as <- <-. reflexivity.
      * intros pubkey' [= <-]. reflexivity.
      * discriminate.
      * intros e [= <-]. eauto 10.
  - assert (E : assertClmmPoolAccount sdk connection poolId w
                = (Throw InvalidAddress, w)).
    { unfold assertClmmPoolAccount, publicKeyOf, bind, throw. rewrite Hk.
      reflexivity. }
    rewrite E. cbn [fst snd].
    split; [|split; [|split; [|split]]].
    + split; reflexivity.
    + discriminate.
    + discriminate.
    + discriminate.
    + intros e [= <-]. auto.
Qed.

Lemma X10_pool_check_failures_witness :
  newPublicKey Reference.sdk (js "5O") = None
  /\ assertClmmPoolAccount Reference.sdk (Reference.connection "devnet") (js "5O")
       Reference.world
     = (Throw InvalidAddress, Reference.world).
Proof.
  split; [reflexivity|].
  apply (proj1 (X10_pool_check_failures Reference.sdk
                  (Reference.connection "devnet") (js "5O") Reference.world)).
  reflexivity.
Defined.

(** X11. [createRaydiumContext] checks the wallet before it touches the
    SDK: without a public key it throws [SessionWalletNotConnected], with
    a key but no way to sign [WalletCannotSign], in both cases leaving the
    world as it was.  Otherwise it loads the SDK exactly once, for the
    wallet's key and the cluster [detectCluster] gives, with token loading
    and the feature check disabled and a signer supplied, and the context
    it returns is owned by the wallet's key. *)
Theorem X11_session_needs_signing_wallet {Outside} (sdk : Sdk Outside)
    (connection : Connection Outside) (wallet : Wallet Outside)
    (w : World Outside) :
  let session := createRaydiumContext sdk connection wallet in
  (publicKey wallet = None -> session w = (Throw SessionWalletNotConnected, w))
  /\ (forall walletKey,
        publicKey wallet = Some walletKey ->
        signAllTransactions wallet = None -> signTransaction wallet = None ->
        session w = (Throw WalletCannotSign, w))
  /\ (forall walletKey,
        publicKey wallet = Some walletKey ->
        signAllTransactions wallet <> None \/ signTransaction wallet <> None ->
        exists signAll,
          resolveSignAllTransactions wallet = Ok signAll
          /\ let params :=
               {| loadConnection := connection;
                  loadOwner := walletKey;
                  loadCluster := detectCluster connection;
                  disableLoadToken := true;
                  disableFeatureCheck := true;
                  loadSignAllTransactions := Some signAll |} in
             calls (snd (session w))
             = calls w ++ [RaydiumLoad walletKey (detectCluster connection)]
             /\ outside (snd (session w)) = snd (raydiumLoad sdk params (outside w))
             /\ fst (session w)
                = match fst (raydiumLoad sdk params (outside w)) with
                  | Resolved loaded =>
                      Ok {| raydium := loaded; ownerPubkey := walletKey |}
                  | Rejected code => Throw (ExternalError code)
                  end).
Proof.
  cbv zeta. unfold createRaydiumContext.
  split; [|split].
  - intros ->. reflexivity.
  - intros walletKey -> Ha Ho. unfold resolveSignAllTransactions.
    rewrite Ha, Ho. reflexivity.
  - intros walletKey -> Hsign.
    destruct (resolveSignAllTransactions wallet) as [signAll|e] eqn:Hr.
    + exists signAll. split; [reflexivity|].
      cbn [ofResult]. unfold bind, ret, perform.
      destruct (raydiumLoad sdk _ (outside w)) as [[loaded|code] o]; cbn; auto.
    + exfalso. unfold resolveSignAllTransactions in Hr.
      destruct (signAllTransactions wallet); [discriminate|].
      destruct (signTransaction wallet); [discriminate|].
      destruct Hsign as [H|H]; apply H; reflexivity.
Qed.

Lemma X11_session_needs_signing_wallet_witness :
  let wallet : Wallet Reference.Chain :=
    {| publicKey := Some 10; sendTransaction := None;
       signAllTransactions := None; signTransaction := None |} in
  publicKey wallet = Some 10
  /\ signAllTransactions wallet = None
  /\ signTransaction wallet = None
  /\ createRaydiumContext Reference.sdk (Reference.connection "devnet") wallet
       Reference.world
     = (Throw WalletCannotSign, Reference.world).
Proof.
  cbv zeta. split; [reflexivity|]. split; [reflexivity|]. split; [reflexivity|].
  apply (proj1 (proj2 (X11_session_needs_signing_wallet Reference.sdk
                         (Reference.connection "devnet")
                         {| publicKey := Some 10; sendTransaction := None;
                            signAllTransactions := None; signTransaction := None |}
                         Reference.world)) 10); reflexivity.
Defined.

Lemma signInTurn_shape {Outside}
    (signOne : VersionedTransaction -> External Outside VersionedTransaction)
    (transactions : list VersionedTransaction) (o : Outside) :
  let '(r, _, k) := signInTurn signOne transactions o in
  match r with
  | Resolved signed =>
      k = length transactions /\ length signed = length transactions
  | Rejected _ => (1 <= k <= length transactions)%nat
  end.
Proof.
  revert o. induction transactions as [|tx rest IH]; intros o; cbn [signInTurn].
  - split; reflexivity.
  - destruct (signOne tx o) as [[signedTx|code] o']; [|cbn; lia].
    specialize (IH o'). destruct (signInTurn signOne rest o') as [[r o''] k].
    destruct r as [signed|code]; cbn [length]; [|lia].
    destruct IH as [-> ->]. split; reflexivity.
Qed.

(** X12. The signer built for a wallet that can only sign one transaction
    at a time: when it succeeds it returns exactly one signed transaction
    per transaction it was given, after handing every one of them to the
    wallet, in order; when it fails it rethrows the wallet's rejection and
    the wallet has seen a non-empty prefix of the batch only; an empty
    batch succeeds without asking the wallet anything. *)
Theorem X12_fallback_signs_each_once {Outside} (wallet : Wallet Outside)
    (signOne : VersionedTransaction -> External Outside VersionedTransaction)
    (f : SignAllV0 Outside) :
  signAllTransactions wallet = None ->
  signTransaction wallet = Some signOne ->
  resolveSignAllTransactions wallet = Ok f ->
  forall txs w,
    (forall signed,
        fst (f txs w) = Ok signed ->
        length signed = length txs
        /\ calls (snd (f txs w)) = calls w ++ List.map SignTransaction txs)
    /\ (forall e,
          fst (f txs w) = Throw e ->
          exists code k,
            e = ExternalError code /\ (1 <= k <= length txs)%nat
            /\ calls (snd (f txs w))
               = calls w ++ List.map SignTransaction (take k txs))
    /\ (txs = [] -> fst (f txs w) = Ok []
                    /\ calls (snd (f txs w)) = calls w
                    /\ outside (snd (f txs w)) = outside w).
Proof.
  intros Ha Ho Hf txs w. unfold resolveSignAllTransactions in Hf.
  rewrite Ha, Ho in Hf. injection Hf as <-.
  rewrite signEach_in_turn.
  pose proof (signInTurn_shape signOne txs (outside w)) as Hs.
  split; [|split].
  - destruct (signInTurn signOne txs (outside w)) as [[r o] k].
    destruct r as [l|code]; [|discriminate]. cbn. intros signed [= <-].
    destruct Hs as [-> Hl]. rewrite firstn_all. auto.
  - destruct (signInTurn signOne txs (outside w)) as [[r o] k].
    destruct r as [l|code]; [discriminate|]. cbn. intros e [= <-].
    exists code, k. auto.
  - intros ->. cbn. rewrite app_nil_r. auto.
Qed.

Lemma X12_fallback_signs_each_once_witness :
  signAllTransactions Reference.signOnlyWallet = None
  /\ (exists signOne f,
        signTransaction Reference.signOnlyWallet = Some signOne
        /\ resolveSignAllTransactions Reference.signOnlyWallet = Ok f
        /\ fst (f [1; 2; 3] Reference.world) = Ok [1001; 1002; 1003]
        /\ calls (snd (f [1; 2; 3] Reference.world))
           = [SignTransaction 1; SignTransaction 2; SignTransaction 3]).
Proof.
  split; [reflexivity|].
  eexists _, _. split; [reflexivity|]. split; [reflexivity|].
  split; [reflexivity|].
  exact (proj2 (proj1 (X12_fallback_signs_each_once Reference.signOnlyWallet _ _
                         eq_refl eq_refl eq_refl [1; 2; 3] Reference.world)
                  [1001; 1002; 1003] eq_refl)).
Defined.


(** ** [performClmmSwap] *)

(** X14. Two checks in [createRaydiumContext] and [ensureAtaExists] are
    never the reason a swap fails: [performClmmSwap] has tested the
    wallet's public key and its [sendTransaction] before it calls them, so
    it throws neither of their errors about these. *)
Theorem X14_wallet_checked_once {Outside} (sdk : Sdk Outside)
    (connection : Connection Outside) (wallet : Wallet Outside)
    (poolId tokenInMint tokenOutMint amount : JsString.t)
    (slippageParam : option JsNumber) (w : World Outside) :
  let r := fst (performClmmSwap sdk connection wallet poolId tokenInMint
                  tokenOutMint amount slippageParam w) in
  r <> Throw SessionWalletNotConnected /\ r <> Throw AtaWalletCannotSend.
Proof.
  cbv zeta.
  assert (H : emits (performClmmSwap sdk connection wallet poolId tokenInMint
                       tokenOutMint amount slippageParam)
                (throwsNone unreachableInSwap)).
  { walk_unfold. walk_throwsNone. }
  destruct (H w) as (new & _ & Hr).
  split; intros E; specialize (Hr _ E); discriminate Hr.
Qed.

(** X15. What [performClmmSwap] does before its first call.  A wallet
    without a public key, a wallet without [sendTransaction], and a
    malformed input mint, output mint or pool address each end the run
    with the corresponding error and the world untouched, whatever the
    amount is; in every other case the run starts with the lookup of the
    pool account. *)
Theorem X15_swap_fails_before_any_call {Outside} (sdk : Sdk Outside)
    (connection : Connection Outside) (wallet : Wallet Outside)
    (poolId tokenInMint tokenOutMint amount : JsString.t)
    (slippageParam : option JsNumber) (w : World Outside) :
  let run := performClmmSwap sdk connection wallet poolId tokenInMint
               tokenOutMint amount slippageParam w in
  (publicKey wallet = None -> run = (Throw WalletNotConnected, w))
  /\ (publicKey wallet <> None -> sendTransaction wallet = None ->
      run = (Throw WalletCannotSend, w))
  /\ (publicKey wallet <> None -> sendTransaction wallet <> None ->
      newPublicKey sdk tokenInMint = None
      \/ newPublicKey sdk tokenOutMint = None
      \/ newPublicKey sdk poolId = None ->
      run = (Throw InvalidAddress, w))
  /\ (forall poolPubkey,
        publicKey wallet <> None -> sendTransaction wallet <> None ->
        newPublicKey sdk tokenInMint <> None ->
        newPublicKey sdk tokenOutMint <> None ->
        newPublicKey sdk poolId = Some poolPubkey ->
        exists rest,
          calls (snd run) = calls w ++ GetAccountInfo poolPubkey :: rest).
Proof.
  cbv zeta. split; [|split; [|split]].
  - intros Hkey. unfold performClmmSwap. rewrite Hkey. reflexivity.
  - intros Hkey Hsend. unfold performClmmSwap.
    destruct (publicKey wallet); [|congruence]. rewrite Hsend. reflexivity.
  - intros Hkey Hsend Hbad. unfold performClmmSwap. cbv zeta.
    destruct (publicKey wallet); [|congruence].
    destruct (sendTransaction wallet); [|congruence].
    unfold publicKeyOf at 1 2.
    destruct (newPublicKey sdk tokenInMint) as [inputMint|]; [|reflexivity].
    destruct (newPublicKey sdk tokenOutMint) as [outputMint|]; [|reflexivity].
    destruct Hbad as [H|[H|H]]; [discriminate H | discriminate H |].
    unfold bind at 1 2 3. unfold ret at 1 2.
    unfold assertClmmPoolAccount, publicKeyOf. rewrite H. reflexivity.
  - intros poolPubkey Hkey Hsend Hin Hout Hpool.
    assert (H : emits (performClmmSwap sdk connection wallet poolId tokenInMint
                         tokenOutMint amount slippageParam)
                  (fun _ new => exists rest, new = GetAccountInfo poolPubkey :: rest)).
    { unfold performClmmSwap. cbv zeta.
      destruct (publicKey wallet) as [walletKey|] eqn:Ekey; [|congruence].
      destruct (sendTransaction wallet) as [send|] eqn:Esend; [|congruence].
      unfold publicKeyOf at 1 2.
      destruct (newPublicKey sdk tokenInMint) as [inputMint|]; [|congruence].
      destruct (newPublicKey sdk tokenOutMint) as [outputMint|]; [|congruence].
      do 2 apply emits_bind_ret.
      eapply emits_bind with
        (Q1 := fun _ new => new = [GetAccountInfo poolPubkey])
        (Q2 := fun _ _ _ => True).
      - unfold assertClmmPoolAccount, publicKeyOf. rewrite Hpool.
        apply emits_bind_ret.
        eapply emits_bind with
          (Q1 := fun _ new => new = [GetAccountInfo poolPubkey])
          (Q2 := fun _ _ new => new = []).
        + apply emits_perform; reflexivity.
        + intros [info|]; [|apply emits_throw; reflexivity].
          destruct (negb _); [apply emits_throw; reflexivity|].
          destruct (_ <? _)%Z; [apply emits_throw | apply emits_ret]; reflexivity.
        + intros a new1 r new2 -> ->. reflexivity.
        + auto.
      - intros a.
        apply emits_weaken with (Q := callsAll (fun _ => true)); [|auto].
        walk_unfold. rewrite Ekey, Esend. walk_callsAll.
      - intros a new1 r new2 -> _. eauto.
      - intros e new1 ->. eauto. }
    destruct (H w) as (new & E & rest & ->). exists rest. exact E.
Qed.

Lemma X15_swap_fails_before_any_call_witness :
  publicKey Reference.wallet <> None
  /\ sendTransaction Reference.wallet <> None
  /\ newPublicKey Reference.sdk (js "not-a-key") = None
  /\ performClmmSwap Reference.sdk (Reference.connection "devnet")
       Reference.wallet (js "50") (js "not-a-key") (js "21") (js "1") None
       Reference.world
     = (Throw InvalidAddress, Reference.world).
Proof.
  split; [discriminate|]. split; [discriminate|]. split; [reflexivity|].
  apply (proj1 (proj2 (proj2 (X15_swap_fails_before_any_call Reference.sdk
                                (Reference.connection "devnet") Reference.wallet
                                (js "50") (js "not-a-key") (js "21") (js "1") None
                                Reference.world)))).
  - discriminate.
  - discriminate.
  - left. reflexivity.
Defined.

Section SwapRun.

Context {Outside : Type} (sdk : Sdk Outside) (connection : Connection Outside)
  (wallet : Wallet Outside).

Lemma sendsAtMost_bind {A B} a b n (P : Call -> Prop)
    (m : M Outside A) (k : A -> M Outside B) :
  (a + b <= n)%nat ->
  emits m (sendsAtMost a P) -> (forall x, emits (k x) (sendsAtMost b P)) ->
  emits (bind m k) (sendsAtMost n P).
Proof.
  intros Hn Hm Hk. eapply emits_bind; [exact Hm | exact Hk | |].
  - intros x new1 r new2 [H1 F1] [H2 F2]. split.
    + rewrite submissions_app. lia.
    + apply Forall_app. auto.
  - intros e new1 [H1 F1]. split; [lia | exact F1].
Qed.

Lemma sendsAtMost_perform {A} n (P : Call -> Prop) c (op : External Outside A) :
  (submissions [c] <= n)%nat -> P c -> emits (perform c op) (sendsAtMost n P).
Proof.
  intros Hn Hc. apply emits_perform; intros; (split; [exact Hn|]);
    repeat constructor; exact Hc.
Qed.

Lemma sendsAtMost_quiet {A} n (P : Call -> Prop) (m : M Outside A) :
  (forall c, notSend c = true -> P c) ->
  emits m (callsAll notSend) -> emits m (sendsAtMost n P).
Proof.
  intros HP Hm. eapply emits_weaken; [exact Hm|].
  intros r new H. unfold callsAll in H. split.
  - unfold submissions. induction new as [|c new IH]; [cbn; lia|].
    cbn in H. apply andb_true_iff in H as [Hc H]. cbn [List.filter].
    unfold notSend in Hc. apply negb_true_iff in Hc. rewrite Hc. auto.
  - induction new as [|c new IH]; [constructor|].
    cbn in H. apply andb_true_iff in H as [Hc H]. constructor; auto.
Qed.

Lemma sendsAtMost_ret {A} n (P : Call -> Prop) (a : A) :
  emits (Outside := Outside) (ret a) (sendsAtMost n P).
Proof. apply emits_ret. split; [cbn; lia | constructor]. Qed.

Lemma sendsAtMost_throw {A} n (P : Call -> Prop) e :
  emits (Outside := Outside) (A := A) (throw e) (sendsAtMost n P).
Proof. apply emits_throw. split; [cbn; lia | constructor]. Qed.

Lemma notSend_sendsAtMost {A} n (P : Call -> Prop) (r : result A) new :
  (forall c, notSend c = true -> P c) ->
  forallb notSend new = true -> sendsAtMost n P r new.
Proof.
  intros HP H. split.
  - assert (E : submissions new = 0%nat); [|lia].
    unfold submissions. induction new as [|c new IH]; [reflexivity|].
    cbn in H. apply andb_true_iff in H as [Hc H]. cbn [List.filter].
    unfold notSend in Hc. apply negb_true_iff in Hc. rewrite Hc. auto.
  - induction new as [|c new IH]; [constructor|].
    cbn in H. apply andb_true_iff in H as [Hc H]. constructor; auto.
Qed.

Lemma ataCreationFor_notSend tokenInMint tokenOutMint walletKey c :
  notSend c = true -> ataCreationFor sdk tokenInMint tokenOutMint walletKey c.
Proof. intros Hc tx ->. discriminate Hc. Qed.

Lemma ensureAtaExists_sends tokenInMint tokenOutMint walletKey mint :
  newPublicKey sdk tokenInMint = Some mint
  \/ newPublicKey sdk tokenOutMint = Some mint ->
  emits (ensureAtaExists sdk connection wallet walletKey mint)
    (sendsAtMost 1 (ataCreationFor sdk tokenInMint tokenOutMint walletKey)).
Proof.
  intros Hmint. unfold ensureAtaExists. cbv zeta.
  apply (sendsAtMost_bind 0 1); [lia | |].
  { apply sendsAtMost_perform; [cbn; lia | apply ataCreationFor_notSend; reflexivity]. }
  intros [info|]; [apply sendsAtMost_ret|].
  destruct (sendTransaction wallet) as [send|]; [|apply sendsAtMost_throw].
  apply (sendsAtMost_bind 1 0); [lia | |].
  { apply sendsAtMost_perform; [cbn; lia|].
    intros tx [= <-]. exists mint. auto. }
  intros signature.
  apply sendsAtMost_quiet; [apply ataCreationFor_notSend|]. walk_callsAll.
Qed.

(** The context is owned by the wallet's key, and loading it sends nothing. *)
Lemma createRaydiumContext_owner :
  emits (createRaydiumContext sdk connection wallet)
    (fun r new =>
       forallb notSend new = true
       /\ forallb setupCall new = true
       /\ forallb notSwapBuild new = true
       /\ forall context, r = Ok context ->
            publicKey wallet = Some (ownerPubkey context)).
Proof.
  intros w. unfold createRaydiumContext.
  destruct (publicKey wallet) as [walletKey|].
  - unfold resolveSignAllTransactions, bind, perform, ofResult, ret, throw.
    destruct (signAllTransactions wallet) as [signAll|];
      [|destruct (signTransaction wallet) as [signOne|]].
    + destruct (raydiumLoad sdk _ (outside w)) as [[loaded|code] o];
        eexists; (split; [reflexivity|]); repeat split; try discriminate.
      intros context [= <-]. reflexivity.
    + destruct (raydiumLoad sdk _ (outside w)) as [[loaded|code] o];
        eexists; (split; [reflexivity|]); repeat split; try discriminate.
      intros context [= <-]. reflexivity.
    + exists []. cbn. rewrite app_nil_r. repeat split. discriminate.
  - exists []. cbn. rewrite app_nil_r. repeat split. discriminate.
Qed.

Lemma swapAtEnd_prefix {A B} (m : M Outside A) (k : A -> M Outside B) :
  emits m (callsAll notSwapBuild) -> (forall a, emits (k a) swapAtEnd) ->
  emits (bind m k) swapAtEnd.
Proof.
  intros Hm Hk. eapply emits_bind; [exact Hm | exact Hk | |].
  - intros a new1 r new2 H1 H2. unfold callsAll in H1.
    assert (Hpre : forall pre, forallb notSwapBuild pre = true ->
                               forallb notSwapBuild (new1 ++ pre) = true).
    { intros pre Hp. rewrite forallb_app, H1, Hp. reflexivity. }
    destruct r as [res|e].
    + destruct H2 as (pre & params & -> & Hp).
      exists (new1 ++ pre), params. rewrite app_assoc. auto.
    + destruct e; cbn in *; auto.
      destruct H2 as [H2|(pre & params & Hp & [->| ->])]; [auto| |];
        right; exists (new1 ++ pre), params; rewrite app_assoc; auto.
  - intros e new1 H1. unfold callsAll in H1. destruct e; cbn; auto.
Qed.

Lemma swapAtEnd_throw {A} e :
  emits (Outside := Outside) (A := A) (throw e) swapAtEnd.
Proof. apply emits_throw. destruct e; cbn; auto. Qed.

Lemma swapAtEnd_tail {A} params (build : External Outside (SwapTx Outside))
    (result : JsString.t -> A) :
  emits (swapTx <- perform (ClmmSwap params) build ;;
         txId <- perform (Execute true false) (execute swapTx true false) ;;
         ret (result txId))
    swapAtEnd.
Proof.
  intros w. unfold bind, perform, ret.
  destruct (build (outside w)) as [[swapTx|code] o]; cbn [outside calls fst snd].
  - destruct (execute swapTx true false o) as [[txId|code] o'];
      cbn [outside calls fst snd]; rewrite <- app_assoc;
      eexists; (split; [reflexivity|]).
    + exists [], params. auto.
    + right. exists [], params. auto.
  - eexists. split; [reflexivity|]. right. exists [], params. auto.
Qed.

End SwapRun.

(** X16. Whatever happens, [performClmmSwap] hands the wallet's
    [sendTransaction] at most two transactions, and each of them is the
    creation of the associated token account of the wallet's own key for
    the input or the output mint: the swap itself never goes through
    [sendTransaction]. *)
Theorem X16_swap_sends_only_account_creations {Outside} (sdk : Sdk Outside)
    (connection : Connection Outside) (wallet : Wallet Outside)
    (poolId tokenInMint tokenOutMint amount : JsString.t)
    (slippageParam : option JsNumber) (w : World Outside) :
  exists new,
    calls (snd (performClmmSwap sdk connection wallet poolId tokenInMint
                  tokenOutMint amount slippageParam w))
    = calls w ++ new
    /\ (submissions new <= 2)%nat
    /\ forall tx, SendTransaction tx ∈ new ->
         ataCreation sdk wallet tokenInMint tokenOutMint (SendTransaction tx).
Proof.
  assert (H : emits (performClmmSwap sdk connection wallet poolId tokenInMint
                       tokenOutMint amount slippageParam)
                (sendsAtMost 2 (ataCreation sdk wallet tokenInMint tokenOutMint))).
  { set (P := ataCreation sdk wallet tokenInMint tokenOutMint).
    unfold performClmmSwap. cbv zeta.
    destruct (publicKey wallet) as [walletKey|] eqn:Hkey;
      [|apply sendsAtMost_throw].
    assert (HP : forall c, notSend c = true -> P c).
    { intros c Hc. exists walletKey. split; [exact Hkey|].
      apply ataCreationFor_notSend, Hc. }
    destruct (sendTransaction wallet) as [send|] eqn:Hsend;
      [|apply sendsAtMost_throw].
    unfold publicKeyOf at 1 2.
    destruct (newPublicKey sdk tokenInMint) as [inputMint|] eqn:Hin;
      [apply emits_bind_ret | apply emits_bind_throw; split; [cbn; lia|constructor]].
    destruct (newPublicKey sdk tokenOutMint) as [outputMint|] eqn:Hout;
      [apply emits_bind_ret | apply emits_bind_throw; split; [cbn; lia|constructor]].
    apply (sendsAtMost_bind 0 2); [lia | |].
    { apply sendsAtMost_quiet; [exact HP|].
      unfold assertClmmPoolAccount, publicKeyOf. walk_callsAll. }
    intros poolPubkey.
    eapply emits_bind with
      (Q2 := fun context =>
               sendsAtMost 2 (ataCreationFor sdk tokenInMint tokenOutMint
                                (ownerPubkey context)));
      [apply createRaydiumContext_owner | | |].
    - intros context. cbv zeta.
      apply (sendsAtMost_bind 1 1); [lia | |].
      { eapply ensureAtaExists_sends; auto. }
      intros _.
      apply (sendsAtMost_bind 1 0); [lia | |].
      { eapply ensureAtaExists_sends; auto. }
      intros _. apply sendsAtMost_quiet; [apply ataCreationFor_notSend|].
      unfold publicKeyOf. walk_callsAll.
    - intros context new1 r new2 (Hs & _ & _ & Hctx) [Hn Hf].
      specialize (Hctx context eq_refl). rewrite Hkey in Hctx.
      injection Hctx as Hctx.
      destruct (notSend_sendsAtMost 0 P r new1 HP Hs) as [Hn1 Hf1]. split.
      + rewrite submissions_app. lia.
      + apply Forall_app. split; [exact Hf1|].
        eapply Forall_impl; [exact Hf|]. intros c Hc.
        exists walletKey. split; [exact Hkey|]. rewrite Hctx. exact Hc.
    - intros e new1 (Hs & _).
      destruct (notSend_sendsAtMost 0 P (Throw e : result ClmmSwapResult) new1 HP Hs)
        as [Hn1 Hf1].
      split; [lia | exact Hf1]. }
  destruct (H w) as (new & E & Hn & Hf). exists new.
  split; [exact E|]. split; [exact Hn|].
  intros tx Htx. rewrite Forall_forall in Hf. apply Hf, Htx.
Qed.

(** X17. The swap transaction is built and executed last, and at most
    once.  A run that returns ends with building the transaction and
    executing it with [sendAndConfirm] on and [skipPreflight] off, and did
    neither before; a run that fails with one of the function's own errors
    has built and executed nothing; only a rejection by the network, the
    wallet or the SDK can come between or after the two calls. *)
Theorem X17_swap_built_and_executed_last {Outside} (sdk : Sdk Outside)
    (connection : Connection Outside) (wallet : Wallet Outside)
    (poolId tokenInMint tokenOutMint amount : JsString.t)
    (slippageParam : option JsNumber) (w : World Outside) :
  let run := performClmmSwap sdk connection wallet poolId tokenInMint
               tokenOutMint amount slippageParam w in
  exists new,
    calls (snd run) = calls w ++ new
    /\ match fst run with
       | Ok _ =>
           exists pre params,
             new = pre ++ [ClmmSwap params; Execute true false]
             /\ forallb notSwapBuild pre = true
       | Throw (ExternalError _) =>
           forallb notSwapBuild new = true
           \/ exists pre params,
                forallb notSwapBuild pre = true
                /\ (new = pre ++ [ClmmSwap params]
                    \/ new = pre ++ [ClmmSwap params; Execute true false])
       | Throw _ => forallb notSwapBuild new = true
       end.
Proof.
  cbv zeta.
  assert (H : emits (performClmmSwap sdk connection wallet poolId tokenInMint
                       tokenOutMint amount slippageParam) swapAtEnd).
  { unfold performClmmSwap. cbv zeta.
    repeat first
      [ apply swapAtEnd_throw
      | apply swapAtEnd_tail
      | apply swapAtEnd_prefix;
        [ solve [ unfold createRaydiumContext, ensureAtaExists,
                    assertClmmPoolAccount, publicKeyOf; cbv zeta;
                  walk_callsAll ]
        | intros ? ]
      | walk_cases ]. }
  exact (H w).
Qed.

Section SwapCompleted.

Context {Outside : Type} (sdk : Sdk Outside) (connection : Connection Outside)
  (wallet : Wallet Outside) (amount : JsString.t)
  (poolPubkey walletKey inputMint outMint : PublicKey).

Lemma swapCompleted_prepend new1 res new2 :
  forallb setupCall new1 = true ->
  swapCompleted sdk amount poolPubkey walletKey inputMint outMint res new2 ->
  swapCompleted sdk amount poolPubkey walletKey inputMint outMint res
    (new1 ++ new2).
Proof.
  intros H1 (setup & params & i & o & -> & Hs & H).
  exists (new1 ++ setup), params, i, o. rewrite app_assoc.
  split; [reflexivity|]. split; [|exact H].
  rewrite forallb_app, H1, Hs. reflexivity.
Qed.

Lemma swapCompleted_bind {A} (m : M Outside A)
    (k : A -> M Outside ClmmSwapResult) :
  emits m (callsAll setupCall) ->
  (forall a, emits (k a)
     (fun r new => forall res, r = Ok res ->
        swapCompleted sdk amount poolPubkey walletKey inputMint outMint res new)) ->
  emits (bind m k)
    (fun r new => forall res, r = Ok res ->
       swapCompleted sdk amount poolPubkey walletKey inputMint outMint res new).
Proof.
  intros Hm Hk. eapply emits_bind; [exact Hm | exact Hk | |].
  - intros a new1 r new2 H1 H2 res Hr. apply swapCompleted_prepend; auto.
  - intros e new1 _ res Hr. discriminate Hr.
Qed.

End SwapCompleted.

(** X18. A swap that returns has gone through every stage, in order: the
    pool account lookup, set-up calls, the pool fetch, the epoch fetch, the
    building of the swap and its execution.  The swap was built for the
    parsed input mint, with the wallet's key as fee payer, an amount that
    is the conversion of the amount text at the input mint's decimals and
    has passed the guard, and the pool's observation account; the result reports
    the parsed output mint, the minimum amount out that was put in the
    swap, and that amount formatted at the output mint's decimals, which
    converts back to it when it is not negative. *)
Theorem X18_returned_swap {Outside} (sdk : Sdk Outside)
    (connection : Connection Outside) (wallet : Wallet Outside)
    (poolId tokenInMint tokenOutMint amount : JsString.t)
    (slippageParam : option JsNumber) (w : World Outside)
    (res : ClmmSwapResult) :
  let run := performClmmSwap sdk connection wallet poolId tokenInMint
               tokenOutMint amount slippageParam w in
  fst run = Ok res ->
  exists poolPubkey walletKey inputMint new,
    newPublicKey sdk poolId = Some poolPubkey
    /\ publicKey wallet = Some walletKey
    /\ newPublicKey sdk tokenInMint = Some inputMint
    /\ newPublicKey sdk tokenOutMint = Some (outputMint res)
    /\ calls (snd run) = calls w ++ GetAccountInfo poolPubkey :: new
    /\ swapCompleted sdk amount poolPubkey walletKey inputMint (outputMint res)
         res new.
Proof.
  cbv zeta.
  assert (H : emits (performClmmSwap sdk connection wallet poolId tokenInMint
                       tokenOutMint amount slippageParam)
                (fun r new => forall res, r = Ok res ->
                   exists poolPubkey walletKey inputMint new',
                     newPublicKey sdk poolId = Some poolPubkey
                     /\ publicKey wallet = Some walletKey
                     /\ newPublicKey sdk tokenInMint = Some inputMint
                     /\ newPublicKey sdk tokenOutMint = Some (outputMint res)
                     /\ new = GetAccountInfo poolPubkey :: new'
                     /\ swapCompleted sdk amount poolPubkey walletKey inputMint
                          (outputMint res) res new')).
  { unfold performClmmSwap. cbv zeta.
    destruct (publicKey wallet) as [walletKey|] eqn:Hkey;
      [|apply emits_throw; discriminate].
    destruct (sendTransaction wallet) as [send|] eqn:Hsend;
      [|apply emits_throw; discriminate].
    unfold publicKeyOf at 1 2.
    destruct (newPublicKey sdk tokenInMint) as [inputMint|] eqn:Hin;
      [apply emits_bind_ret | apply emits_bind_throw; discriminate].
    destruct (newPublicKey sdk tokenOutMint) as [outMint|] eqn:Hout;
      [apply emits_bind_ret | apply emits_bind_throw; discriminate].
    eapply emits_bind with
      (Q2 := fun pubkey r new => forall res, r = Ok res ->
               swapCompleted sdk amount pubkey walletKey inputMint outMint res new);
      [apply assertClmmPoolAccount_emits | intros poolPubkey | |].
    2: { intros pubkey new1 r new2 [H1 _] H2 res' Hr.
         destruct (H1 pubkey eq_refl) as [Hk ->].
         specialize (H2 res' Hr).
         assert (Ho : outputMint res' = outMint).
         { destruct H2 as (? & ? & ? & ? & H2). apply H2. }
         exists pubkey, walletKey, inputMint, new2. rewrite Ho. auto 10. }
    2: { intros e new1 _ res' Hr. discriminate Hr. }
    eapply emits_bind with
      (Q2 := fun context r new => forall res, r = Ok res ->
               swapCompleted sdk amount poolPubkey (ownerPubkey context) inputMint
                 outMint res new);
      [apply createRaydiumContext_owner | intros context | |].
    2: { intros context new1 r new2 (_ & Hs & _ & Hctx) H2 res' Hr.
         specialize (Hctx context eq_refl). rewrite Hkey in Hctx.
         injection Hctx as ->. apply swapCompleted_prepend; auto. }
    2: { intros e new1 _ res' Hr. discriminate Hr. }
    cbv zeta.
    apply swapCompleted_bind; [unfold ensureAtaExists; cbv zeta; walk_callsAll|].
    intros _.
    apply swapCompleted_bind; [unfold ensureAtaExists; cbv zeta; walk_callsAll|].
    intros _.
    apply swapCompleted_bind; [walk_callsAll|]. intros _.
    eapply emits_bind with
      (Q1 := fun _ new => new = [GetPoolInfoFromRpc (toBase58 sdk poolPubkey)])
      (Q2 := fun _ r new => forall res, r = Ok res ->
               swapCompleted sdk amount poolPubkey (ownerPubkey context) inputMint
                 outMint res
                 (GetPoolInfoFromRpc (toBase58 sdk poolPubkey) :: new));
      [apply emits_perform; reflexivity | intros snapshot | |].
    2: { intros a new1 r new2 -> H2. exact H2. }
    2: { intros e new1 _ res' Hr. discriminate Hr. }
    destruct (findMint (poolInfo snapshot) (toBase58 sdk inputMint))
      as [inputMintInfo|] eqn:Fin; [|apply emits_throw; discriminate].
    destruct (findMint (poolInfo snapshot) (toBase58 sdk outMint))
      as [outputMintInfo|] eqn:Fout; [|apply emits_throw; discriminate].
    destruct (uiAmountToBN amount (decimals inputMintInfo)) as [amountIn|e] eqn:Ea;
      cbn [ofResult]; [apply emits_bind_ret | apply emits_bind_throw; discriminate].
    destruct (nonPositive amountIn) eqn:Hpos; [apply emits_throw; discriminate|].
    destruct (match tickData snapshot with Some cache => _ | None => None end)
      as [tickCache|]; [|apply emits_throw; discriminate].
    destruct (computePoolInfo snapshot) as [computeInfo|];
      [|apply emits_throw; discriminate].
    intros w0. unfold publicKeyOf. unfold bind, perform, ret, throw.
    destruct (fetchEpochInfo (raydium context) (outside w0)) as [[epochInfo|code] o1];
      cbv beta iota delta [outside calls fst snd];
      [|eexists; split; [reflexivity | discriminate]].
    destruct (negb _);
      [eexists; split; [reflexivity | discriminate]|].
    destruct (newPublicKey sdk (observationId (poolKeys snapshot)))
      as [observation|] eqn:Hobs;
      cbv beta iota delta [outside calls fst snd];
      [|eexists; split; [reflexivity | discriminate]].
    match goal with
    | |- context [clmmSwap (raydium context) ?p o1] =>
        set (params := p);
        destruct (clmmSwap (raydium context) params o1) as [[swapTx|code] o2];
        cbv beta iota delta [outside calls fst snd]
    end.
    2: { eexists. split; [rewrite <- app_assoc; reflexivity | discriminate]. }
    destruct (execute swapTx true false o2) as [[txId'|code] o3];
      cbv beta iota delta [outside calls fst snd].
    2: { eexists. split; [rewrite <- !app_assoc; reflexivity | discriminate]. }
    eexists. split; [rewrite <- !app_assoc; reflexivity|].
    intros res' [= <-]. exists [], params, inputMintInfo, outputMintInfo.
    cbn [app txId amountOut amountOutUi outputMint outputSymbol].
    subst params.
    cbn [swapPoolInfo swapPoolKeys swapInputMint swapAmountIn amountOutMin
         swapObservationId useSOLBalance swapFeePayer].
    repeat (split; [first [reflexivity | assumption]|]).
    apply parse_format. }
  intros Hr. destruct (H w) as (new & E & Hnew).
  destruct (Hnew res Hr) as (pk & wk & im & new' & Hk & Hw & Hi & Ho & -> & Hc).
  exists pk, wk, im, new'. auto 10.
Qed.

Lemma X18_returned_swap_witness :
  let run := performClmmSwap Reference.sdk (Reference.connection "devnet")
               Reference.wallet (js "50") (js "20") (js "21") (js "1.5") None
               Reference.world in
  exists res,
    fst run = Ok res
    /\ amountOut res = 1500000000%Z
    /\ amountOutUi res = js "1500"
    /\ exists poolPubkey walletKey inputMint new,
         newPublicKey Reference.sdk (js "50") = Some poolPubkey
         /\ publicKey Reference.wallet = Some walletKey
         /\ newPublicKey Reference.sdk (js "20") = Some inputMint
         /\ newPublicKey Reference.sdk (js "21") = Some (outputMint res)
         /\ calls (snd run) = calls Reference.world ++ GetAccountInfo poolPubkey :: new
         /\ swapCompleted Reference.sdk (js "1.5") poolPubkey walletKey inputMint
              (outputMint res) res new.
Proof.
  cbv zeta. eexists. split; [vm_compute; reflexivity|].
  split; [reflexivity|]. split; [reflexivity|].
  apply (X18_returned_swap Reference.sdk (Reference.connection "devnet")
           Reference.wallet (js "50") (js "20") (js "21") (js "1.5") None
           Reference.world).
  vm_compute. reflexivity.
Defined.

(** ** [fetchClmmPoolSnapshot] *)





(** ** The amount that reaches the swap *)

Lemma nonPositive_false (a : BN.t) :
  nonPositive a = false
  <-> (exists z : Z, a = BN.Number z /\ (0 < z)%Z) \/ a = BN.NoWords false.
Proof.
  unfold nonPositive. destruct a as [z|[|]]; cbn.
  - rewrite orb_false_iff, Z.eqb_neq, Z.ltb_ge. split.
    + intros [Hz Hn]. left. exists z. split; [reflexivity | lia].
    + intros [(z' & [= <-] & Hz)|H]; [lia | discriminate H].
  - split; [discriminate|]. intros [(z & H & _)|H]; discriminate H.
  - split; [auto|reflexivity].
Qed.

(** X20. Every amount that [performClmmSwap] hands to
    [raydium.clmm.swap], in a run that returns or not, is the conversion
    of the amount text by [uiAmountToBN] and is one the guard lets
    through: a positive integer, or an instance without words and without
    sign, which is neither zero nor negative for [isZero] and [isNeg]. *)
Theorem X20_amount_handed_to_swap {Outside} (sdk : Sdk Outside)
    (connection : Connection Outside) (wallet : Wallet Outside)
    (poolId tokenInMint tokenOutMint amount : JsString.t)
    (slippageParam : option JsNumber) (w : World Outside) :
  exists new,
    calls (snd (performClmmSwap sdk connection wallet poolId tokenInMint
                  tokenOutMint amount slippageParam w))
    = calls w ++ new
    /\ forall params,
         ClmmSwap params ∈ new ->
         (exists decimals,
             uiAmountToBN amount decimals = Ok (swapAmountIn params))
         /\ ((exists z : Z, swapAmountIn params = BN.Number z /\ (0 < z)%Z)
             \/ swapAmountIn params = BN.NoWords false).
Proof.
  destruct (performClmmSwap_guarded sdk connection wallet amount poolId
              tokenInMint tokenOutMint slippageParam w) as (new & E & H).
  exists new. split; [exact E|]. intros params Hp.
  destruct (H params Hp) as [Hg Hd]. split; [exact Hd|].
  apply nonPositive_false, Hg.
Qed.

(** X21. The amounts without words.  When the whole part is made of
    zeros only and the first [decimals] characters of the fractional part
    are white space, the text [uiAmountToBN] assembles holds no digit
    after its leading zeros are stripped: the result is an instance
    without words, not zero, and the guard [isZero() || isNeg()] of
    [performClmmSwap] does not reject it. *)
Theorem X21_amount_without_words (w spaces rest : JsString.t) (d : nat) :
  forallb isZeroChar w = true ->
  forallb isWhiteSpace spaces = true ->
  length spaces = d -> (0 < d)%nat ->
  noDot rest = true ->
  (exists c, last rest = Some c /\ isWhiteSpace c = false) ->
  uiAmountToBN (w ++ dot :: spaces ++ rest) d = Ok (BN.NoWords false)
  /\ nonPositive (BN.NoWords false) = false.
Proof.
  intros Hw Hs Hl Hd Hr (c & Hc & Hcw). split; [|reflexivity].
  assert (Wd : noDot w = true).
  { unfold noDot. apply forallb_forall. intros x Hx.
    rewrite forallb_forall in Hw. specialize (Hw x Hx).
    apply N.eqb_eq in Hw. subst x. reflexivity. }
  assert (Sd : noDot spaces = true).
  { unfold noDot. apply forallb_forall. intros x Hx.
    rewrite forallb_forall in Hs. specialize (Hs x Hx).
    destruct (N.eqb_spec x dot) as [->|]; [discriminate Hs|reflexivity]. }
  assert (Ww : dropWhile isWhiteSpace w = w).
  { destruct w as [|x w']; [reflexivity|]. cbn in Hw.
    apply andb_true_iff in Hw as [Hx _]. apply N.eqb_eq in Hx. subst x.
    reflexivity. }
  assert (Hwhole : orElse (stripZerosBeforeDigit w) (js "0") = js "0").
  { destruct w as [|x w']; [reflexivity|]. unfold stripZerosBeforeDigit.
    rewrite (dropWhile_all isZeroChar (x :: w') Hw).
    cbn in Hw. apply andb_true_iff in Hw as [-> _]. reflexivity. }
  assert (Hfrac : padEnd d char0 (substring0 d (spaces ++ rest)) = spaces).
  { unfold padEnd, substring0. rewrite <- Hl, take_app_length.
    rewrite Nat.sub_diag. apply app_nil_r. }
  assert (Hstrip : stripLeadingZeros (js "0" ++ spaces) = spaces).
  { unfold stripLeadingZeros. change (js "0" ++ spaces) with (char0 :: spaces).
    cbn [dropWhile]. change (isZeroChar char0) with true. cbv iota.
    destruct spaces as [|x sp]; [reflexivity|].
    cbn [forallb] in Hs. apply andb_true_iff in Hs as [Hx _]. cbn [dropWhile].
    unfold isZeroChar.
    destruct (N.eqb_spec x char0) as [->|]; [discriminate Hx | reflexivity]. }
  assert (Hne : spaces <> []).
  { intros ->. cbn in Hl. lia. }
  rewrite uiAmountToBN_segments.
  rewrite segments_two.
  - rewrite Ww. cbv zeta. cbn [nth].
    destruct (decide ([w; spaces ++ rest] = [[]])) as [E|_]; [discriminate E|].
    assert (Hm : startsWith minus w = false).
    { destruct w as [|x w']; [reflexivity|]. cbn in Hw.
      apply andb_true_iff in Hw as [Hx _]. apply N.eqb_eq in Hx. subst x.
      reflexivity. }
    rewrite Hm. unfold assembled. rewrite Hwhole, Hfrac, Hstrip.
    destruct spaces as [|x sp]; [congruence|]. cbn [orElse].
    unfold BN.ofString.
    assert (F : List.filter (fun c => negb (isWhiteSpace c)) (x :: sp) = []).
    { clear -Hs. induction (x :: sp) as [|y l IH]; [reflexivity|].
      cbn in Hs. apply andb_true_iff in Hs as [Hy Hs]. cbn. rewrite Hy. cbn.
      auto. }
    rewrite F. reflexivity.
  - exact Wd.
  - unfold noDot. rewrite forallb_app. apply andb_true_iff. split; assumption.
  - intros x. rewrite last_app, Hc. intros [= <-]. exact Hcw.
Qed.

Lemma X21_amount_without_words_witness :
  forallb isZeroChar (js "0") = true
  /\ forallb isWhiteSpace (js "      ") = true
  /\ length (js "      ") = 6%nat
  /\ noDot (js "1") = true
  /\ uiAmountToBN (js "0.      1") 6 = Ok (BN.NoWords false)
  /\ nonPositive (BN.NoWords false) = false.
Proof.
  split; [reflexivity|]. split; [reflexivity|]. split; [reflexivity|].
  split; [reflexivity|].
  apply (X21_amount_without_words (js "0") (js "      ") (js "1") 6);
    try reflexivity.
  - lia.
  - exists 49. split; reflexivity.
Defined.

(** On the reference network such an amount goes all the way: with nine
    white spaces after the point, at the nine decimals of the input mint,
    the run makes its fifteen calls and returns, and the swap it built
    carries the instance without words. *)
Example swap_of_amount_without_words :
  let run := performClmmSwap Reference.sdk (Reference.connection "devnet")
               Reference.wallet (js "50") (js "20") (js "21")
               (js "0.         1") None Reference.world in
  (exists res, fst run = Ok res)
  /\ length (calls (snd run)) = 15%nat
  /\ (exists params, ClmmSwap params ∈ calls (snd run))
  /\ Forall (fun c => forall params, c = ClmmSwap params ->
                        swapAmountIn params = BN.NoWords false)
       (calls (snd run)).
Proof.
  cbv zeta. split; [eexists; vm_compute; reflexivity|].
  split; [vm_compute; reflexivity|].
  match goal with
  | |- context [calls ?w] => set (l := calls w)
  end.
  vm_compute in l. subst l. split.
  - eexists. do 13 apply list_elem_of_further. apply list_elem_of_here.
  - repeat (constructor;
            [intros p H; try discriminate H; injection H as <-; reflexivity|]).
    constructor.
Qed.

(** ** The snapshot effect: live fetches and the loading flag *)

Lemma runCleanup_lookup rs i r :
  runCleanup rs !! i = Some r ->
  exists r0, rs !! i = Some r0
             /\ runAddress r = runAddress r0
             /\ pending r = pending r0
             /\ (cancelled r0 = true -> cancelled r = true).
Proof.
  unfold runCleanup. destruct (last rs) as [l|] eqn:L; [|eauto].
  destruct (hasCleanup l); [|eauto].
  rewrite list_lookup_insert_Some. intros [(Ei & <- & Hlen) | (Hne & Hi)].
  - exists l. rewrite last_lookup in L.
    assert (i = Nat.pred (length rs)) as -> by lia. auto.
  - eauto.
Qed.

Lemma fetchesInvariant_step {Outside} (sdk : Sdk Outside) st ev :
  runsInvariant (runs st) -> fetchesInvariant sdk st ->
  fetchesInvariant sdk (hookStep sdk st ev).
Proof.
  intros J F. destruct ev as [poolAddress|i outcome|]; cbn [hookStep].
  - unfold runEffect. cbn [poolSnapshot snapshotLoading snapshotError runs].
    destruct (isValidAddress sdk poolAddress) eqn:Hv; cbn [negb];
      intros j r Hj Hp; cbn [runs snapshotLoading] in *;
      apply lookup_snoc_Some in Hj as [[_ Hj]|[_ <-]].
    + pose proof (runCleanup_cancels _ _ _ J Hj Hp) as Hc.
      apply runCleanup_lookup in Hj as (r0 & H0 & Ha & Hp0 & _).
      rewrite Ha. rewrite Hp0 in Hp. split; [apply (F _ _ H0 Hp) | reflexivity].
    + cbn. auto.
    + pose proof (runCleanup_cancels _ _ _ J Hj Hp) as Hc.
      apply runCleanup_lookup in Hj as (r0 & H0 & Ha & Hp0 & _).
      rewrite Ha. rewrite Hp0 in Hp. split; [apply (F _ _ H0 Hp) | congruence].
    + discriminate Hp.
  - destruct (runs st !! i) as [r0|] eqn:Hi; [|exact F].
    destruct (pending r0) eqn:Hp0; [|exact F].
    intros j r Hj Hp. rewrite settle_runs in Hj. cbn [runs] in Hj.
    apply list_lookup_insert_Some in Hj as [(-> & <- & _) | (Hne & Hj)];
      [discriminate Hp|].
    destruct (F j r Hj Hp) as [Ha Hl]. split; [exact Ha|]. intros Hc.
    specialize (Hl Hc).
    destruct (cancelled r0) eqn:Hc0.
    + unfold settle. rewrite Hc0. destruct outcome; exact Hl.
    + exfalso. destruct (J i r0 Hi Hp0) as [H|[_ Hi']]; [congruence|].
      destruct (J j r Hj Hp) as [H|[_ Hj']]; [congruence|]. lia.
  - intros j r Hj Hp. cbn [runs snapshotLoading] in *.
    pose proof (runCleanup_cancels _ _ _ J Hj Hp) as Hc.
    apply runCleanup_lookup in Hj as (r0 & H0 & Ha & Hp0 & _).
    rewrite Ha. rewrite Hp0 in Hp. split; [apply (F _ _ H0 Hp) | congruence].
Qed.

Lemma fetchesInvariant_fold {Outside} (sdk : Sdk Outside) events st :
  runsInvariant (runs st) -> fetchesInvariant sdk st ->
  fetchesInvariant sdk (fold_left (hookStep sdk) events st).
Proof.
  revert st. induction events as [|ev events IH]; intros st J F; [exact F|].
  cbn [fold_left]. apply IH.
  - apply runsInvariant_step, J.
  - apply fetchesInvariant_step; assumption.
Qed.

(** X22. In every state the effect can reach, a fetch whose result would
    still be applied is the one of the latest run, was started for a valid
    address, and the loading flag is set while it is in flight. *)
Theorem X22_live_fetch_shows_loading {Outside} (sdk : Sdk Outside)
    (events : list HookEvent) (i : nat) (r : EffectRun) :
  let st := hookRun sdk events in
  runs st !! i = Some r -> live r = true ->
  S i = length (runs st)
  /\ isValidAddress sdk (runAddress r) = true
  /\ snapshotLoading st = true.
Proof.
  cbv zeta. intros Hi Hl. unfold live in Hl.
  apply andb_true_iff in Hl as [Hp Hc]. apply negb_true_iff in Hc.
  assert (F : fetchesInvariant sdk (hookRun sdk events)).
  { apply fetchesInvariant_fold; intros j r' Hj; discriminate Hj. }
  destruct (F i r Hi Hp) as [Ha Hload].
  destruct (runsInvariant_run sdk events i r Hi Hp) as [H|[_ Hlast]];
    [congruence|].
  auto.
Qed.

Lemma X22_live_fetch_shows_loading_witness :
  let st := hookRun Reference.sdk [DepsChange (js "50"); DepsChange (js "51")] in
  exists r,
    runs st !! 1%nat = Some r
    /\ live r = true
    /\ S 1 = length (runs st)
    /\ isValidAddress Reference.sdk (runAddress r) = true
    /\ snapshotLoading st = true.
Proof.
  cbv zeta. eexists. split; [reflexivity|]. split; [reflexivity|].
  apply (X22_live_fetch_shows_loading Reference.sdk
           [DepsChange (js "50"); DepsChange (js "51")] 1); reflexivity.
Defined.

Lemma noLiveRun_cleanup rs : runsInvariant rs -> noLiveRun (runCleanup rs).
Proof.
  intros J i r Hi. unfold live. destruct (pending r) eqn:Hp; [|reflexivity].
  rewrite (runCleanup_cancels rs i r J Hi Hp). reflexivity.
Qed.

Lemma noLiveRun_step {Outside} (sdk : Sdk Outside) st ev :
  runsInvariant (runs st) -> noLiveRun (runs st) ->
  startsNoFetch sdk ev = true ->
  noLiveRun (runs (hookStep sdk st ev))
  /\ snapshotLoading (hookStep sdk st ev) = snapshotLoading st
  /\ (match ev with
      | DepsChange _ =>
          poolSnapshot (hookStep sdk st ev) = None
          /\ snapshotError (hookStep sdk st ev)
             = Some (js "Enter a valid CLMM pool address.")
      | _ =>
          poolSnapshot (hookStep sdk st ev) = poolSnapshot st
          /\ snapshotError (hookStep sdk st ev) = snapshotError st
      end).
Proof.
  intros J L Hev. destruct ev as [poolAddress|i outcome|]; cbn [hookStep].
  - cbn [startsNoFetch] in Hev. unfold runEffect. rewrite Hev.
    cbn [poolSnapshot snapshotLoading snapshotError runs].
    split; [|auto]. intros j r Hj.
    apply lookup_snoc_Some in Hj as [[_ Hj]|[_ <-]]; [|reflexivity].
    eapply noLiveRun_cleanup; eassumption.
  - destruct (runs st !! i) as [r0|] eqn:Hi; [|auto].
    destruct (pending r0) eqn:Hp0; [|auto].
    assert (Hc0 : cancelled r0 = true).
    { specialize (L i r0 Hi). unfold live in L. rewrite Hp0 in L.
      destruct (cancelled r0); [reflexivity | discriminate L]. }
    rewrite settle_runs. cbn [runs].
    unfold settle. rewrite Hc0. cbn [negb].
    split; [|destruct outcome; auto].
    intros j r Hj.
    apply list_lookup_insert_Some in Hj as [(-> & <- & _) | (Hne & Hj)];
      [reflexivity | exact (L j r Hj)].
  - cbn [poolSnapshot snapshotLoading snapshotError runs].
    split; [|auto]. apply noLiveRun_cleanup, J.
Qed.

(** X23. When the address is changed to one that is not valid, the
    snapshot is cleared, the error asks for a valid address, and the
    loading flag keeps the value it had: nothing resets it.  While no
    valid address follows, this does not change: the fetches that settle
    later are all cancelled, so a flag that was set by a fetch in flight
    stays set. *)
Theorem X23_invalid_address_freezes_loading {Outside} (sdk : Sdk Outside)
    (events later : list HookEvent) (poolAddress : JsString.t) :
  isValidAddress sdk poolAddress = false ->
  forallb (startsNoFetch sdk) later = true ->
  let st := hookRun sdk (events ++ DepsChange poolAddress :: later) in
  poolSnapshot st = None
  /\ snapshotError st = Some (js "Enter a valid CLMM pool address.")
  /\ snapshotLoading st = snapshotLoading (hookRun sdk events)
  /\ noLiveRun (runs st).
Proof.
  intros Hv Hl. cbv zeta. unfold hookRun.
  rewrite fold_left_app. cbn [fold_left].
  fold (hookRun sdk events).
  set (st0 := hookRun sdk events).
  pose proof (runsInvariant_run sdk events) as J0. fold st0 in J0.
  assert (H1 : let st1 := hookStep sdk st0 (DepsChange poolAddress) in
               runsInvariant (runs st1) /\ noLiveRun (runs st1)
               /\ poolSnapshot st1 = None
               /\ snapshotError st1 = Some (js "Enter a valid CLMM pool address.")
               /\ snapshotLoading st1 = snapshotLoading st0).
  { cbv zeta. split; [apply runsInvariant_step, J0|].
    cbn [hookStep]. unfold runEffect. rewrite Hv.
    cbn [negb poolSnapshot snapshotLoading snapshotError runs].
    split; [|auto]. intros j r Hj.
    apply lookup_snoc_Some in Hj as [[_ Hj]|[_ <-]]; [|reflexivity].
    eapply noLiveRun_cleanup; eassumption. }
  cbv zeta in H1. revert H1.
  generalize (hookStep sdk st0 (DepsChange poolAddress)).
  generalize (snapshotLoading st0). clear J0 st0.
  induction later as [|ev later IH]; intros flag st (J & L & Hs & He & Hf).
  - cbn [fold_left]. auto.
  - cbn [forallb] in Hl. apply andb_true_iff in Hl as [Hev Hl].
    cbn [fold_left]. apply (IH Hl).
    destruct (noLiveRun_step sdk st ev J L Hev) as (L' & Hf' & H').
    split; [apply runsInvariant_step, J|]. split; [exact L'|].
    destruct ev as [a|i outcome|]; destruct H' as [Hs' He'];
      repeat split; congruence.
Qed.

Lemma X23_invalid_address_freezes_loading_witness :
  let snapshot :=
    {| snapshotId := js "50";
       snapshotMintA := {| address := js "20"; symbol := None; decimals := 9 |};
       snapshotMintB := {| address := js "21"; symbol := None; decimals := 6 |};
       snapshotPrice := 0; snapshotTickCurrent := 0 |} in
  let st := hookRun Reference.sdk
              ([DepsChange (js "50")]
                 ++ DepsChange (js "5O") :: [Settle 0 (Fulfilled snapshot)]) in
  isValidAddress Reference.sdk (js "5O") = false
  /\ snapshotLoading (hookRun Reference.sdk [DepsChange (js "50")]) = true
  /\ poolSnapshot st = None
  /\ snapshotLoading st = true
  /\ noLiveRun (runs st).
Proof.
  cbv zeta. split; [reflexivity|]. split; [reflexivity|].
  destruct (X23_invalid_address_freezes_loading Reference.sdk
              [DepsChange (js "50")]
              [Settle 0 (Fulfilled
                 {| snapshotId := js "50";
                    snapshotMintA :=
                      {| address := js "20"; symbol := None; decimals := 9 |};
                    snapshotMintB :=
                      {| address := js "21"; symbol := None; decimals := 6 |};
                    snapshotPrice := 0; snapshotTickCurrent := 0 |})]
              (js "5O") eq_refl eq_refl) as (Hs & _ & Hf & Hn).
  split; [exact Hs|]. split; [exact Hf | exact Hn].
Defined.

(** ** The pool account check, shared by the snapshot and the swap *)

Lemma bind_throw_run {Outside A B} (m : M Outside A) (k : A -> M Outside B)
    (w w' : World Outside) e :
  m w = (Throw e, w') -> bind m k w = (Throw e, w').
Proof. intros H. unfold bind. rewrite H. reflexivity. Qed.

(** X24. A pool address that fails the account check fails the snapshot
    and the swap alike: [fetchClmmPoolSnapshot] stops where the check
    stopped, before the SDK is loaded, and rejects with the error of the
    check itself when that is one of the check's own errors;
    [performClmmSwap], for a wallet that can send and two well-formed
    mints, throws the same error at the same point, whatever the amount. *)
Theorem X24_pool_check_shared {Outside} (sdk : Sdk Outside)
    (generate : Outside -> PublicKey * Outside) (isErrorInstance : N -> bool)
    (connection : Connection Outside) (wallet : Wallet Outside)
    (poolId tokenInMint tokenOutMint amount : JsString.t)
    (slippageParam : option JsNumber) (w : World Outside) (e : Error) :
  let check := assertClmmPoolAccount sdk connection poolId w in
  fst check = Throw e ->
  fetchClmmPoolSnapshot sdk generate isErrorInstance connection poolId w
  = (inl (rethrown isErrorInstance e), snd check)
  /\ (isExternalError e = false -> rethrown isErrorInstance e = Caught e)
  /\ (publicKey wallet <> None -> sendTransaction wallet <> None ->
      newPublicKey sdk tokenInMint <> None ->
      newPublicKey sdk tokenOutMint <> None ->
      performClmmSwap sdk connection wallet poolId tokenInMint tokenOutMint
        amount slippageParam w
      = (Throw e, snd check)).
Proof.
  cbv zeta. intros He.
  assert (E : assertClmmPoolAccount sdk connection poolId w
              = (Throw e, snd (assertClmmPoolAccount sdk connection poolId w))).
  { destruct (assertClmmPoolAccount sdk connection poolId w) as [r w1].
    cbn [fst snd] in *. subst r. reflexivity. }
  split; [|split].
  - unfold fetchClmmPoolSnapshot, loadClmmPoolSnapshot.
    rewrite (bind_throw_run _ _ _ _ _ E). reflexivity.
  - intros Hx. destruct e; try reflexivity. discriminate Hx.
  - intros Hkey Hsend Hin Hout. unfold performClmmSwap. cbv zeta.
    destruct (publicKey wallet); [|congruence].
    destruct (sendTransaction wallet); [|congruence].
    unfold publicKeyOf at 1 2.
    destruct (newPublicKey sdk tokenInMint) as [inputMint|]; [|congruence].
    destruct (newPublicKey sdk tokenOutMint) as [outputMint|]; [|congruence].
    change (bind (ret inputMint) ?k w) with (k inputMint w). cbv beta.
    change (bind (ret outputMint) ?k w) with (k outputMint w). cbv beta.
    apply bind_throw_run, E.
Qed.

Lemma X24_pool_check_shared_witness :
  let check := assertClmmPoolAccount Reference.sdk (Reference.connection "devnet")
                 (js "51") Reference.world in
  fst check = Throw PoolNotFound
  /\ fetchClmmPoolSnapshot Reference.sdk (fun chain => (77, chain)) (fun _ => true)
       (Reference.connection "devnet") (js "51") Reference.world
     = (inl (Caught PoolNotFound), snd check)
  /\ performClmmSwap Reference.sdk (Reference.connection "devnet") Reference.wallet
       (js "51") (js "20") (js "21") (js "1") None Reference.world
     = (Throw PoolNotFound, snd check).
Proof.
  cbv zeta. split; [reflexivity|].
  destruct (X24_pool_check_shared Reference.sdk (fun chain => (77, chain))
              (fun _ => true) (Reference.connection "devnet") Reference.wallet
              (js "51") (js "20") (js "21") (js "1") None Reference.world
              PoolNotFound eq_refl) as (Hf & _ & Hs).
  split; [exact Hf|].
  apply Hs; discriminate.
Defined.

(** ** [displayValue] and [truncateAddress] *)




